(** * tritonbench: the fused-attention kernels, their host functions and
      the addmm benchmark operator

    A shallow embedding of [tritonbench/kernels/triton_fused_attention.py]
    and of the shape selection, input generation and metrics of
    [tritonbench/operators/addmm/operator.py].

    Tensors hold floating-point numbers in the source; here every element
    is a real number, so the casts ([.to(tl.bfloat16)], [.to(tl.float32)],
    [acc.to(Out.type.element_ty)]) are the identity and the development
    speaks about the exact-arithmetic meaning of the kernels.  The only
    non-finite value the forward kernel manipulates on purpose is the
    initial running maximum [-inf]; it is kept as a separate constructor.

    A tensor slice for one (batch, head) pair is a function from a row
    (sequence position) and a column (head-dimension index) to its
    element; the address arithmetic ([qvk_offset], strides, block
    pointers) only selects that slice and is not modelled, except for
    the offsets of the store of the row statistics [M].  Of the TMA
    descriptors the host-side bookkeeping of [TmaAutoTuneHelper] is
    modelled, not their encoding. *)

From Stdlib Require Import Reals Lra Lia List Arith PeanoNat NArith Bool String.
Import ListNotations.
Open Scope R_scope.

(* ================================================================= *)
(** ** Numeric primitives of the kernel language *)

(** [tl.math.exp2] and [tl.math.log2]. *)
Definition exp2 (x : R) : R := exp (x * ln 2).
Definition log2 (x : R) : R := ln x / ln 2.

(** A float that may be [-inf]: the type of the running maximum [m_i]. *)
Inductive ereal : Type :=
| NegInf : ereal
| Fin (x : R) : ereal.

(** [tl.maximum(m_i, x)] for a finite [x]. *)
Definition tl_maximum (m : ereal) (x : R) : R :=
  match m with
  | NegInf => x
  | Fin y => Rmax y x
  end.

(** [tl.math.exp2(m_i - x)] for a finite [x]: [exp2(-inf) = 0]. *)
Definition exp2_diff (m : ereal) (x : R) : R :=
  match m with
  | NegInf => 0
  | Fin y => exp2 (y - x)
  end.

(** [m_i + x] for a finite [x]. *)
Definition eadd (m : ereal) (x : R) : ereal :=
  match m with
  | NegInf => NegInf
  | Fin y => Fin (y + x)
  end.

Definition matrix : Type := nat -> nat -> R.

(** [tl.sum(row, 1)] over the first [n] columns. *)
Fixpoint rsum (f : nat -> R) (n : nat) : R :=
  match n with
  | O => 0
  | S k => rsum f k + f k
  end.

(** Maximum of [f 0 .. f k]. *)
Fixpoint max_to (f : nat -> R) (k : nat) : R :=
  match k with
  | O => f O
  | S k' => Rmax (max_to f k') (f (S k'))
  end.

(** [tl.max(row, 1)] over [n] columns; a block has at least one column
    ([tl.arange] needs a positive power of two). *)
Definition row_max (f : nat -> R) (n : nat) : R := max_to f (pred n).

(** Sum of [f] over the positions listed in [l] (with repetitions). *)
Fixpoint lsum (f : nat -> R) (l : list nat) : R :=
  match l with
  | [] => 0
  | j :: t => f j + lsum f t
  end.

(** [tl.range(lo, hi, step)]: [lo, lo+step, ...] below [hi]. *)
Definition tl_range (lo hi step : nat) : list nat :=
  map (fun t => (lo + t * step)%nat) (seq 0 ((hi - lo + step - 1) / step)).

(** [triton.cdiv]. *)
Definition cdiv (a b : nat) : nat := ((a + b - 1) / b)%nat.

(* ================================================================= *)
(** ** Forward kernel: [_attn_fwd_inner] and [_attn_fwd_compute] *)

(** The value added to a masked logit: [tl.where(mask, 0, -1.0e6)]. *)
Definition MASK_VALUE : R := -1000000.

(** The decimal literal of [qk_scale *= 1.44269504  # 1/log(2)]. *)
Definition LOG2E_literal : R := 144269504 / 100000000.

(** The loop-carried values [acc], [l_i], [m_i] of one query tile. *)
Record fwd_state : Type := mk_fwd_state {
  acc : matrix;
  l_i : nat -> R;
  m_i : nat -> ereal
}.

(** [lo, hi] of [_attn_fwd_inner]: the range of keys one stage handles. *)
Definition stage_bounds (STAGE start_m BLOCK_M N_CTX : nat) : nat * nat :=
  if (STAGE =? 1)%nat then (O, (start_m * BLOCK_M)%nat)
  else if (STAGE =? 2)%nat then ((start_m * BLOCK_M)%nat, ((start_m + 1) * BLOCK_M)%nat)
  else (O, N_CTX).

(** One iteration of the loop of [_attn_fwd_inner], at key offset
    [start_n].  [q] is the query tile, [K] and [V] the key and value
    slices; the tile [k] is loaded transposed. *)
Definition fwd_inner_body (q K V : matrix) (qk_scale : R)
    (HEAD_DIM BLOCK_N STAGE : nat) (offs_m offs_n : nat -> nat)
    (st : fwd_state) (start_n : nat) : fwd_state :=
  let k : matrix := fun d n => K (start_n + n)%nat d in
  let qk0 : matrix := fun r n => rsum (fun d => q r d * k d n) HEAD_DIM in
  let mask (r n : nat) : bool := (start_n + offs_n n <=? offs_m r)%nat in
  let qk_masked : matrix :=
    fun r n => qk0 r n * qk_scale + (if mask r n then 0 else MASK_VALUE) in
  let m_ij : nat -> R := fun r =>
    if (STAGE =? 2)%nat
    then tl_maximum (m_i st r) (row_max (qk_masked r) BLOCK_N)
    else tl_maximum (m_i st r) (row_max (qk0 r) BLOCK_N * qk_scale) in
  let qk : matrix := fun r n =>
    if (STAGE =? 2)%nat
    then qk_masked r n - m_ij r
    else qk0 r n * qk_scale - m_ij r in
  let p : matrix := fun r n => exp2 (qk r n) in
  let l_ij : nat -> R := fun r => rsum (p r) BLOCK_N in
  let alpha : nat -> R := fun r => exp2_diff (m_i st r) (m_ij r) in
  let v : matrix := fun n d => V (start_n + n)%nat d in
  {| acc := fun r d => acc st r d * alpha r + rsum (fun n => p r n * v n d) BLOCK_N;
     l_i := fun r => l_i st r * alpha r + l_ij r;
     m_i := fun r => Fin (m_ij r) |}.

(** [_attn_fwd_inner]: the loop over [tl.range(lo, hi, BLOCK_N)]. *)
Definition _attn_fwd_inner (st : fwd_state) (q K V : matrix)
    (start_m : nat) (qk_scale : R) (BLOCK_M HEAD_DIM BLOCK_N STAGE : nat)
    (offs_m offs_n : nat -> nat) (N_CTX : nat) : fwd_state :=
  let '(lo, hi) := stage_bounds STAGE start_m BLOCK_M N_CTX in
  fold_left (fwd_inner_body q K V qk_scale HEAD_DIM BLOCK_N STAGE offs_m offs_n)
            (tl_range lo hi BLOCK_N) st.

(** What one program ([start_m], one batch-head) stores: its tile of
    [Out] and its slice of the row statistics [M]. *)
Record fwd_out : Type := mk_fwd_out {
  Out_tile : matrix;
  M_tile : nat -> ereal
}.

(** The state before the first key tile. *)
Definition fwd_init : fwd_state :=
  {| acc := fun _ _ => 0; l_i := fun _ => 1; m_i := fun _ => NegInf |}.

(** [tl.arange(0, n)] as the map from an index to its entry. *)
Definition arange : nat -> nat := fun n => n.

(** [offs_m = start_m * BLOCK_M + tl.arange(0, BLOCK_M)]. *)
Definition fwd_offs_m (start_m BLOCK_M : nat) : nat -> nat :=
  fun r => (start_m * BLOCK_M + arange r)%nat.

(** The query tile: rows [start_m * BLOCK_M ..] of [Q]. *)
Definition q_tile (Q : matrix) (start_m BLOCK_M : nat) : matrix :=
  fun r d => Q (start_m * BLOCK_M + r)%nat d.

(** The two stage calls of [_attn_fwd_compute] ([STAGE & 1], [STAGE & 2]). *)
Definition fwd_loops (LOG2E : R) (Q K V : matrix) (sm_scale : R)
    (start_m N_CTX BLOCK_M BLOCK_N HEAD_DIM STAGE : nat) : fwd_state :=
  let offs_m := fwd_offs_m start_m BLOCK_M in
  let offs_n := arange in
  let qk_scale := sm_scale * LOG2E in
  let q := q_tile Q start_m BLOCK_M in
  let st1 :=
    if (Nat.land STAGE 1 =? 0)%nat then fwd_init
    else _attn_fwd_inner fwd_init q K V start_m qk_scale BLOCK_M HEAD_DIM BLOCK_N
                         (4 - STAGE) offs_m offs_n N_CTX in
  if (Nat.land STAGE 2 =? 0)%nat then st1
  else _attn_fwd_inner st1 q K V start_m qk_scale BLOCK_M HEAD_DIM BLOCK_N
                       2 offs_m offs_n N_CTX.

(** The epilogue of [_attn_fwd_compute]. *)
Definition fwd_epilogue (st : fwd_state) : fwd_out :=
  {| Out_tile := fun r d => acc st r d / l_i st r;
     M_tile := fun r => eadd (m_i st r) (log2 (l_i st r)) |}.

(** [_attn_fwd_compute] for the program with index [start_m].  [LOG2E]
    is the constant the softmax scale is multiplied by. *)
Definition _attn_fwd_compute (LOG2E : R) (Q K V : matrix) (sm_scale : R)
    (start_m N_CTX BLOCK_M BLOCK_N HEAD_DIM STAGE : nat) : fwd_out :=
  fwd_epilogue
    (fwd_loops LOG2E Q K V sm_scale start_m N_CTX BLOCK_M BLOCK_N HEAD_DIM STAGE).

(** The [STAGE] constant [forward] passes: [3 if causal else 1]. *)
Definition stage_of_causal (causal : bool) : nat := if causal then 3%nat else 1%nat.


(* ================================================================= *)
(** ** Backward kernels: [_attn_bwd_preprocess] and [_attn_bwd_dkdv] *)

(** [tl.store(ptr + offs, val)] into a vector, for [n] offsets. *)
Definition store_vec (mem : nat -> R) (offs : nat -> nat) (val : nat -> R) (n : nat)
    : nat -> R :=
  fold_left (fun m r => fun i => if (i =? offs r)%nat then val r else m i) (seq 0 n) mem.

(** [_attn_bwd_preprocess] for the program with index [pid] of one
    batch-head: the new contents of [Delta]. *)
Definition _attn_bwd_preprocess (O DO : matrix) (Delta : nat -> R)
    (pid BLOCK_M HEAD_DIM : nat) : nat -> R :=
  let off_m : nat -> nat := fun r => (pid * BLOCK_M + arange r)%nat in
  let o : matrix := fun r n => O (off_m r) n in
  let do : matrix := fun r n => DO (off_m r) n in
  let delta : nat -> R := fun r => rsum (fun n => o r n * do r n) HEAD_DIM in
  store_vec Delta off_m delta BLOCK_M.

(** The launch [_attn_bwd_preprocess[pre_grid]] over one batch-head:
    programs [0 .. N_CTX // PRE_BLOCK - 1]; their stores are disjoint. *)
Definition preprocess_grid (O DO : matrix) (Delta : nat -> R)
    (N_CTX PRE_BLOCK HEAD_DIM : nat) : nat -> R :=
  fold_left (fun D pid => _attn_bwd_preprocess O DO D pid PRE_BLOCK HEAD_DIM)
            (seq 0 (N_CTX / PRE_BLOCK)) Delta.

(** The loop-carried values of [_attn_bwd_dkdv]; [curr_m] also stands
    for the pointers [qT_ptrs] and [do_ptrs], which advance with it. *)
Record dkdv_state : Type := mk_dkdv_state {
  dk : matrix;
  dv : matrix;
  curr_m : nat
}.

(** One iteration of the loop of [_attn_bwd_dkdv].  [k] and [v] are the
    key and value tiles of the program, [M] the saved row statistics,
    [D] the precomputed [Delta]. *)
Definition bwd_dkdv_body (Q k v DO : matrix) (M D : nat -> R)
    (BLOCK_M1 HEAD_DIM start_n : nat) (MASK : bool) (st : dkdv_state) : dkdv_state :=
  let qT : matrix := fun c r => Q (curr_m st + r)%nat c in
  let offs_m : nat -> nat := fun r => (curr_m st + arange r)%nat in
  let offs_n : nat -> nat := fun n => (start_n + arange n)%nat in
  let m : nat -> R := fun r => M (offs_m r) in
  let qkT : matrix := fun n r => rsum (fun c => k n c * qT c r) HEAD_DIM in
  let pT0 : matrix := fun n r => exp2 (qkT n r - m r) in
  let pT : matrix := fun n r =>
    if MASK then (if (offs_n n <=? offs_m r)%nat then pT0 n r else 0) else pT0 n r in
  let do : matrix := fun r c => DO (curr_m st + r)%nat c in
  let Di : nat -> R := fun r => D (offs_m r) in
  let dpT : matrix := fun n r => rsum (fun c => v n c * do r c) HEAD_DIM in
  let dsT : matrix := fun n r => pT n r * (dpT n r - Di r) in
  {| dv := fun n c => dv st n c + rsum (fun r => pT n r * do r c) BLOCK_M1;
     dk := fun n c => dk st n c + rsum (fun r => dsT n r * qT c r) BLOCK_M1;
     curr_m := (curr_m st + BLOCK_M1)%nat |}.

(** [_attn_bwd_dkdv]: [num_steps] iterations from [start_m]. *)
Definition _attn_bwd_dkdv (dk0 dv0 Q k v DO : matrix) (M D : nat -> R)
    (BLOCK_M1 HEAD_DIM start_n start_m num_steps : nat) (MASK : bool)
    : matrix * matrix :=
  let st := Nat.iter num_steps
              (bwd_dkdv_body Q k v DO M D BLOCK_M1 HEAD_DIM start_n MASK)
              {| dk := dk0; dv := dv0; curr_m := start_m |} in
  (dk st, dv st).

(* ================================================================= *)
(** ** Candidate configurations and the filter [keep] *)

(** A [triton.Config]: the kernel meta-parameters of [kwargs] and the
    launch options.  The warp-specialisation options are present only
    when the pool was built with [has_warp_spec]. *)
Record Config : Type := mk_Config {
  BLOCK_M : nat;
  BLOCK_N : nat;
  ENABLE_TMA : bool;
  LOOP_SCHEDULE : string;
  num_stages : nat;
  num_warps : nat;
  num_buffers_warp_spec : option nat;
  num_consumer_groups : option nat;
  reg_dec_producer : option nat;
  reg_inc_consumer : option nat
}.

(** What the module reads when it is imported: whether [tl] has
    [async_task], and whether [ENABLE_COMPPIPE] and [PEEL_LAST_ITER] are
    set to a non-empty string. *)
Record build_env : Type := mk_build_env {
  has_warp_spec : bool;
  WITH_COMPPIPE : bool;
  PEEL_LAST : bool
}.

Definition schedList (env : build_env) : list string :=
  if PEEL_LAST env then ["FA_secondDot"%string]
  else if WITH_COMPPIPE env
       then ["default"%string; "FA_firstDot"%string; "FA_secondDot"%string]
       else ["default"%string].

Definition is_FA (sched : string) : bool :=
  String.eqb sched "FA_firstDot" || String.eqb sched "FA_secondDot".

(** The option as passed when [has_warp_spec], absent otherwise. *)
Definition ws_opt (env : build_env) (x : nat) : option nat :=
  if has_warp_spec env then Some x else None.

Definition configsOpt (env : build_env) : list Config :=
  flat_map (fun BM => flat_map (fun BN => flat_map (fun sched =>
  flat_map (fun enable_tma => map (fun w =>
    mk_Config BM BN enable_tma sched (if is_FA sched then 4 else 3)%nat w
              (ws_opt env 0) (ws_opt env 0) None None)
  [8%nat]) [false]) (schedList env)) [128%nat]) [128%nat].

Definition configsTma (env : build_env) : list Config :=
  flat_map (fun BM => flat_map (fun BN => flat_map (fun sched =>
  flat_map (fun enable_tma => map (fun w =>
    mk_Config BM BN enable_tma sched (if is_FA sched then 4 else 3)%nat w
              (ws_opt env 0) (ws_opt env 0) None None)
  [8%nat]) [true]) (schedList env)) [128%nat]) [128%nat].

Definition configsWS (env : build_env) : list Config :=
  flat_map (fun BM => flat_map (fun BN => flat_map (fun sched =>
  flat_map (fun w => flat_map (fun buf => flat_map (fun grp => map (fun di : nat * nat =>
    mk_Config BM BN false sched (if is_FA sched then 2 else 0)%nat w
              (ws_opt env buf) (ws_opt env grp) (ws_opt env (fst di)) (ws_opt env (snd di)))
  [(24, 240); (40, 232)]%nat) [2%nat]) [2%nat]) [4%nat]) (schedList env)) [128%nat]) [128%nat].

Definition configsOrig (env : build_env) : list Config :=
  flat_map (fun BM => flat_map (fun BN => flat_map (fun s => map (fun w =>
    mk_Config BM BN false "default" s w (ws_opt env 0) (ws_opt env 0) None None)
  [4; 8]%nat) [3; 4; 7]%nat) [64; 128]%nat) [64; 128]%nat.

Definition configsTmaWS (env : build_env) : list Config :=
  flat_map (fun BM => flat_map (fun BN => flat_map (fun sched =>
  flat_map (fun enable_tma => flat_map (fun w => flat_map (fun buf =>
  flat_map (fun grp => map (fun di : nat * nat =>
    mk_Config BM BN enable_tma sched (if is_FA sched then 2 else 0)%nat w
              (ws_opt env buf) (ws_opt env grp) (ws_opt env (fst di)) (ws_opt env (snd di)))
  [(24, 240)]%nat) [2%nat]) [2%nat]) [4%nat]) [true]) (schedList env)) [128%nat]) [128%nat].

(** [keep]. *)
Definition keep (conf : Config) : bool :=
  if ((BLOCK_M conf * BLOCK_N conf <? 128 * 128) && (num_warps conf =? 8))%nat
  then false else true.

(** The pools handed to [triton.autotune]: [list(filter(keep, ...))]. *)
Definition pool_attn_fwd (env : build_env) : list Config := filter keep (configsOrig env).
Definition pool_attn_fwd_ws (env : build_env) : list Config := filter keep (configsWS env).
Definition pool_attn_fwd_opt (env : build_env) : list Config := filter keep (configsOpt env).
Definition pool_attn_fwd_tma (env : build_env) : list Config := filter keep (configsTma env).
Definition pool_attn_fwd_tma_ws (env : build_env) : list Config :=
  filter keep (configsTmaWS env).

(** The result of instantiating a kernel for a configuration:
    [tl.static_assert] stops the compilation, otherwise the body runs. *)
Inductive kernel_result (A : Type) : Type :=
| Ran (a : A)
| CompileTimeAssertionFailure.
Arguments Ran {A} a.
Arguments CompileTimeAssertionFailure {A}.

(** [_attn_fwd_inner_ws] and [_attn_fwd_compute_ws] are the statements
    of [_attn_fwd_inner] and [_attn_fwd_compute] grouped into
    [tl.async_task] blocks (loads in task 0, arithmetic in tasks 1 and
    2); the grouping assigns warps and does not change what is
    computed. *)
Definition _attn_fwd_inner_ws := _attn_fwd_inner.
Definition _attn_fwd_compute_ws := _attn_fwd_compute.

(** A forward entry point: [tl.static_assert(BLOCK_N <= HEAD_DIM)], then
    the call of its compute function with the tile sizes of the
    configuration. *)
Definition fwd_entry
    (compute : R -> matrix -> matrix -> matrix -> R ->
               nat -> nat -> nat -> nat -> nat -> nat -> fwd_out)
    (conf : Config) (LOG2E : R) (Q K V : matrix) (sm_scale : R)
    (start_m N_CTX HEAD_DIM STAGE : nat) : kernel_result fwd_out :=
  if (BLOCK_N conf <=? HEAD_DIM)%nat
  then Ran (compute LOG2E Q K V sm_scale start_m N_CTX
                    (BLOCK_M conf) (BLOCK_N conf) HEAD_DIM STAGE)
  else CompileTimeAssertionFailure.

Definition _attn_fwd := fwd_entry _attn_fwd_compute.
Definition _attn_fwd_ws := fwd_entry _attn_fwd_compute_ws.
Definition _attn_fwd_opt := fwd_entry _attn_fwd_compute.
Definition _attn_fwd_tma := fwd_entry _attn_fwd_compute.
Definition _attn_fwd_tma_ws := fwd_entry _attn_fwd_compute_ws.

(* ================================================================= *)
(** ** The entry point [_attention_opt.forward] *)

(** The head dimensions [forward] accepts. *)
Definition supported_head_dims : list nat := [16; 32; 64; 128; 256]%nat.

Inductive dtype : Type := float16 | bfloat16 | float32 | float8_e5m2.

Definition dtype_eqb (a b : dtype) : bool :=
  match a, b with
  | float16, float16 | bfloat16, bfloat16 | float32, float32
  | float8_e5m2, float8_e5m2 => true
  | _, _ => false
  end.

(** What [forward] reads of a 4-dimensional tensor: its shape and its
    element type. *)
Record tensor : Type := mk_tensor {
  shape0 : nat;
  shape1 : nat;
  shape2 : nat;
  shape3 : nat;
  t_dtype : dtype
}.

(** The jitted entry points [forward] can launch. *)
Inductive kernel : Type :=
| k_attn_fwd | k_attn_fwd_ws | k_attn_fwd_opt | k_attn_fwd_tma | k_attn_fwd_tma_ws.

(** One launch [kernel[grid_tma](q, k, v, sm_scale, M, o, ...)] with the
    keyword arguments [forward] passes. *)
Record launch : Type := mk_launch {
  l_kernel : kernel;
  l_sm_scale : R;
  l_N_CTX : nat;
  l_HEAD_DIM : nat;
  l_STAGE : nat;
  l_ENABLE_WS : bool
}.

(** The contents of a tensor made by [torch.empty_like] / [torch.empty]:
    whatever the allocator left there, until a kernel writes it. *)
Inductive contents : Type :=
| Uninitialized
| WrittenBy (l : launch).

Inductive exn : Type := AssertionError | LaunchError.

Inductive result : Type :=
| Raised (e : exn)
| Returned (o M : contents).

(** What a call of [forward] does: the launches it attempts, in order,
    and how it ends ([M] is the tensor saved for the backward pass). *)
Record outcome : Type := mk_outcome {
  attempted : list launch;
  res : result
}.

(** The strings the dispatch chain compares [baseVariant] with. *)
Definition recognized_variants : list string :=
  ["base"; "ws"; "opt"; "tma"; "tma_ws"]%string.

(** The [if baseVariant == ... elif ...] chain (there is no [else]). *)
Definition dispatch (baseVariant : string) : option (kernel * bool) :=
  if String.eqb baseVariant "base" then Some (k_attn_fwd, false)
  else if String.eqb baseVariant "ws" then Some (k_attn_fwd_ws, true)
  else if String.eqb baseVariant "opt" then Some (k_attn_fwd_opt, false)
  else if String.eqb baseVariant "tma" then Some (k_attn_fwd_tma, false)
  else if String.eqb baseVariant "tma_ws" then Some (k_attn_fwd_tma_ws, true)
  else None.

Definition HEAD_DIM_Q (q : tensor) : nat := shape3 q.
Definition HEAD_DIM_K (k : tensor) : nat := shape3 k.
Definition HEAD_DIM_V (v : tensor) : nat :=
  if dtype_eqb (t_dtype v) float8_e5m2 then shape2 v else shape3 v.

(** [forward(ctx, q, k, v, causal, sm_scale, baseVariant)].  [launch_ok]
    tells whether a launch returns (it raises otherwise: the autotuner,
    the compiler and the driver are outside this file). *)
Definition forward (launch_ok : launch -> bool) (q k v : tensor) (causal : bool)
    (sm_scale : R) (baseVariant : string) : outcome :=
  if negb ((HEAD_DIM_Q q =? HEAD_DIM_K k)%nat && (HEAD_DIM_K k =? HEAD_DIM_V v)%nat)
  then mk_outcome [] (Raised AssertionError)
  else if negb (existsb (Nat.eqb (HEAD_DIM_K k)) supported_head_dims)
  then mk_outcome [] (Raised AssertionError)
  else
    let stage := stage_of_causal causal in
    match dispatch baseVariant with
    | Some (kern, ws) =>
        let l := mk_launch kern sm_scale (shape2 q) (HEAD_DIM_K k) stage ws in
        mk_outcome [l] (if launch_ok l then Returned (WrittenBy l) (WrittenBy l)
                        else Raised LaunchError)
    | None => mk_outcome [] (Returned Uninitialized Uninitialized)
    end.

(* ================================================================= *)
(** ** Backward kernels: [_attn_bwd_dq], [_attn_bwd] and [backward] *)

(** The loop-carried values of [_attn_bwd_dq]; [curr_n] also stands for
    the pointers [kT_ptrs] and [vT_ptrs], which advance with it. *)
Record dq_state : Type := mk_dq_state {
  dq : matrix;
  curr_n : nat
}.

(** One iteration of the loop of [_attn_bwd_dq].  [q], [do] and [m] are
    the query, output-gradient and row-statistic tiles of the program
    (rows [start_m ..]); [K] and [V] are read through pointers. *)
Definition bwd_dq_body (q K V do : matrix) (m D : nat -> R)
    (BLOCK_N2 HEAD_DIM start_m : nat) (MASK : bool) (st : dq_state) : dq_state :=
  let offs_m : nat -> nat := fun r => (start_m + arange r)%nat in
  let Di : nat -> R := fun r => D (offs_m r) in
  let kT : matrix := fun c n => K (curr_n st + n)%nat c in
  let vT : matrix := fun c n => V (curr_n st + n)%nat c in
  let qk : matrix := fun r n => rsum (fun c => q r c * kT c n) HEAD_DIM in
  let p0 : matrix := fun r n => exp2 (qk r n - m r) in
  let offs_n : nat -> nat := fun n => (curr_n st + arange n)%nat in
  let p : matrix := fun r n =>
    if MASK then (if (offs_n n <=? offs_m r)%nat then p0 r n else 0) else p0 r n in
  let dp : matrix := fun r n => rsum (fun c => do r c * vT c n) HEAD_DIM in
  let ds : matrix := fun r n => p r n * (dp r n - Di r) in
  {| dq := fun r c => dq st r c + rsum (fun n => ds r n * kT c n) BLOCK_N2;
     curr_n := (curr_n st + BLOCK_N2)%nat |}.

(** [_attn_bwd_dq]: [num_steps] iterations from key offset [start_n]. *)
Definition _attn_bwd_dq (dq0 q K V do : matrix) (m D : nat -> R)
    (BLOCK_N2 HEAD_DIM start_m start_n num_steps : nat) (MASK : bool) : matrix :=
  dq (Nat.iter num_steps
        (bwd_dq_body q K V do m D BLOCK_N2 HEAD_DIM start_m MASK)
        {| dq := dq0; curr_n := start_n |}).

(** [tl.store] of a tile of [n] rows and [HEAD_DIM] columns at the rows
    [offs]. *)
Definition store_tile (mem : matrix) (offs : nat -> nat) (tile : matrix)
    (n HEAD_DIM : nat) : matrix :=
  fun i c =>
    if (c <? HEAD_DIM)%nat
    then store_vec (fun i' => mem i' c) offs (fun r => tile r c) n i
    else mem i c.

(** The gradient tensors of one batch-head. *)
Record grads : Type := mk_grads {
  DQ : matrix;
  DK : matrix;
  DV : matrix
}.

(** [_attn_bwd] for the program with index [pid] of one batch-head.
    [K] is the key tensor as passed (the caller prescales it); [LN2] is
    the constant the kernel multiplies [dq] by. *)
Definition _attn_bwd (LN2 : R) (Q K V : matrix) (sm_scale : R) (DO : matrix)
    (g : grads) (M D : nat -> R)
    (N_CTX BLOCK_M1 BLOCK_N1 BLOCK_M2 BLOCK_N2 BLK_SLICE_FACTOR HEAD_DIM pid : nat)
    : grads :=
  let start_n := (pid * BLOCK_N1)%nat in
  let start_m := start_n in
  let MASK_BLOCK_M1 := (BLOCK_M1 / BLK_SLICE_FACTOR)%nat in
  let offs_n : nat -> nat := fun n => (start_n + arange n)%nat in
  let dv0 : matrix := fun _ _ => 0 in
  let dk0 : matrix := fun _ _ => 0 in
  let k : matrix := fun n c => K (offs_n n) c in
  let v : matrix := fun n c => V (offs_n n) c in
  let num_steps := (BLOCK_N1 / MASK_BLOCK_M1)%nat in
  let '(dk1, dv1) :=
    _attn_bwd_dkdv dk0 dv0 Q k v DO M D MASK_BLOCK_M1 HEAD_DIM
                   start_n start_m num_steps true in
  let start_m' := (start_m + num_steps * MASK_BLOCK_M1)%nat in
  let num_steps' := ((N_CTX - start_m') / BLOCK_M1)%nat in
  let '(dk2, dv2) :=
    _attn_bwd_dkdv dk1 dv1 Q k v DO M D BLOCK_M1 HEAD_DIM
                   start_n start_m' num_steps' false in
  let DV' := store_tile (DV g) offs_n dv2 BLOCK_N1 HEAD_DIM in
  let dk3 : matrix := fun n c => dk2 n c * sm_scale in
  let DK' := store_tile (DK g) offs_n dk3 BLOCK_N1 HEAD_DIM in
  let start_mq := (pid * BLOCK_M2)%nat in
  let end_n := (start_mq + BLOCK_M2)%nat in
  let MASK_BLOCK_N2 := (BLOCK_N2 / BLK_SLICE_FACTOR)%nat in
  let offs_m : nat -> nat := fun r => (start_mq + arange r)%nat in
  let q : matrix := fun r c => Q (offs_m r) c in
  let dq0 : matrix := fun _ _ => 0 in
  let do : matrix := fun r c => DO (offs_m r) c in
  let m : nat -> R := fun r => M (offs_m r) in
  let num_stepsq := (BLOCK_M2 / MASK_BLOCK_N2)%nat in
  let dq1 :=
    _attn_bwd_dq dq0 q K V do m D MASK_BLOCK_N2 HEAD_DIM start_mq
                 (end_n - num_stepsq * MASK_BLOCK_N2) num_stepsq true in
  let end_n' := (end_n - num_stepsq * MASK_BLOCK_N2)%nat in
  let num_stepsq' := (end_n' / BLOCK_N2)%nat in
  let dq2 :=
    _attn_bwd_dq dq1 q K V do m D BLOCK_N2 HEAD_DIM start_mq
                 (end_n' - num_stepsq' * BLOCK_N2) num_stepsq' false in
  let dq3 : matrix := fun r c => dq2 r c * LN2 in
  let DQ' := store_tile (DQ g) offs_m dq3 BLOCK_M2 HEAD_DIM in
  {| DQ := DQ'; DK := DK'; DV := DV' |}.

(** The constants of [backward] and of [_attn_bwd]. *)
Definition PRE_BLOCK : nat := 128.
Definition bwd_BLOCK_M1 : nat := 32.
Definition bwd_BLOCK_N1 : nat := 128.
Definition bwd_BLOCK_M2 : nat := 128.
Definition bwd_BLOCK_N2 : nat := 32.
Definition bwd_BLK_SLICE_FACTOR : nat := 2.
Definition RCP_LN2_literal : R := 14426950408889634 / 10000000000000000.
Definition LN2_literal : R := 6931471824645996 / 10000000000000000.

(** What [forward] stored in [ctx]. *)
Record bwd_ctx : Type := mk_bwd_ctx {
  ctx_sm_scale : R;
  ctx_HEAD_DIM : nat;
  ctx_causal : bool
}.

(** The launch [_attn_bwd[grid]] over one batch-head: programs
    [0 .. N_CTX // BLOCK_N1 - 1].  A program reads the inputs only and
    stores into its own tiles of [DQ], [DK] and [DV], so the order the
    programs are folded in does not show in the result. *)
Definition bwd_grid (LN2 : R) (Q K V : matrix) (sm_scale : R) (DO : matrix)
    (g : grads) (M D : nat -> R) (N_CTX HEAD_DIM : nat) : grads :=
  fold_left
    (fun g' pid =>
       _attn_bwd LN2 Q K V sm_scale DO g' M D N_CTX bwd_BLOCK_M1 bwd_BLOCK_N1
                 bwd_BLOCK_M2 bwd_BLOCK_N2 bwd_BLK_SLICE_FACTOR HEAD_DIM pid)
    (seq 0 (N_CTX / bwd_BLOCK_N1)) g.

(** How a call of [backward] ends: the gradients [dq, dk, dv] it
    returns, or the exception it raises. *)
Inductive bwd_result : Type :=
| BwdRaised (e : exn)
| BwdReturned (g : grads).

(** [backward(ctx, do)] on one batch-head.  [do_contiguous] and
    [same_strides] are the truth values of [do.is_contiguous()] and of
    the comparison of the five strides; [g0] and [delta0] are the
    tensors [torch.empty_like] returns.  [RCP_LN2] is the constant [k]
    is prescaled with, [LN2] the one [_attn_bwd] multiplies [dq] by.
    The field [ctx_causal] is not read. *)
Definition backward (RCP_LN2 LN2 : R) (ctx : bwd_ctx) (Q K V O DO : matrix)
    (M : nat -> R) (N_CTX : nat) (do_contiguous same_strides : bool)
    (g0 : grads) (delta0 : nat -> R) : bwd_result :=
  if negb do_contiguous then BwdRaised AssertionError
  else if negb same_strides then BwdRaised AssertionError
  else
    let arg_k : matrix := fun j c => K j c * (ctx_sm_scale ctx * RCP_LN2) in
    if negb (N_CTX mod PRE_BLOCK =? 0)%nat then BwdRaised AssertionError
    else
      let delta := preprocess_grid O DO delta0 N_CTX PRE_BLOCK (ctx_HEAD_DIM ctx) in
      BwdReturned (bwd_grid LN2 Q arg_k V (ctx_sm_scale ctx) DO g0 M delta N_CTX
                            (ctx_HEAD_DIM ctx)).

(* ================================================================= *)
(** ** The forward launch: [grid_tma] and the store of [M] *)

(** The grid [grid_tma(META)] returns, in both of its branches:
    [(triton.cdiv(q.shape[2], BLOCK_M), q.shape[0] * q.shape[1], 1)]. *)
Definition grid_tma (q : tensor) (conf : Config) : nat * nat * nat :=
  (cdiv (shape2 q) (BLOCK_M conf), (shape0 q * shape1 q)%nat, 1%nat).

(** The programs of a launch: [start_m = program_id(0)] and
    [off_hz = program_id(1)], one for each point of the grid. *)
Definition fwd_programs (grid : nat * nat * nat) : list (nat * nat) :=
  let '(g0, g1, _) := grid in
  list_prod (seq 0 g0) (seq 0 g1).

(** [m_ptrs = M + off_hz * N_CTX + offs_m]: the offset into [M] that row
    [r] of the program's tile is stored at. *)
Definition fwd_m_ptrs (off_hz N_CTX start_m BLOCK_M : nat) : nat -> nat :=
  fun r => (off_hz * N_CTX + fwd_offs_m start_m BLOCK_M r)%nat.

(** The offsets [tl.store(m_ptrs, m_i)] writes: one for each of the
    [BLOCK_M] rows, as the store has no mask. *)
Definition fwd_m_stores (off_hz N_CTX start_m BLOCK_M : nat) : list nat :=
  map (fwd_m_ptrs off_hz N_CTX start_m BLOCK_M) (seq 0 BLOCK_M).

(* ================================================================= *)
(** ** The descriptor helper [TmaAutoTuneHelper] *)

Inductive device : Type := cpu | cuda.

(** What the driver's [fill_1d_tma_descriptor] / [fill_2d_tma_descriptor]
    is asked to encode into a descriptor. *)
Inductive tma_fill : Type :=
| Fill1d (ptr dim block_dim element_size : nat)
| Fill2d (ptr dim1 dim0 block_dim1 block_dim0 element_size : nat).

(** A descriptor tensor, [torch.empty(TMA_SIZE, device=..., dtype=torch.int8)]:
    where it lives, its size, its address, and what it was last filled
    with ([None]: what [torch.empty] left there). *)
Record descriptor : Type := mk_descriptor {
  d_device : device;
  d_numel : nat;
  d_data_ptr : nat;
  d_contents : option tma_fill
}.

Definition TMA_SIZE : nat := 128.

(** The helper's dictionary: [self.descriptors] when [HAS_TMA_DESC],
    [self.cuda_descriptors] otherwise (the other one does not exist). *)
Record TmaAutoTuneHelper : Type := mk_TmaAutoTuneHelper {
  descriptors : string -> option descriptor
}.

Inductive tma_exn : Type :=
| TmaKeyError (name : string)
| TmaAssertionError.

Inductive tma_result (A : Type) : Type :=
| TmaOk (a : A)
| TmaRaised (e : tma_exn).
Arguments TmaOk {A} a.
Arguments TmaRaised {A} e.

Definition tma_bind {A B : Type} (m : tma_result A) (f : A -> tma_result B)
    : tma_result B :=
  match m with
  | TmaOk a => f a
  | TmaRaised e => TmaRaised e
  end.

Notation "x <- m ;; f" := (tma_bind m (fun x => f))
  (at level 61, m at next level, right associativity).

(** [TmaAutoTuneHelper()]: an empty dictionary. *)
Definition TmaAutoTuneHelper_init : TmaAutoTuneHelper :=
  {| descriptors := fun _ => None |}.

(** [self.descriptors[name] = value]. *)
Definition set_descriptor (self : TmaAutoTuneHelper) (name : string) (d : descriptor)
    : TmaAutoTuneHelper :=
  {| descriptors := fun n => if String.eqb n name then Some d else descriptors self n |}.

(** [init_tma_descriptor(name)]; [data_ptr] is the address of the tensor
    [torch.empty] returns. *)
Definition init_tma_descriptor (HAS_TMA_DESC : bool) (data_ptr : nat)
    (self : TmaAutoTuneHelper) (name : string) : TmaAutoTuneHelper :=
  set_descriptor self name
    (mk_descriptor (if HAS_TMA_DESC then cpu else cuda) TMA_SIZE data_ptr None).

(** The body the two fill methods share: look the descriptor up, check
    its alignment when it is filled in place, and have the driver encode
    [what] into it (in place, or into a pinned buffer copied over it). *)
Definition fill_tma_descriptor (HAS_TMA_DESC : bool) (self : TmaAutoTuneHelper)
    (name : string) (what : tma_fill) : tma_result TmaAutoTuneHelper :=
  match descriptors self name with
  | None => TmaRaised (TmaKeyError name)
  | Some desc_x =>
      if HAS_TMA_DESC
      then if negb (d_data_ptr desc_x mod 64 =? 0)%nat
           then TmaRaised TmaAssertionError
           else TmaOk (set_descriptor self name
                         (mk_descriptor (d_device desc_x) (d_numel desc_x)
                                        (d_data_ptr desc_x) (Some what)))
      else TmaOk (set_descriptor self name
                    (mk_descriptor (d_device desc_x) (d_numel desc_x)
                                   (d_data_ptr desc_x) (Some what)))
  end.

Definition fill_1d_tma_descriptor (HAS_TMA_DESC : bool) (self : TmaAutoTuneHelper)
    (name : string) (ptr dim block_dim element_size : nat)
    : tma_result TmaAutoTuneHelper :=
  fill_tma_descriptor HAS_TMA_DESC self name (Fill1d ptr dim block_dim element_size).

Definition fill_2d_tma_descriptor (HAS_TMA_DESC : bool) (self : TmaAutoTuneHelper)
    (name : string) (ptr dim1 dim0 block_dim1 block_dim0 element_size : nat)
    : tma_result TmaAutoTuneHelper :=
  fill_tma_descriptor HAS_TMA_DESC self name
    (Fill2d ptr dim1 dim0 block_dim1 block_dim0 element_size).

(** What a kernel receives for a descriptor: the wrapper whose
    [tma_desc_cpu_ptr()] is the address of the host tensor, or the
    device tensor itself. *)
Inductive kernel_param : Type :=
| KernelParamWrapper (desc_data_ptr : nat)
| CudaDescriptor (desc_data_ptr : nat).

(** [get_tma_descriptor_kernel_param(name)]: the lookup raises for a
    missing name; the tensor it finds is never [None]. *)
Definition get_tma_descriptor_kernel_param (HAS_TMA_DESC : bool)
    (self : TmaAutoTuneHelper) (name : string) : tma_result kernel_param :=
  match descriptors self name with
  | None => TmaRaised (TmaKeyError name)
  | Some d =>
      TmaOk (if HAS_TMA_DESC then KernelParamWrapper (d_data_ptr d)
             else CudaDescriptor (d_data_ptr d))
  end.

(** [x.element_size()]. *)
Definition element_size (d : dtype) : nat :=
  match d with
  | float16 | bfloat16 => 2
  | float32 => 4
  | float8_e5m2 => 1
  end%nat.

(** The descriptor setup of [forward]: a new helper and the four calls
    of [init_tma_descriptor]; the addresses are those of the four
    tensors [torch.empty] returns. *)
Definition forward_desc_helper (HAS_TMA_DESC : bool) (pk pv pq po : nat)
    : TmaAutoTuneHelper :=
  let desc_helper := TmaAutoTuneHelper_init in
  let desc_helper := init_tma_descriptor HAS_TMA_DESC pk desc_helper "k" in
  let desc_helper := init_tma_descriptor HAS_TMA_DESC pv desc_helper "v" in
  let desc_helper := init_tma_descriptor HAS_TMA_DESC pq desc_helper "q" in
  init_tma_descriptor HAS_TMA_DESC po desc_helper "o".

(** What [grid_tma(META)] does to the helper before it returns the grid:
    nothing when [META["ENABLE_TMA"] == False], else the fills of the
    descriptors of [k], [v], [q] and [o].  [k_ptr], [v_ptr], [q_ptr],
    [o_ptr] are the [data_ptr()] of the tensors; [o] has the element type
    of [q]. *)
Definition grid_tma_fills (HAS_TMA_DESC : bool) (desc_helper : TmaAutoTuneHelper)
    (q k v : tensor) (k_ptr v_ptr q_ptr o_ptr : nat) (conf : Config) (ENABLE_WS : bool)
    : tma_result TmaAutoTuneHelper :=
  if negb (ENABLE_TMA conf) then TmaOk desc_helper
  else
    let BATCH := shape0 q in
    let H := shape1 q in
    let N_CTX := shape2 q in
    (h1 <- fill_2d_tma_descriptor HAS_TMA_DESC desc_helper "k" k_ptr
             (BATCH * H * N_CTX) (HEAD_DIM_Q q) (BLOCK_N conf) (HEAD_DIM_Q q)
             (element_size (t_dtype k)) ;;
     h2 <- (if dtype_eqb (t_dtype v) float8_e5m2
            then fill_2d_tma_descriptor HAS_TMA_DESC h1 "v" v_ptr
                   (BATCH * H * HEAD_DIM_Q q) N_CTX (HEAD_DIM_Q q) (BLOCK_N conf)
                   (element_size (t_dtype v))
            else fill_2d_tma_descriptor HAS_TMA_DESC h1 "v" v_ptr
                   (BATCH * H * N_CTX) (HEAD_DIM_Q q) (BLOCK_N conf) (HEAD_DIM_Q q)
                   (element_size (t_dtype v))) ;;
     h3 <- fill_2d_tma_descriptor HAS_TMA_DESC h2 "q" q_ptr
             (BATCH * H * N_CTX) (HEAD_DIM_Q q)
             (BLOCK_M conf / (if ENABLE_WS then 2 else 1)) (HEAD_DIM_Q q)
             (element_size (t_dtype q)) ;;
     fill_2d_tma_descriptor HAS_TMA_DESC h3 "o" o_ptr
       (BATCH * H * N_CTX) (HEAD_DIM_Q q)
       (BLOCK_M conf / (if ENABLE_WS then 2 else 1)) (HEAD_DIM_Q q)
       (element_size (t_dtype q)))%nat.

(* ================================================================= *)
(** ** The addmm benchmark operator ([operators/addmm/operator.py]) *)

(** A shape [(m, k, n)] of [self.shapes]: [mat1] is [m x k], [mat2] is
    [k x n]. *)
Definition addmm_shape : Type := (N * N * N)%type.

Definition BUILDIN_SHAPES : list addmm_shape :=
  [
   (20120, 1536, 512); (34579, 1536, 512); (34839, 1536, 512); (35561, 1536, 512);
   (35916, 1536, 512); (19735, 1536, 512); (34533, 1536, 512); (35791, 1536, 512);
   (35844, 1536, 512); (20116, 1536, 512); (33887, 1536, 512); (20203, 1536, 512);
   (33961, 1536, 512); (19747, 1536, 512); (34181, 1536, 512); (35541, 1536, 512);
   (36032, 1536, 512); (15168, 1536, 512); (35249, 1536, 512); (33894, 1536, 512);
   (20067, 1536, 512); (27456, 1536, 512); (19410, 1536, 512); (35884, 1536, 512);
   (35917, 1536, 512); (19632, 1536, 512); (35656, 1536, 512); (35405, 1536, 512);
   (35503, 1536, 512); (35504, 1536, 512); (35605, 1536, 512); (34238, 1536, 512);
   (33660, 1536, 512); (35410, 1536, 512); (20211, 1536, 512); (34308, 1536, 512);
   (34516, 1536, 512); (20224, 1536, 512); (35678, 1536, 512); (35380, 1536, 512);
   (35901, 1536, 512); (20068, 1536, 512)
  ]%N.

(** [itertools.product(a, b, c)]. *)
Definition product3 (a b c : list N) : list addmm_shape :=
  flat_map (fun x => flat_map (fun y => map (fun z => (x, y, z)) c) b) a.

(** [product([13], [2**i for i in range(6, 26)], [2])]. *)
Definition LARGE_K_SHAPES : list addmm_shape :=
  product3 [13%N] (map (fun i => (2 ^ N.of_nat i)%N) (seq 6 20)) [2%N].

(** What [__init__] reads of the parsed arguments; [None] is an option
    that was not given. *)
Record addmm_args : Type := mk_addmm_args {
  args_m : option N;
  args_n : option N;
  args_k : option N;
  args_large_k_shapes : bool;
  args_col_major : bool
}.

(** The truth value of an optional integer in a condition. *)
Definition truthy (x : option N) : bool :=
  match x with
  | Some v => negb (v =? 0)%N
  | None => false
  end.

(** The attributes of the operator that the methods below read.
    [strides] and [dtypes] are [None] when the attribute does not exist
    ([hasattr] is false); an entry of [dtypes] is the element type
    [PRECISION_DTYPE_MAPPING] holds for the name, [None] when the name
    is not a key of the mapping. *)
Record Operator : Type := mk_Operator {
  shapes : list addmm_shape;
  col_major : bool;
  strides : option (list (list (list N)));
  dtypes : option (list (option dtype))
}.

(** The value of an optional integer that was given. *)
Definition int_value (x : option N) : N :=
  match x with
  | Some v => v
  | None => 0%N
  end.

(** [Operator.__init__]: the choice of the shapes.  It sets neither
    [strides] nor [dtypes]. *)
Definition Operator_init (addmm_args : addmm_args) : Operator :=
  {| shapes :=
       if truthy (args_m addmm_args) && truthy (args_n addmm_args)
          && truthy (args_k addmm_args)
       then [(int_value (args_m addmm_args), int_value (args_k addmm_args),
              int_value (args_n addmm_args))]
       else if args_large_k_shapes addmm_args then LARGE_K_SHAPES
            else BUILDIN_SHAPES;
     col_major := args_col_major addmm_args;
     strides := None;
     dtypes := None |}.

(** How an input tensor was laid out: as [torch.randn] returns it, as
    [mat2.T.contiguous().T], or by [as_strided] with the given strides. *)
Inductive layout : Type :=
| Contiguous
| TransposedCopy
| AsStrided (stride : list N).

(** An input tensor: its size, the size [torch.randn] was called with
    (which fixes the storage behind it), its layout and its element
    type ([None]: the [self.dtype] the operator was constructed with). *)
Record addmm_tensor : Type := mk_addmm_tensor {
  at_size : N * N;
  at_alloc : N * N;
  at_layout : layout;
  at_dtype : option dtype
}.

Definition addmm_inputs : Type := (addmm_tensor * addmm_tensor * addmm_tensor)%type.

Inductive addmm_exn : Type :=
| AddmmIndexError
| AddmmKeyError
| AddmmAssertionError
| AddmmRuntimeError.

(** [torch.randn(size, device=self.device, dtype=self.dtype)]. *)
Definition randn (size : N * N) (dt : option dtype) : addmm_tensor :=
  mk_addmm_tensor size size Contiguous dt.

(** The number of elements [torch.randn] allocated behind a tensor. *)
Definition alloc_numel (t : addmm_tensor) : N := (fst (at_alloc t) * snd (at_alloc t))%N.

(** The number of storage elements a view of the given size and strides
    addresses: one more than its largest offset, none when it is empty. *)
Definition view_extent (size : N * N) (stride : list N) : N :=
  let '(r, c) := size in
  if ((r =? 0) || (c =? 0))%N then 0%N
  else ((r - 1) * nth 0 stride 0 + (c - 1) * nth 1 stride 0 + 1)%N.

(** [t.as_strided(size, stride)]: a view of the storage of [t], refused
    with a [RuntimeError] when it would address elements past it. *)
Definition as_strided (t : addmm_tensor) (size : N * N) (stride : list N)
    : addmm_exn + addmm_tensor :=
  if (view_extent size stride <=? alloc_numel t)%N
  then inr (mk_addmm_tensor size (at_alloc t) (AsStrided stride) (at_dtype t))
  else inl AddmmRuntimeError.

(** The [dtypes] branch at the head of the loop body: when the attribute
    exists and is not empty, [self.dtype] becomes the element type of
    [self.dtypes[shape_id]] (and [tb_args.precision] becomes ["bypass"],
    which nothing below reads); [dt] is [self.dtype] before. *)
Definition select_dtype (self : Operator) (shape_id : nat) (dt : option dtype)
    : addmm_exn + option dtype :=
  match dtypes self with
  | Some (d :: ds) =>
      match nth_error (d :: ds) shape_id with
      | None => inl AddmmIndexError
      | Some None => inl AddmmKeyError
      | Some (Some d') => inr (Some d')
      end
  | _ => inr dt
  end.

(** One iteration of the loop of [get_input_iter] for
    [shape = self.shapes[shape_id]]: the new [self.dtype] and the inputs
    it yields, or the exception it raises. *)
Definition input_of_shape (self : Operator) (dt : option dtype) (shape_id : nat)
    (shape : addmm_shape) : addmm_exn + (option dtype * addmm_inputs) :=
  match select_dtype self shape_id dt with
  | inl e => inl e
  | inr dt' =>
      match strides self with
      | Some all_strides =>
          match nth_error all_strides shape_id with
          | None => inl AddmmIndexError
          | Some [s0; s1; s2] =>
              match s0, s1, s2 with
              | [_; _], [s10; s11], [s20; s21] =>
                  let '(m, k, n) := shape in
                  let original_m := N.max m s11 in
                  let original_k := N.max (N.max k s10) s21 in
                  let original_n := N.max n s20 in
                  let a := randn (m, n) dt' in
                  let mat1 := randn (original_m, original_k) dt' in
                  let mat2 := randn (original_k, original_n) dt' in
                  match as_strided a (m, n) s0 with
                  | inl e => inl e
                  | inr a' =>
                      match as_strided mat1 (m, k) s1 with
                      | inl e => inl e
                      | inr mat1' =>
                          match as_strided mat2 (k, n) s2 with
                          | inl e => inl e
                          | inr mat2' => inr (dt', (a', mat1', mat2'))
                          end
                      end
                  end
              | _, _, _ => inl AddmmAssertionError
              end
          | Some _ => inl AddmmAssertionError
          end
      | None =>
          let '(m, k, n) := shape in
          let a := randn (m, n) dt' in
          let mat1 := randn (m, k) dt' in
          let mat2 := randn (k, n) dt' in
          inr (dt', (a, mat1,
                     if col_major self
                     then mk_addmm_tensor (k, n) (k, n) TransposedCopy dt'
                     else mat2))
      end
  end.

(** The generator from position [shape_id] on: what it yields, and the
    exception that ends it, if any. *)
Fixpoint input_iter_from (self : Operator) (dt : option dtype) (shape_id : nat)
    (todo : list addmm_shape) : list addmm_inputs * option addmm_exn :=
  match todo with
  | [] => ([], None)
  | shape :: rest =>
      match input_of_shape self dt shape_id shape with
      | inl e => ([], Some e)
      | inr (dt', x) =>
          let '(xs, e) := input_iter_from self dt' (S shape_id) rest in
          (x :: xs, e)
      end
  end.

(** [get_input_iter]: [for shape_id, shape in enumerate(self.shapes)]. *)
Definition get_input_iter (self : Operator) : list addmm_inputs * option addmm_exn :=
  input_iter_from self None 0 (shapes self).

(** The metric [flops]. *)
Definition flops (example_inputs : addmm_inputs) : N :=
  let '(_, mat1, mat2) := example_inputs in
  let '(m, k) := at_size mat1 in
  let '(k, n) := at_size mat2 in
  (2 * m * k * n + m * n)%N.

(** [get_x_val]: the label [(M, N, K)]. *)
Definition get_x_val (example_inputs : addmm_inputs) : N * N * N :=
  let '(a, mat1, mat2) := example_inputs in
  let '(m, k) := at_size mat1 in
  let '(k, n) := at_size mat2 in
  (m, n, k).

(* ================================================================= *)
(** ** Notions the properties are stated with *)

(** Keys of the tile loaded at key offset [start_n]. *)
Definition tile_keys (BLOCK_N start_n : nat) : list nat := seq start_n BLOCK_N.

(** Keys one stage of [_attn_fwd_inner] loads, in loading order. *)
Definition stage_keys (STAGE start_m BLOCK_M BLOCK_N N_CTX : nat) : list nat :=
  let '(lo, hi) := stage_bounds STAGE start_m BLOCK_M N_CTX in
  flat_map (tile_keys BLOCK_N) (tl_range lo hi BLOCK_N).

(** The base-2 logit of query [i] and key [j] as a stage exponentiates
    it: scaled, and in stage 2 with the mask value added above the
    diagonal. *)
Definition logit2 (Q K : matrix) (HEAD_DIM : nat) (qk_scale : R)
    (STAGE i j : nat) : R :=
  rsum (fun d => Q i d * K j d) HEAD_DIM * qk_scale
  + (if (STAGE =? 2)%nat then (if (j <=? i)%nat then 0 else MASK_VALUE) else 0).

Definition weight2 (Q K : matrix) (HEAD_DIM : nat) (qk_scale : R)
    (STAGE i j : nat) : R :=
  exp2 (logit2 Q K HEAD_DIM qk_scale STAGE i j).

(** Direct attention, as the specification words it: the softmax of the
    scaled scores of a row, times [V]. *)
Definition softmax (s : nat -> R) (n j : nat) : R :=
  exp (s j) / rsum (fun j' => exp (s j')) n.

Definition direct_attention (Q K V : matrix) (scale : R)
    (N_CTX HEAD_DIM : nat) : matrix :=
  fun i d =>
    rsum (fun j =>
            softmax (fun j' => scale * rsum (fun c => Q i c * K j' c) HEAD_DIM) N_CTX j
            * V j d) N_CTX.

(** The loop invariant of the streaming softmax for row [r]: [Z] is the
    sum of the weights folded in so far and [N d] the weighted sum of
    column [d] of the values. *)
Definition represents (st : fwd_state) (r : nat) (Z : R) (N : nat -> R) : Prop :=
  match m_i st r with
  | NegInf => Z = 0 /\ l_i st r = 1 /\ forall d, N d = 0 /\ acc st r d = 0
  | Fin m => 0 < Z /\ l_i st r * exp2 m = Z /\ forall d, acc st r d * exp2 m = N d
  end.

(** The sums the invariant tracks for one stage and query row [i]: the
    total weight of the keys the stage loads and the weighted sum of
    column [d] of their values. *)
Definition stage_Z (Q K : matrix) (HEAD_DIM : nat) (qk_scale : R)
    (STAGE start_m BLOCK_M BLOCK_N N_CTX i : nat) : R :=
  lsum (weight2 Q K HEAD_DIM qk_scale STAGE i)
       (stage_keys STAGE start_m BLOCK_M BLOCK_N N_CTX).

Definition stage_N (Q K V : matrix) (HEAD_DIM : nat) (qk_scale : R)
    (STAGE start_m BLOCK_M BLOCK_N N_CTX i d : nat) : R :=
  lsum (fun j => weight2 Q K HEAD_DIM qk_scale STAGE i j * V j d)
       (stage_keys STAGE start_m BLOCK_M BLOCK_N N_CTX).

(** The block of logits one iteration exponentiates (before the running
    maximum is subtracted), and the row maximum it folds into [m_i]. *)
Definition block_logits (q K : matrix) (qk_scale : R) (HEAD_DIM STAGE : nat)
    (offs_m offs_n : nat -> nat) (start_n : nat) : matrix :=
  fun r n =>
    rsum (fun d => q r d * K (start_n + n)%nat d) HEAD_DIM * qk_scale
    + (if (STAGE =? 2)%nat
       then (if (start_n + offs_n n <=? offs_m r)%nat then 0 else MASK_VALUE)
       else 0).

Definition block_row_max (q K : matrix) (qk_scale : R) (HEAD_DIM BLOCK_N STAGE : nat)
    (offs_m offs_n : nat -> nat) (start_n : nat) (r : nat) : R :=
  if (STAGE =? 2)%nat
  then row_max (block_logits q K qk_scale HEAD_DIM STAGE offs_m offs_n start_n r) BLOCK_N
  else row_max (fun n => rsum (fun d => q r d * K (start_n + n)%nat d) HEAD_DIM) BLOCK_N
       * qk_scale.

(** Two loop states that agree on [acc] and [m_i] (they may differ in
    the running sum [l_i]). *)
Definition agree_acc_m (st1 st2 : fwd_state) : Prop :=
  (forall r d, acc st1 r d = acc st2 r d) /\ (forall r, m_i st1 r = m_i st2 r).

(** [m] is the maximum of the logits in [seen] ([-inf] when none). *)
Definition is_max_of (m : ereal) (seen : list R) : Prop :=
  match m with
  | NegInf => seen = []
  | Fin y => (forall v, In v seen -> v <= y) /\ In y seen
  end.

(** The logits a program has folded in for row [r] after its stages, in
    loading order. *)
Definition logits_seen (Q K : matrix) (HEAD_DIM : nat) (qk_scale : R)
    (start_m BLOCK_M BLOCK_N N_CTX : nat) (causal : bool) (r : nat) : list R :=
  let i := fwd_offs_m start_m BLOCK_M r in
  if causal
  then map (logit2 Q K HEAD_DIM qk_scale 1 i) (stage_keys 1 start_m BLOCK_M BLOCK_N N_CTX)
       ++ map (logit2 Q K HEAD_DIM qk_scale 2 i) (stage_keys 2 start_m BLOCK_M BLOCK_N N_CTX)
  else map (logit2 Q K HEAD_DIM qk_scale 3 i) (stage_keys 3 start_m BLOCK_M BLOCK_N N_CTX).

(** The quantities of the backward pass for key row [n] of the tile and
    query position [i]: the recomputed weight [P], [dP] and [dS]. *)
Definition bwd_P (Q k : matrix) (M : nat -> R) (HEAD_DIM start_n : nat) (MASK : bool)
    (n i : nat) : R :=
  if MASK && negb (start_n + n <=? i)%nat then 0
  else exp2 (rsum (fun c => k n c * Q i c) HEAD_DIM - M i).

Definition bwd_dP (v DO : matrix) (HEAD_DIM n i : nat) : R :=
  rsum (fun c => v n c * DO i c) HEAD_DIM.

Definition bwd_dS (Q k v DO : matrix) (M D : nat -> R) (HEAD_DIM start_n : nat)
    (MASK : bool) (n i : nat) : R :=
  bwd_P Q k M HEAD_DIM start_n MASK n i * (bwd_dP v DO HEAD_DIM n i - D i).

(** The weight, [dP] and [dS] of query [i] and key [j] in the backward
    pass, for the key tensor [K] as the kernel receives it. *)
Definition bwd_w (Q K : matrix) (M : nat -> R) (HEAD_DIM i j : nat) : R :=
  exp2 (rsum (fun c => Q i c * K j c) HEAD_DIM - M i).

Definition bwd_ds (Q K V DO : matrix) (M D : nat -> R) (HEAD_DIM i j : nat) : R :=
  bwd_w Q K M HEAD_DIM i j * (rsum (fun c => DO i c * V j c) HEAD_DIM - D i).

(** The causal sums a backward program accumulates: over the queries
    [i >= j] for a key [j], over the keys [j <= i] for a query [i]. *)
Definition causal_dv (Q K DO : matrix) (M : nat -> R) (N_CTX HEAD_DIM j c : nat) : R :=
  rsum (fun i => if (j <=? i)%nat then bwd_w Q K M HEAD_DIM i j * DO i c else 0) N_CTX.

Definition causal_dk (Q K V DO : matrix) (M D : nat -> R) (N_CTX HEAD_DIM j c : nat)
    : R :=
  rsum (fun i => if (j <=? i)%nat then bwd_ds Q K V DO M D HEAD_DIM i j * Q i c else 0)
       N_CTX.

Definition causal_dq (Q K V DO : matrix) (M D : nat -> R) (N_CTX HEAD_DIM i c : nat)
    : R :=
  rsum (fun j => if (j <=? i)%nat then bwd_ds Q K V DO M D HEAD_DIM i j * K j c else 0)
       N_CTX.

(** Causal attention over the keys below [hi] in which a key after the
    query is not left out but keeps its weight times [damp]. *)
Definition damped_causal_attention (Q K V : matrix) (scale damp : R)
    (hi HEAD_DIM : nat) : matrix :=
  fun i d =>
    let w := fun j => exp (scale * rsum (fun c => Q i c * K j c) HEAD_DIM)
                      * (if (j <=? i)%nat then 1 else damp) in
    rsum (fun j => w j * V j d) hi / rsum w hi.

(** A tensor whose view lies within the storage behind it. *)
Definition view_within_storage (t : addmm_tensor) : Prop :=
  match at_layout t with
  | AsStrided stride => (view_extent (at_size t) stride <= alloc_numel t)%N
  | _ => at_size t = at_alloc t
  end.

(* ================================================================= *)
(** ** Concrete inputs *)

(** An import without [tl.async_task] and with neither variable set. *)
Definition plain_env : build_env := mk_build_env false false false.

(** Two candidates that differ in the number of warps only. *)
Definition conf_64_64_w8 : Config :=
  mk_Config 64 64 false "default" 3 8 None None None None.
Definition conf_64_64_w4 : Config :=
  mk_Config 64 64 false "default" 3 4 None None None None.

(** The candidate of [configsOrig] whose key tile is wider than its
    query tile. *)
Definition conf_64_128_w4 : Config :=
  mk_Config 64 128 false "default" 3 4 None None None None.

(** A candidate of [configsOrig] with 128 x 128 tiles. *)
Definition conf_128_128_w8 : Config :=
  mk_Config 128 128 false "default" 3 8 None None None None.

(** Tensors of shape (1, 1, 128, 64) in half precision. *)
Definition t_1_1_128_64 : tensor := mk_tensor 1 1 128 64 float16.

(** Inputs on which a masked position decides a causal output row: the
    only non-zero score of query row 0 is the one with key 1, above the
    diagonal; the two value tensors differ at row 1 only. *)
Definition leak_Q : matrix :=
  fun i c => if ((i =? 0) && (c =? 0))%nat then 2048 else 0.
Definition leak_K : matrix :=
  fun j c => if ((j =? 1) && (c =? 0))%nat then 2048 else 0.
Definition leak_V0 : matrix := fun _ _ => 0.
Definition leak_V1 : matrix := fun j _ => if (j =? 1)%nat then 1 else 0.

(** Inputs of a backward call on one tile of 128 positions. *)
Definition bwd_ones : matrix := fun _ _ => 1.
Definition bwd_stat0 : nat -> R := fun _ => 0.
Definition bwd_g0 : grads :=
  mk_grads (fun _ _ => 0) (fun _ _ => 0) (fun _ _ => 0).
Definition bwd_ctx_16 : bwd_ctx := mk_bwd_ctx 1 16 true.

(** Keys (or values) that differ from [bwd_ones] after position 0, and
    queries that differ from it before position 127. *)
Definition bwd_late_2 : matrix := fun j _ => if (j <=? 0)%nat then 1 else 2.
Definition bwd_early_2 : matrix := fun i _ => if (127 <=? i)%nat then 1 else 2.
Definition bwd_stat_early_2 : nat -> R := fun i => if (127 <=? i)%nat then 0 else 2.

(** One query and two keys with scores 0 and 1; the values are 0 and 1. *)
Definition two_key_Q : matrix := fun _ _ => 1.
Definition two_key_K : matrix := fun j _ => INR j.
Definition two_key_V : matrix := fun j _ => INR j.

(** An operator with one shape and strides that pad the rows of [mat1];
    the rows of the bias are padded in the second, not in the first. *)
Definition strided_operator : Operator :=
  mk_Operator [(4, 3, 2)%N] false (Some [[[2; 1]; [8; 1]; [2; 1]]%N]) None.

Definition padded_operator : Operator :=
  mk_Operator [(4, 3, 2)%N] false (Some [[[5; 1]; [8; 1]; [2; 1]]%N]) None.

(* ================================================================= *)
(** * Properties *)

(** ** Sums and powers of two *)

Lemma exp2_pos (x : R) : 0 < exp2 x.
Proof. unfold exp2. apply exp_pos. Qed.

Lemma exp2_plus (a b : R) : exp2 (a + b) = exp2 a * exp2 b.
Proof. unfold exp2. rewrite Rmult_plus_distr_r. apply exp_plus. Qed.

Lemma exp2_minus_mult (a b : R) : exp2 (a - b) * exp2 b = exp2 a.
Proof. rewrite <- exp2_plus. f_equal. ring. Qed.

Lemma ln2_pos : 0 < ln 2.
Proof. rewrite <- ln_1. apply ln_increasing; lra. Qed.

Lemma log2_exp2 (x : R) : log2 (exp2 x) = x.
Proof.
  unfold log2, exp2. rewrite ln_exp. field.
  apply Rgt_not_eq, ln2_pos.
Qed.

Lemma log2_mult (a b : R) : 0 < a -> 0 < b -> log2 (a * b) = log2 a + log2 b.
Proof.
  intros Ha Hb. unfold log2. rewrite ln_mult by assumption. field.
  apply Rgt_not_eq, ln2_pos.
Qed.

Lemma rsum_ext (f g : nat -> R) (n : nat) :
  (forall k, (k < n)%nat -> f k = g k) -> rsum f n = rsum g n.
Proof.
  induction n as [|n IH]; intros H; simpl; [reflexivity|].
  rewrite IH by (intros; apply H; lia). rewrite H by lia. reflexivity.
Qed.

Lemma rsum_scal (f : nat -> R) (c : R) (n : nat) :
  rsum f n * c = rsum (fun k => f k * c) n.
Proof. induction n as [|n IH]; simpl; [ring|]. rewrite <- IH. ring. Qed.

Lemma rsum_plus (f g : nat -> R) (n : nat) :
  rsum (fun k => f k + g k) n = rsum f n + rsum g n.
Proof. induction n as [|n IH]; simpl; [ring|]. rewrite IH. ring. Qed.

Lemma lsum_app (f : nat -> R) (l1 l2 : list nat) :
  lsum f (l1 ++ l2) = lsum f l1 + lsum f l2.
Proof. induction l1 as [|a l1 IH]; simpl; [ring|]. rewrite IH. ring. Qed.

Lemma lsum_ext_in (f g : nat -> R) (l : list nat) :
  (forall j, In j l -> f j = g j) -> lsum f l = lsum g l.
Proof.
  induction l as [|a l IH]; intros H; simpl; [reflexivity|].
  rewrite (H a) by (left; reflexivity).
  rewrite IH by (intros; apply H; right; assumption). reflexivity.
Qed.

Lemma lsum_nonneg (f : nat -> R) (l : list nat) :
  (forall j, 0 < f j) -> 0 <= lsum f l.
Proof.
  intros Hf. induction l as [|a l IH]; simpl; [lra|].
  specialize (Hf a). lra.
Qed.

Lemma lsum_pos (f : nat -> R) (l : list nat) :
  l <> [] -> (forall j, 0 < f j) -> 0 < lsum f l.
Proof.
  intros Hl Hf. destruct l as [|a l]; [congruence|]. simpl.
  pose proof (lsum_nonneg f l Hf). specialize (Hf a). lra.
Qed.

Lemma rsum_lsum_seq (f : nat -> R) (s b : nat) :
  rsum (fun n => f (s + n)%nat) b = lsum f (seq s b).
Proof.
  induction b as [|b IH]; simpl rsum; [reflexivity|].
  rewrite seq_S, lsum_app, IH. simpl. ring.
Qed.

Lemma rsum_lsum (f : nat -> R) (n : nat) : rsum f n = lsum f (seq 0 n).
Proof. rewrite <- rsum_lsum_seq. reflexivity. Qed.

(** ** The streaming-softmax invariant *)

Section Streaming.
Variables (Q K V : matrix) (qk_scale : R).
Variables (HEAD_DIM BLOCK_N BLOCK_M start_m : nat).

Local Abbreviation q := (q_tile Q start_m BLOCK_M).
Local Abbreviation offs_m := (fwd_offs_m start_m BLOCK_M).
Local Abbreviation offs_n := arange.

Lemma body_m_fin STAGE st start_n r :
  exists m, m_i (fwd_inner_body q K V qk_scale HEAD_DIM BLOCK_N STAGE offs_m offs_n st start_n) r = Fin m.
Proof. simpl. eexists. reflexivity. Qed.

Lemma body_represents STAGE st start_n r Z N :
  (0 < BLOCK_N)%nat ->
  represents st r Z N ->
  represents (fwd_inner_body q K V qk_scale HEAD_DIM BLOCK_N STAGE offs_m offs_n st start_n) r
    (Z + lsum (weight2 Q K HEAD_DIM qk_scale STAGE (offs_m r)) (tile_keys BLOCK_N start_n))
    (fun d => N d + lsum (fun j => weight2 Q K HEAD_DIM qk_scale STAGE (offs_m r) j * V j d)
                         (tile_keys BLOCK_N start_n)).
Proof.
  intros HBN Hrep.
  unfold represents in *. cbn [m_i l_i acc fwd_inner_body].
  set (mij := if (STAGE =? 2)%nat then _ else _).
  assert (Hp : forall n,
     exp2 (if (STAGE =? 2)%nat
           then rsum (fun d => q r d * K (start_n + n)%nat d) HEAD_DIM * qk_scale
                + (if (start_n + offs_n n <=? offs_m r)%nat then 0 else MASK_VALUE) - mij
           else rsum (fun d => q r d * K (start_n + n)%nat d) HEAD_DIM * qk_scale - mij) * exp2 mij
     = weight2 Q K HEAD_DIM qk_scale STAGE (offs_m r) (start_n + n)).
  { intros n. unfold weight2, logit2, q_tile, fwd_offs_m, arange.
    destruct (STAGE =? 2)%nat; rewrite exp2_minus_mult; f_equal; ring. }
  assert (Hkeys : tile_keys BLOCK_N start_n <> []).
  { unfold tile_keys. destruct BLOCK_N; [lia | discriminate]. }
  assert (Hw : forall j, 0 < weight2 Q K HEAD_DIM qk_scale STAGE (offs_m r) j)
    by (intros; apply exp2_pos).
  pose proof (lsum_pos _ _ Hkeys Hw) as Hpos.
  assert (Hl : l_i st r * exp2_diff (m_i st r) mij * exp2 mij = Z
               /\ forall d, acc st r d * exp2_diff (m_i st r) mij * exp2 mij = N d).
  { clearbody mij. destruct (m_i st r) as [|m]; cbn [exp2_diff].
    - destruct Hrep as (HZ & _ & Hd). split; [lra|].
      intros d. destruct (Hd d) as [-> _]. ring.
    - destruct Hrep as (_ & HZ & Hd). split.
      + rewrite Rmult_assoc, exp2_minus_mult. exact HZ.
      + intros d. rewrite Rmult_assoc, exp2_minus_mult. apply Hd. }
  destruct Hl as [Hl Hacc].
  assert (HZ0 : 0 <= Z).
  { destruct (m_i st r); [destruct Hrep as [-> _]; lra | destruct Hrep; lra]. }
  split; [lra|]. split.
  - rewrite Rmult_plus_distr_r, Hl, rsum_scal. f_equal.
    rewrite (rsum_ext _ _ _ (fun n _ => Hp n)).
    apply (rsum_lsum_seq (weight2 Q K HEAD_DIM qk_scale STAGE (offs_m r))).
  - intros d. rewrite Rmult_plus_distr_r, Hacc, rsum_scal. f_equal.
    unfold tile_keys.
    rewrite <- (rsum_lsum_seq (fun j => weight2 Q K HEAD_DIM qk_scale STAGE (offs_m r) j * V j d)).
    apply rsum_ext. intros n _. rewrite <- Hp. ring.
Qed.

Lemma represents_ext st r Z Z' N N' :
  Z = Z' -> (forall d, N d = N' d) -> represents st r Z N -> represents st r Z' N'.
Proof.
  intros <- HN. unfold represents. destruct (m_i st r).
  - intros (HZ & Hl & Hd). repeat split; auto.
    + rewrite <- HN. apply Hd.
    + apply Hd.
  - intros (HZ & Hl & Hd). repeat split; auto.
    intros d. rewrite <- HN. apply Hd.
Qed.

Lemma fold_represents STAGE starts : forall st r Z N,
  (0 < BLOCK_N)%nat ->
  represents st r Z N ->
  represents
    (fold_left (fwd_inner_body q K V qk_scale HEAD_DIM BLOCK_N STAGE offs_m offs_n) starts st) r
    (Z + lsum (weight2 Q K HEAD_DIM qk_scale STAGE (offs_m r))
              (flat_map (tile_keys BLOCK_N) starts))
    (fun d => N d + lsum (fun j => weight2 Q K HEAD_DIM qk_scale STAGE (offs_m r) j * V j d)
                         (flat_map (tile_keys BLOCK_N) starts)).
Proof.
  induction starts as [|s starts IH]; intros st r Z N HBN Hrep; cbn [fold_left flat_map lsum].
  - eapply represents_ext; [| |exact Hrep]; [ring | intros; ring].
  - eapply represents_ext; [| | apply IH; [exact HBN | apply body_represents; eassumption]].
    + rewrite lsum_app. ring.
    + intros d. cbn beta. rewrite lsum_app. ring.
Qed.

Lemma inner_represents STAGE N_CTX st r Z N :
  (0 < BLOCK_N)%nat ->
  represents st r Z N ->
  represents
    (_attn_fwd_inner st q K V start_m qk_scale BLOCK_M HEAD_DIM BLOCK_N STAGE offs_m offs_n N_CTX) r
    (Z + lsum (weight2 Q K HEAD_DIM qk_scale STAGE (offs_m r))
              (stage_keys STAGE start_m BLOCK_M BLOCK_N N_CTX))
    (fun d => N d + lsum (fun j => weight2 Q K HEAD_DIM qk_scale STAGE (offs_m r) j * V j d)
                         (stage_keys STAGE start_m BLOCK_M BLOCK_N N_CTX)).
Proof.
  intros HBN Hrep. unfold _attn_fwd_inner, stage_keys.
  destruct (stage_bounds STAGE start_m BLOCK_M N_CTX) as [lo hi].
  apply fold_represents; assumption.
Qed.
End Streaming.

Lemma init_represents r : represents fwd_init r 0 (fun _ => 0).
Proof. unfold represents; simpl. repeat split; reflexivity. Qed.

Lemma epilogue_of_represents st r Z N :
  represents st r Z N -> 0 < Z ->
  (forall d, Out_tile (fwd_epilogue st) r d = N d / Z)
  /\ M_tile (fwd_epilogue st) r = Fin (log2 Z).
Proof.
  unfold represents, fwd_epilogue; cbn [Out_tile M_tile].
  destruct (m_i st r) as [|m]; intros Hrep HZ.
  - destruct Hrep as [-> _]. lra.
  - destruct Hrep as (_ & Hl & Hd). pose proof (exp2_pos m) as Hm.
    assert (Hlpos : 0 < l_i st r).
    { apply Rmult_lt_reg_r with (exp2 m); [exact Hm|]. rewrite Hl. lra. }
    split.
    + intros d. rewrite <- Hl, <- Hd. field. split; lra.
    + cbn [eadd]. f_equal. rewrite <- Hl, log2_mult, log2_exp2 by assumption. ring.
Qed.

(** ** Key ranges of the stages *)

Lemma tl_range_exact (lo T BN : nat) :
  (0 < BN)%nat ->
  tl_range lo (lo + T * BN) BN = map (fun t => (lo + t * BN)%nat) (seq 0 T).
Proof.
  intros HBN. unfold tl_range. f_equal. f_equal.
  replace (lo + T * BN - lo + BN - 1)%nat with (T * BN + (BN - 1))%nat by lia.
  rewrite Nat.div_add_l by lia. rewrite Nat.div_small by lia. lia.
Qed.

Lemma flat_map_tiles (lo T BN : nat) :
  flat_map (tile_keys BN) (map (fun t => (lo + t * BN)%nat) (seq 0 T)) = seq lo (T * BN).
Proof.
  induction T as [|T IH]; [reflexivity|].
  rewrite seq_S, map_app, flat_map_app, IH. cbn [map flat_map Nat.add].
  rewrite app_nil_r. unfold tile_keys.
  replace (S T * BN)%nat with (T * BN + BN)%nat by lia.
  rewrite seq_app. reflexivity.
Qed.

Lemma stage_keys_noncausal (start_m BM BN N_CTX : nat) :
  (0 < BN)%nat -> Nat.divide BN N_CTX ->
  stage_keys 3 start_m BM BN N_CTX = seq 0 N_CTX.
Proof.
  intros HBN [T ->]. unfold stage_keys. cbn [stage_bounds Nat.eqb].
  change (T * BN)%nat with (0 + T * BN)%nat at 1.
  rewrite (tl_range_exact 0 T BN HBN). apply flat_map_tiles.
Qed.

Lemma stage_keys_off_band (start_m BM BN N_CTX : nat) :
  (0 < BN)%nat -> Nat.divide BN BM ->
  stage_keys 1 start_m BM BN N_CTX = seq 0 (start_m * BM).
Proof.
  intros HBN [T ->]. unfold stage_keys. cbn [stage_bounds Nat.eqb].
  replace (start_m * (T * BN))%nat with ((start_m * T) * BN)%nat by lia.
  change (start_m * T * BN)%nat with (0 + start_m * T * BN)%nat at 1.
  rewrite (tl_range_exact 0 (start_m * T) BN HBN). rewrite flat_map_tiles. reflexivity.
Qed.

Lemma stage_keys_on_band (start_m BM BN N_CTX : nat) :
  (0 < BN)%nat -> Nat.divide BN BM ->
  stage_keys 2 start_m BM BN N_CTX = seq (start_m * BM) BM.
Proof.
  intros HBN [T ->]. unfold stage_keys. cbn [stage_bounds Nat.eqb].
  replace ((start_m + 1) * (T * BN))%nat with (start_m * (T * BN) + T * BN)%nat by lia.
  rewrite (tl_range_exact _ T BN HBN). apply flat_map_tiles.
Qed.

(** ** Closed form of the forward kernel *)

Lemma tl_range_nonempty (lo hi BN : nat) :
  (0 < BN)%nat -> (lo < hi)%nat -> tl_range lo hi BN <> [].
Proof.
  intros HBN Hlt. unfold tl_range.
  assert (H : (1 <= (hi - lo + BN - 1) / BN)%nat).
  { apply Nat.div_le_lower_bound; lia. }
  destruct ((hi - lo + BN - 1) / BN)%nat; [lia | discriminate].
Qed.

Lemma flat_map_tiles_nonempty (BN : nat) (l : list nat) :
  (0 < BN)%nat -> l <> [] -> flat_map (tile_keys BN) l <> [].
Proof.
  intros HBN Hl. destruct l as [|a l]; [congruence|].
  cbn [flat_map]. unfold tile_keys at 1. destruct BN; [lia | discriminate].
Qed.

Lemma stage_Z_nonneg Q K HD s STAGE start_m BM BN N_CTX i :
  0 <= stage_Z Q K HD s STAGE start_m BM BN N_CTX i.
Proof. apply lsum_nonneg. intros; apply exp2_pos. Qed.

Lemma stage_Z_pos Q K HD s STAGE start_m BM BN N_CTX i :
  stage_keys STAGE start_m BM BN N_CTX <> [] ->
  0 < stage_Z Q K HD s STAGE start_m BM BN N_CTX i.
Proof. intros H. apply lsum_pos; [exact H | intros; apply exp2_pos]. Qed.

Lemma stage_keys_on_band_nonempty start_m BM BN N_CTX :
  (0 < BN)%nat -> (0 < BM)%nat -> stage_keys 2 start_m BM BN N_CTX <> [].
Proof.
  intros HBN HBM. unfold stage_keys. cbn [stage_bounds Nat.eqb].
  apply flat_map_tiles_nonempty; [exact HBN|]. apply tl_range_nonempty; lia.
Qed.

Lemma stage_keys_full_nonempty start_m BM BN N_CTX :
  (0 < BN)%nat -> (0 < N_CTX)%nat -> stage_keys 3 start_m BM BN N_CTX <> [].
Proof.
  intros HBN HN. unfold stage_keys. cbn [stage_bounds Nat.eqb].
  apply flat_map_tiles_nonempty; [exact HBN|]. apply tl_range_nonempty; lia.
Qed.

Lemma fwd_loops_noncausal LOG2E Q K V sm_scale start_m N_CTX BM BN HD :
  fwd_loops LOG2E Q K V sm_scale start_m N_CTX BM BN HD 1
  = _attn_fwd_inner fwd_init (q_tile Q start_m BM) K V start_m (sm_scale * LOG2E)
                    BM HD BN 3 (fwd_offs_m start_m BM) arange N_CTX.
Proof. reflexivity. Qed.

Lemma fwd_loops_causal LOG2E Q K V sm_scale start_m N_CTX BM BN HD :
  fwd_loops LOG2E Q K V sm_scale start_m N_CTX BM BN HD 3
  = _attn_fwd_inner
      (_attn_fwd_inner fwd_init (q_tile Q start_m BM) K V start_m (sm_scale * LOG2E)
                       BM HD BN 1 (fwd_offs_m start_m BM) arange N_CTX)
      (q_tile Q start_m BM) K V start_m (sm_scale * LOG2E)
      BM HD BN 2 (fwd_offs_m start_m BM) arange N_CTX.
Proof. reflexivity. Qed.

(** In non-causal mode the program's output row is the weighted mean of
    the value rows of the keys it loads, with the base-2 weights
    [exp2 (q.k * sm_scale * LOG2E)], and the stored row statistic is the
    base-2 logarithm of the total weight.  Nothing is assumed about
    [LOG2E]. *)
Lemma fwd_noncausal_closed_form LOG2E Q K V sm_scale start_m N_CTX BM BN HD r :
  (0 < BN)%nat -> (0 < N_CTX)%nat ->
  let i := fwd_offs_m start_m BM r in
  let s := sm_scale * LOG2E in
  let out := _attn_fwd_compute LOG2E Q K V sm_scale start_m N_CTX BM BN HD 1 in
  (forall d, Out_tile out r d
             = stage_N Q K V HD s 3 start_m BM BN N_CTX i d
               / stage_Z Q K HD s 3 start_m BM BN N_CTX i)
  /\ M_tile out r = Fin (log2 (stage_Z Q K HD s 3 start_m BM BN N_CTX i)).
Proof.
  intros HBN HN i s out.
  pose proof (inner_represents Q K V s HD BN BM start_m 3 N_CTX fwd_init r 0 (fun _ => 0)
                HBN (init_represents r)) as Hrep.
  apply epilogue_of_represents in Hrep.
  - subst out s i. unfold _attn_fwd_compute. rewrite fwd_loops_noncausal.
    destruct Hrep as [Ho Hm]. split.
    + intros d. rewrite Ho. unfold stage_N, stage_Z. rewrite !Rplus_0_l. reflexivity.
    + rewrite Hm. unfold stage_Z. rewrite Rplus_0_l. reflexivity.
  - rewrite Rplus_0_l. apply lsum_pos; [|intros; apply exp2_pos].
    apply stage_keys_full_nonempty; assumption.
Qed.

(** The same in causal mode: the keys of the unmasked stage count with
    their plain weight, those of the masked stage with the weight of
    their masked logit. *)
Lemma fwd_causal_closed_form LOG2E Q K V sm_scale start_m N_CTX BM BN HD r :
  (0 < BN)%nat -> (0 < BM)%nat ->
  let i := fwd_offs_m start_m BM r in
  let s := sm_scale * LOG2E in
  let out := _attn_fwd_compute LOG2E Q K V sm_scale start_m N_CTX BM BN HD 3 in
  let Z := stage_Z Q K HD s 1 start_m BM BN N_CTX i
           + stage_Z Q K HD s 2 start_m BM BN N_CTX i in
  (forall d, Out_tile out r d
             = (stage_N Q K V HD s 1 start_m BM BN N_CTX i d
                + stage_N Q K V HD s 2 start_m BM BN N_CTX i d) / Z)
  /\ M_tile out r = Fin (log2 Z).
Proof.
  intros HBN HBM i s out Z.
  pose proof (inner_represents Q K V s HD BN BM start_m 1 N_CTX fwd_init r 0 (fun _ => 0)
                HBN (init_represents r)) as Hrep1.
  pose proof (inner_represents Q K V s HD BN BM start_m 2 N_CTX _ r _ _ HBN Hrep1) as Hrep.
  apply epilogue_of_represents in Hrep.
  - subst out Z s i. unfold _attn_fwd_compute. rewrite fwd_loops_causal.
    destruct Hrep as [Ho Hm]. split.
    + intros d. rewrite Ho. unfold stage_N, stage_Z. rewrite !Rplus_0_l. reflexivity.
    + rewrite Hm. unfold stage_Z. rewrite Rplus_0_l. reflexivity.
  - rewrite Rplus_0_l.
    pose proof (stage_Z_nonneg Q K HD s 1 start_m BM BN N_CTX i) as H1.
    pose proof (stage_Z_pos Q K HD s 2 start_m BM BN N_CTX i
                  (stage_keys_on_band_nonempty start_m BM BN N_CTX HBN HBM)) as H2.
    unfold stage_Z in H1, H2. subst i s. lra.
Qed.

Lemma weight2_unmasked_exp LOG2E Q K HD sm_scale i j :
  weight2 Q K HD (sm_scale * LOG2E) 3 i j
  = exp (sm_scale * (LOG2E * ln 2) * rsum (fun c => Q i c * K j c) HD).
Proof. unfold weight2, logit2, exp2. cbn [Nat.eqb]. f_equal. ring. Qed.

Lemma fwd_noncausal_direct LOG2E Q K V sm_scale start_m N_CTX BM BN HD :
  (0 < BN)%nat -> Nat.divide BN N_CTX ->
  forall r d,
    Out_tile (_attn_fwd_compute LOG2E Q K V sm_scale start_m N_CTX BM BN HD 1) r d
    = direct_attention Q K V (sm_scale * (LOG2E * ln 2)) N_CTX HD (start_m * BM + r)%nat d.
Proof.
  intros HBN Hdiv r d.
  destruct (Nat.eq_dec N_CTX 0) as [-> | HN].
  - unfold direct_attention. cbn [rsum].
    unfold _attn_fwd_compute. rewrite fwd_loops_noncausal.
    unfold _attn_fwd_inner, stage_bounds, tl_range. cbn [Nat.eqb Nat.sub Nat.add].
    replace ((BN - 1) / BN)%nat with 0%nat by (symmetry; apply Nat.div_small; lia).
    cbn. field.
  - destruct (fwd_noncausal_closed_form LOG2E Q K V sm_scale start_m N_CTX BM BN HD r HBN
                ltac:(lia)) as [Ho _].
    rewrite Ho. unfold stage_N, stage_Z.
    rewrite (stage_keys_noncausal start_m BM BN N_CTX HBN Hdiv), <- !rsum_lsum.
    unfold direct_attention, softmax, fwd_offs_m, arange.
    set (i := (start_m * BM + r)%nat).
    set (Zd := rsum (fun j' => exp (sm_scale * (LOG2E * ln 2)
                                    * rsum (fun c => Q i c * K j' c) HD)) N_CTX).
    rewrite (rsum_ext (weight2 Q K HD (sm_scale * LOG2E) 3 i)
                      (fun j => exp (sm_scale * (LOG2E * ln 2)
                                     * rsum (fun c => Q i c * K j c) HD)) N_CTX)
      by (intros; apply weight2_unmasked_exp).
    fold Zd. unfold Rdiv at 1. rewrite rsum_scal. apply rsum_ext. intros j _.
    rewrite weight2_unmasked_exp. unfold Rdiv. ring.
Qed.

(** ** Causal mode: which keys and values an output row reads *)

Lemma weight2_ext_K Q K K' HD s STAGE i j :
  (forall c, K j c = K' j c) ->
  weight2 Q K HD s STAGE i j = weight2 Q K' HD s STAGE i j.
Proof.
  intros H. unfold weight2, logit2. do 3 f_equal.
  apply rsum_ext. intros c _. rewrite H. reflexivity.
Qed.

Lemma causal_keys_below_next_tile STAGE start_m BM BN N_CTX j :
  (0 < BN)%nat -> Nat.divide BN BM -> (STAGE = 1 \/ STAGE = 2)%nat ->
  In j (stage_keys STAGE start_m BM BN N_CTX) -> (j < (start_m + 1) * BM)%nat.
Proof.
  intros HBN Hdiv [-> | ->].
  - rewrite stage_keys_off_band by assumption. rewrite in_seq. lia.
  - rewrite stage_keys_on_band by assumption. rewrite in_seq. lia.
Qed.

Lemma masked_weight_damped Q K HD s i j :
  (i < j)%nat ->
  weight2 Q K HD s 2 i j = exp2 MASK_VALUE * weight2 Q K HD s 1 i j.
Proof.
  intros Hlt. unfold weight2, logit2. cbn [Nat.eqb].
  destruct (Nat.leb_spec j i) as [Hle | _]; [lia|].
  rewrite <- exp2_plus. f_equal. ring.
Qed.

(** C6 (amended): in causal mode with [BLOCK_N] dividing [BLOCK_M], the
    rows of query tile [start_m] do not change when keys and values
    change at positions from [(start_m + 1) * BLOCK_M] on, that is
    beyond the tile's diagonal block. *)
Theorem causal_output_ignores_later_tiles
    LOG2E Q K K' V V' sm_scale start_m N_CTX BM BN HD :
  (0 < BN)%nat -> (0 < BM)%nat -> Nat.divide BN BM ->
  (forall j c, (j < (start_m + 1) * BM)%nat -> K j c = K' j c /\ V j c = V' j c) ->
  forall r d,
    Out_tile (_attn_fwd_compute LOG2E Q K V sm_scale start_m N_CTX BM BN HD
                                (stage_of_causal true)) r d
    = Out_tile (_attn_fwd_compute LOG2E Q K' V' sm_scale start_m N_CTX BM BN HD
                                  (stage_of_causal true)) r d.
Proof.
  intros HBN HBM Hdiv Hagree r d. cbn [stage_of_causal].
  destruct (fwd_causal_closed_form LOG2E Q K V sm_scale start_m N_CTX BM BN HD r HBN HBM)
    as [Ho _].
  destruct (fwd_causal_closed_form LOG2E Q K' V' sm_scale start_m N_CTX BM BN HD r HBN HBM)
    as [Ho' _].
  rewrite Ho, Ho'. unfold stage_N, stage_Z.
  assert (HZ : forall STAGE, (STAGE = 1 \/ STAGE = 2)%nat ->
     lsum (weight2 Q K HD (sm_scale * LOG2E) STAGE (fwd_offs_m start_m BM r))
          (stage_keys STAGE start_m BM BN N_CTX)
     = lsum (weight2 Q K' HD (sm_scale * LOG2E) STAGE (fwd_offs_m start_m BM r))
            (stage_keys STAGE start_m BM BN N_CTX)).
  { intros STAGE HS. apply lsum_ext_in. intros j Hj. apply weight2_ext_K.
    intros c. apply Hagree.
    apply (causal_keys_below_next_tile STAGE start_m BM BN N_CTX j); assumption. }
  assert (HN : forall STAGE, (STAGE = 1 \/ STAGE = 2)%nat ->
     lsum (fun j => weight2 Q K HD (sm_scale * LOG2E) STAGE (fwd_offs_m start_m BM r) j * V j d)
          (stage_keys STAGE start_m BM BN N_CTX)
     = lsum (fun j => weight2 Q K' HD (sm_scale * LOG2E) STAGE (fwd_offs_m start_m BM r) j * V' j d)
            (stage_keys STAGE start_m BM BN N_CTX)).
  { intros STAGE HS. apply lsum_ext_in. intros j Hj.
    assert (Hlt : (j < (start_m + 1) * BM)%nat)
      by (apply (causal_keys_below_next_tile STAGE start_m BM BN N_CTX j); assumption).
    rewrite (weight2_ext_K Q K K') by (intros c; apply Hagree; exact Hlt).
    f_equal. apply Hagree; exact Hlt. }
  rewrite (HZ 1%nat), (HZ 2%nat), (HN 1%nat), (HN 2%nat) by auto. reflexivity.
Qed.

(** C6 (amended) with four keys and query tiles of two rows: keys 2 and
    3 do not reach the rows of tile 0. *)
Lemma causal_output_ignores_later_tiles_witness :
  (0 < 1)%nat /\ (0 < 2)%nat /\ Nat.divide 1 2 /\
  Out_tile (_attn_fwd_compute LOG2E_literal (fun _ _ => 1) (fun _ _ => 1) (fun _ _ => 1)
              1 0 4 2 1 1 (stage_of_causal true)) 0%nat 0%nat
  = Out_tile (_attn_fwd_compute LOG2E_literal (fun _ _ => 1)
                (fun j _ => if (j <? 2)%nat then 1 else 7)
                (fun j _ => if (j <? 2)%nat then 1 else 9)
                1 0 4 2 1 1 (stage_of_causal true)) 0%nat 0%nat.
Proof.
  assert (H1 : (0 < 1)%nat) by lia.
  assert (H2 : (0 < 2)%nat) by lia.
  assert (H3 : Nat.divide 1 2) by (exists 2%nat; reflexivity).
  split; [exact H1 | split; [exact H2 | split; [exact H3 |]]].
  apply (causal_output_ignores_later_tiles LOG2E_literal (fun _ _ => 1)
           (fun _ _ => 1) (fun j _ => if (j <? 2)%nat then 1 else 7)
           (fun _ _ => 1) (fun j _ => if (j <? 2)%nat then 1 else 9)
           1 0 4 2 1 1 H1 H2 H3).
  intros j c Hj. cbn in Hj.
  destruct (Nat.ltb_spec j 2) as [_ | Hge]; [split; reflexivity | lia].
Defined.

Lemma lsum_zero (f : nat -> R) (l : list nat) :
  (forall j, In j l -> f j = 0) -> lsum f l = 0.
Proof.
  induction l as [|a l IH]; intros H; cbn [lsum]; [reflexivity|].
  rewrite (H a) by (left; reflexivity).
  rewrite IH by (intros; apply H; right; assumption). ring.
Qed.

Lemma lsum_pos_in (f : nat -> R) (l : list nat) (a : nat) :
  (forall j, 0 <= f j) -> In a l -> 0 < f a -> 0 < lsum f l.
Proof.
  intros Hf. induction l as [|b l IH]; intros Hin Ha; [destruct Hin|].
  cbn [lsum]. destruct Hin as [-> | Hin].
  - assert (0 <= lsum f l).
    { clear IH. induction l as [|c l IHl]; cbn [lsum]; [lra|]. specialize (Hf c). lra. }
    lra.
  - specialize (IH Hin Ha). specialize (Hf b). lra.
Qed.

(** C6 (counterexample): in causal mode with one 64-wide tile, the two
    runs differ only in the value at key position 1, and output row 0
    differs: the mask adds a finite value to the logit of key 1, it does
    not remove the key. *)
Lemma causal_row_reads_masked_value :
  (forall j c, j <> 1%nat -> leak_V0 j c = leak_V1 j c) /\
  Out_tile (_attn_fwd_compute LOG2E_literal leak_Q leak_K leak_V0 1 0 64 64 64 64
                              (stage_of_causal true)) 0%nat 0%nat
  <> Out_tile (_attn_fwd_compute LOG2E_literal leak_Q leak_K leak_V1 1 0 64 64 64 64
                                 (stage_of_causal true)) 0%nat 0%nat.
Proof.
  split.
  - intros j c Hj. unfold leak_V0, leak_V1.
    destruct (Nat.eqb_spec j 1); [contradiction | reflexivity].
  - cbn [stage_of_causal].
    assert (HBN : (0 < 64)%nat) by lia.
    destruct (fwd_causal_closed_form LOG2E_literal leak_Q leak_K leak_V0 1 0 64 64 64 64 0
                HBN HBN) as [Ho0 _].
    destruct (fwd_causal_closed_form LOG2E_literal leak_Q leak_K leak_V1 1 0 64 64 64 64 0
                HBN HBN) as [Ho1 _].
    rewrite Ho0, Ho1. clear Ho0 Ho1.
    set (Z := stage_Z leak_Q leak_K 64 (1 * LOG2E_literal) 1 0 64 64 64 _
              + stage_Z leak_Q leak_K 64 (1 * LOG2E_literal) 2 0 64 64 64 _).
    assert (HZ : 0 < Z).
    { pose proof (stage_Z_nonneg leak_Q leak_K 64 (1 * LOG2E_literal) 1 0 64 64 64
                    (fwd_offs_m 0 64 0)).
      pose proof (stage_Z_pos leak_Q leak_K 64 (1 * LOG2E_literal) 2 0 64 64 64
                    (fwd_offs_m 0 64 0)
                    (stage_keys_on_band_nonempty 0 64 64 64 HBN HBN)).
      unfold Z. lra. }
    assert (H0 : forall STAGE,
      stage_N leak_Q leak_K leak_V0 64 (1 * LOG2E_literal) STAGE 0 64 64 64
              (fwd_offs_m 0 64 0) 0 = 0).
    { intros STAGE. apply lsum_zero. intros j _. unfold leak_V0. ring. }
    assert (H1 : stage_N leak_Q leak_K leak_V1 64 (1 * LOG2E_literal) 1 0 64 64 64
                   (fwd_offs_m 0 64 0) 0 = 0).
    { unfold stage_N. replace (stage_keys 1 0 64 64 64) with (@nil nat); [reflexivity|].
      rewrite stage_keys_off_band; [reflexivity | lia | exists 1%nat; reflexivity]. }
    assert (H2 : 0 < stage_N leak_Q leak_K leak_V1 64 (1 * LOG2E_literal) 2 0 64 64 64
                       (fwd_offs_m 0 64 0) 0).
    { unfold stage_N. apply (lsum_pos_in _ _ 1%nat).
      - intros j. unfold leak_V1.
        pose proof (exp2_pos (logit2 leak_Q leak_K 64 (1 * LOG2E_literal) 2
                                (fwd_offs_m 0 64 0) j)) as Hp.
        unfold weight2. destruct (j =? 1)%nat; lra.
      - rewrite stage_keys_on_band; [|lia | exists 1%nat; reflexivity].
        apply in_seq. lia.
      - unfold leak_V1, weight2. cbn [Nat.eqb].
        pose proof (exp2_pos (logit2 leak_Q leak_K 64 (1 * LOG2E_literal) 2
                                (fwd_offs_m 0 64 0) 1)). lra. }
    rewrite !H0, H1.
    intros Heq.
    assert (Hq : 0 < (0 + stage_N leak_Q leak_K leak_V1 64 (1 * LOG2E_literal) 2 0 64 64 64
                            (fwd_offs_m 0 64 0) 0) / Z).
    { apply Rdiv_lt_0_compat; lra. }
    rewrite <- Heq in Hq. unfold Rdiv in Hq. rewrite Rplus_0_l, Rmult_0_l in Hq. lra.
Qed.

(** C3 (the code at the failing input): the candidate with
    [BLOCK_M = 64] and [BLOCK_N = 128] is in the pool of [_attn_fwd] and
    passes its static assertion for head dimension 128.  With it, the
    program of query tile 1 (rows 64..127) has the stage bounds [0, 64)
    and [64, 128), but loads the keys 0..127 in its unmasked stage and
    the keys 64..191 in its masked stage, and its output rows are the
    weighted means over both lists. *)
Lemma causal_off_band_overruns_diagonal :
  In conf_64_128_w4 (pool_attn_fwd plain_env)
  /\ stage_bounds 1 1 64 256 = (0%nat, 64%nat)
  /\ stage_keys 1 1 64 128 256 = seq 0 128
  /\ stage_bounds 2 1 64 256 = (64%nat, 128%nat)
  /\ stage_keys 2 1 64 128 256 = seq 64 128
  /\ forall LOG2E Q K V sm_scale,
      exists out,
        _attn_fwd conf_64_128_w4 LOG2E Q K V sm_scale 1 256 128 (stage_of_causal true)
        = Ran out
        /\ forall r d,
             let w := fun STAGE => weight2 Q K 128 (sm_scale * LOG2E) STAGE (64 + r) in
             Out_tile out r d
             = (lsum (fun j => w 1%nat j * V j d) (seq 0 128)
                + lsum (fun j => w 2%nat j * V j d) (seq 64 128))
               / (lsum (w 1%nat) (seq 0 128) + lsum (w 2%nat) (seq 64 128)).
Proof.
  assert (H1 : stage_keys 1 1 64 128 256 = seq 0 128) by (vm_compute; reflexivity).
  assert (H2 : stage_keys 2 1 64 128 256 = seq 64 128) by (vm_compute; reflexivity).
  split; [vm_compute; tauto|].
  split; [reflexivity|]. split; [exact H1|].
  split; [reflexivity|]. split; [exact H2|].
  intros LOG2E Q K V sm_scale. eexists. split.
  - unfold _attn_fwd, fwd_entry.
    change (BLOCK_N conf_64_128_w4 <=? 128)%nat with true. cbv iota. reflexivity.
  - intros r d w. cbn [stage_of_causal conf_64_128_w4 BLOCK_M BLOCK_N].
    assert (H64 : (0 < 64)%nat) by lia. assert (H128 : (0 < 128)%nat) by lia.
    destruct (fwd_causal_closed_form LOG2E Q K V sm_scale 1 256 64 128 128 r H128 H64)
      as [Ho _].
    rewrite Ho. unfold stage_N, stage_Z. rewrite H1, H2.
    unfold w, fwd_offs_m, arange.
    replace (1 * 64 + r)%nat with (64 + r)%nat by lia. reflexivity.
Qed.

(** ** One iteration of the streaming softmax *)

Lemma max_to_ge (f : nat -> R) (k n : nat) : (n <= k)%nat -> f n <= max_to f k.
Proof.
  induction k as [|k IH]; intros Hn; cbn [max_to].
  - replace n with 0%nat by lia. lra.
  - destruct (Nat.eq_dec n (S k)) as [-> | Hne].
    + apply Rmax_r.
    + eapply Rle_trans; [apply IH; lia | apply Rmax_l].
Qed.

Lemma max_to_scal (f : nat -> R) (c : R) (k : nat) :
  0 <= c -> max_to (fun n => f n * c) k = max_to f k * c.
Proof.
  intros Hc. induction k as [|k IH]; cbn [max_to]; [reflexivity|].
  rewrite IH. rewrite !(Rmult_comm _ c). apply RmaxRmult. exact Hc.
Qed.

Lemma max_to_ext (f g : nat -> R) (k : nat) :
  (forall n, (n <= k)%nat -> f n = g n) -> max_to f k = max_to g k.
Proof.
  induction k as [|k IH]; intros H; cbn [max_to].
  - apply H; lia.
  - rewrite IH by (intros; apply H; lia). rewrite (H (S k)) by lia. reflexivity.
Qed.

(** When the scale is not negative, the scaled maximum of the raw scores
    is the maximum of the block's logits in the unmasked stages too. *)
Lemma block_row_max_is_max q K qk_scale HD BN STAGE offs_m offs_n start_n r :
  (STAGE = 2%nat \/ 0 <= qk_scale) ->
  block_row_max q K qk_scale HD BN STAGE offs_m offs_n start_n r
  = row_max (block_logits q K qk_scale HD STAGE offs_m offs_n start_n r) BN.
Proof.
  intros H. unfold block_row_max. destruct (Nat.eqb_spec STAGE 2) as [-> | Hne].
  - reflexivity.
  - destruct H as [H | H]; [contradiction|]. unfold row_max.
    rewrite <- max_to_scal by exact H. apply max_to_ext. intros n _.
    unfold block_logits. destruct (Nat.eqb_spec STAGE 2); [contradiction | ring].
Qed.

(** ** The epilogue *)

Lemma body_agree_acc_m q K V qk_scale HD BN STAGE offs_m offs_n st1 st2 start_n :
  agree_acc_m st1 st2 ->
  agree_acc_m (fwd_inner_body q K V qk_scale HD BN STAGE offs_m offs_n st1 start_n)
              (fwd_inner_body q K V qk_scale HD BN STAGE offs_m offs_n st2 start_n).
Proof.
  intros [Ha Hm]. split.
  - intros r d. cbn [fwd_inner_body acc]. rewrite (Ha r d), (Hm r). reflexivity.
  - intros r. cbn [fwd_inner_body m_i]. rewrite (Hm r). reflexivity.
Qed.

Lemma inner_agree_acc_m q K V start_m qk_scale BM HD BN STAGE offs_m offs_n N_CTX st1 st2 :
  agree_acc_m st1 st2 ->
  agree_acc_m
    (_attn_fwd_inner st1 q K V start_m qk_scale BM HD BN STAGE offs_m offs_n N_CTX)
    (_attn_fwd_inner st2 q K V start_m qk_scale BM HD BN STAGE offs_m offs_n N_CTX).
Proof.
  unfold _attn_fwd_inner. destruct (stage_bounds STAGE start_m BM N_CTX) as [lo hi].
  generalize (tl_range lo hi BN) as starts. intros starts. revert st1 st2.
  induction starts as [|s starts IH]; intros st1 st2 H; cbn [fold_left].
  - exact H.
  - apply IH. apply body_agree_acc_m. exact H.
Qed.

(** ** Backward pass *)

Lemma store_vec_spec (mem : nat -> R) (base : nat) (val : nat -> R) (n i : nat) :
  store_vec mem (fun r => (base + r)%nat) val n i
  = if ((base <=? i) && (i <? base + n))%nat then val (i - base)%nat else mem i.
Proof.
  unfold store_vec. induction n as [|n IH].
  - cbn [seq fold_left]. destruct (Nat.leb_spec base i); cbn [andb]; [|reflexivity].
    destruct (Nat.ltb_spec i (base + 0)); [lia | reflexivity].
  - rewrite seq_S, fold_left_app. cbn [fold_left Nat.add].
    destruct (Nat.eqb_spec i (base + n)) as [-> | Hne].
    + replace (base + n - base)%nat with n by lia.
      destruct (Nat.leb_spec base (base + n)); [|lia].
      destruct (Nat.ltb_spec (base + n) (base + S n)); [reflexivity | lia].
    + rewrite IH.
      destruct (Nat.leb_spec base i); cbn [andb]; [|reflexivity].
      destruct (Nat.ltb_spec i (base + n)), (Nat.ltb_spec i (base + S n));
        try reflexivity; lia.
Qed.

Lemma preprocess_spec O DO Delta pid BM HD i :
  _attn_bwd_preprocess O DO Delta pid BM HD i
  = if ((pid * BM <=? i) && (i <? pid * BM + BM))%nat
    then rsum (fun n => O i n * DO i n) HD else Delta i.
Proof.
  unfold _attn_bwd_preprocess, arange. rewrite store_vec_spec.
  destruct (Nat.leb_spec (pid * BM) i); cbn [andb]; [|reflexivity].
  destruct (Nat.ltb_spec i (pid * BM + BM)); [|reflexivity].
  replace (pid * BM + (i - pid * BM))%nat with i by lia. reflexivity.
Qed.

Lemma preprocess_prefix O DO Delta BM HD T i :
  fold_left (fun D pid => _attn_bwd_preprocess O DO D pid BM HD) (seq 0 T) Delta i
  = if (i <? T * BM)%nat then rsum (fun n => O i n * DO i n) HD else Delta i.
Proof.
  induction T as [|T IH].
  - cbn. reflexivity.
  - rewrite seq_S, fold_left_app. cbn [fold_left Nat.add].
    rewrite preprocess_spec, IH.
    destruct (Nat.leb_spec (T * BM) i), (Nat.ltb_spec i (T * BM + BM)),
             (Nat.ltb_spec i (T * BM)), (Nat.ltb_spec i (S T * BM));
      cbn [andb]; try reflexivity; lia.
Qed.

Lemma rsum_app (f : nat -> R) (a b : nat) :
  rsum f (a + b) = rsum f a + rsum (fun t => f (a + t)%nat) b.
Proof.
  induction b as [|b IH].
  - rewrite Nat.add_0_r. cbn [rsum]. ring.
  - rewrite Nat.add_succ_r. cbn [rsum]. rewrite IH. ring.
Qed.

Section DkDv.
Variables (Q k v DO : matrix) (M D : nat -> R).
Variables (BLOCK_M1 HEAD_DIM start_n : nat) (MASK : bool).

Local Abbreviation body := (bwd_dkdv_body Q k v DO M D BLOCK_M1 HEAD_DIM start_n MASK).
Local Abbreviation P := (bwd_P Q k M HEAD_DIM start_n MASK).
Local Abbreviation dS := (bwd_dS Q k v DO M D HEAD_DIM start_n MASK).

Lemma dkdv_body_step (st : dkdv_state) :
  curr_m (body st) = (curr_m st + BLOCK_M1)%nat
  /\ (forall n c, dv (body st) n c
                 = dv st n c
                   + rsum (fun r => P n (curr_m st + r)%nat * DO (curr_m st + r)%nat c)
                          BLOCK_M1)
  /\ (forall n c, dk (body st) n c
                 = dk st n c
                   + rsum (fun r => dS n (curr_m st + r)%nat * Q (curr_m st + r)%nat c)
                          BLOCK_M1).
Proof.
  split; [reflexivity|]. split; intros n c; cbn [bwd_dkdv_body dv dk]; f_equal;
    apply rsum_ext; intros r _; unfold bwd_dS, bwd_dP, bwd_P, arange;
    destruct MASK; cbn [andb];
    try (destruct (start_n + n <=? curr_m st + r)%nat; cbn [negb]); reflexivity.
Qed.

Lemma dkdv_iter (st0 : dkdv_state) (steps : nat) :
  let st := Nat.iter steps body st0 in
  curr_m st = (curr_m st0 + steps * BLOCK_M1)%nat
  /\ (forall n c, dv st n c
                 = dv st0 n c
                   + rsum (fun t => P n (curr_m st0 + t)%nat * DO (curr_m st0 + t)%nat c)
                          (steps * BLOCK_M1))
  /\ (forall n c, dk st n c
                 = dk st0 n c
                   + rsum (fun t => dS n (curr_m st0 + t)%nat * Q (curr_m st0 + t)%nat c)
                          (steps * BLOCK_M1)).
Proof.
  induction steps as [|steps IH]; cbn zeta.
  - change (Nat.iter 0 body st0) with st0. cbn [Nat.mul rsum].
    split; [lia|]. split; intros n c; ring.
  - cbn zeta in IH. destruct IH as (Hc & Hv & Hk).
    change (Nat.iter (S steps) body st0) with (body (Nat.iter steps body st0)).
    destruct (dkdv_body_step (Nat.iter steps body st0)) as (Hc' & Hv' & Hk').
    replace (S steps * BLOCK_M1)%nat with (steps * BLOCK_M1 + BLOCK_M1)%nat by lia.
    split; [rewrite Hc', Hc; lia|]. split; intros n c.
    + rewrite Hv', Hv, rsum_app, Hc, Rplus_assoc. f_equal. f_equal.
      apply rsum_ext. intros r _. rewrite Nat.add_assoc. reflexivity.
    + rewrite Hk', Hk, rsum_app, Hc, Rplus_assoc. f_equal. f_equal.
      apply rsum_ext. intros r _. rewrite Nat.add_assoc. reflexivity.
Qed.
End DkDv.

(** C5: after the preprocessing launch, [Delta] holds for every row the
    sum over the head dimension of [O * dO]; the dK/dV loop, run after
    it, recomputes for every query position of its steps the weight
    [P = exp2 (k.q - M)] from the saved row statistic [M] (zero where
    the mask excludes the position) and returns [dv + P^T dO] and
    [dk + dS^T Q] with [dS = P * (dP - Delta)], [dP = v dO^T], summed
    over the query positions of all steps. *)
Theorem bwd_delta_and_dkdv
    (O DO Q k v dk0 dv0 : matrix) (Delta0 M : nat -> R)
    (N_CTX PRE_BLOCK HEAD_DIM BLOCK_M1 start_n start_m num_steps : nat) (MASK : bool) :
  (0 < PRE_BLOCK)%nat -> (N_CTX mod PRE_BLOCK = 0)%nat ->
  (start_m + num_steps * BLOCK_M1 <= N_CTX)%nat ->
  let Delta := preprocess_grid O DO Delta0 N_CTX PRE_BLOCK HEAD_DIM in
  let P := bwd_P Q k M HEAD_DIM start_n MASK in
  let dP := bwd_dP v DO HEAD_DIM in
  let out := _attn_bwd_dkdv dk0 dv0 Q k v DO M Delta BLOCK_M1 HEAD_DIM
                            start_n start_m num_steps MASK in
  (forall i, (i < N_CTX)%nat -> Delta i = rsum (fun c => O i c * DO i c) HEAD_DIM)
  /\ (forall n i, P n i = if MASK && negb (start_n + n <=? i)%nat then 0
                          else exp2 (rsum (fun c => k n c * Q i c) HEAD_DIM - M i))
  /\ (forall n c, snd out n c
                  = dv0 n c
                    + rsum (fun t => P n (start_m + t)%nat * DO (start_m + t)%nat c)
                           (num_steps * BLOCK_M1))
  /\ (forall n c, fst out n c
                  = dk0 n c
                    + rsum (fun t =>
                              P n (start_m + t)%nat
                              * (dP n (start_m + t)%nat
                                 - rsum (fun c' => O (start_m + t)%nat c' * DO (start_m + t)%nat c')
                                        HEAD_DIM)
                              * Q (start_m + t)%nat c)
                           (num_steps * BLOCK_M1)).
Proof.
  intros HPB Hmod Hrange Delta P dP out.
  assert (HDelta : forall i, (i < N_CTX)%nat ->
                     Delta i = rsum (fun c => O i c * DO i c) HEAD_DIM).
  { intros i Hi. subst Delta. unfold preprocess_grid. rewrite preprocess_prefix.
    assert (HN : (N_CTX / PRE_BLOCK * PRE_BLOCK = N_CTX)%nat).
    { pose proof (Nat.div_mod_eq N_CTX PRE_BLOCK). lia. }
    rewrite HN. destruct (Nat.ltb_spec i N_CTX); [reflexivity | lia]. }
  split; [exact HDelta|]. split; [intros; reflexivity|].
  destruct (dkdv_iter Q k v DO M Delta BLOCK_M1 HEAD_DIM start_n MASK
              {| dk := dk0; dv := dv0; curr_m := start_m |} num_steps) as (_ & Hv & Hk).
  cbn [dk dv curr_m] in Hv, Hk. split; intros n c.
  - subst out. unfold _attn_bwd_dkdv. cbn [snd]. apply Hv.
  - subst out. unfold _attn_bwd_dkdv. cbn [fst]. rewrite Hk. f_equal.
    apply rsum_ext. intros t Ht. unfold bwd_dS. rewrite HDelta by lia. reflexivity.
Qed.

(** C5 for four rows preprocessed in blocks of two. *)
Lemma bwd_delta_and_dkdv_witness :
  (0 < 2)%nat /\ (4 mod 2 = 0)%nat /\ (0 + 2 * 1 <= 4)%nat /\
  forall i, (i < 4)%nat ->
    preprocess_grid (fun _ _ => 1) (fun _ _ => 2) (fun _ => 0) 4 2 1 i
    = rsum (fun c => (fun _ _ => 1) i c * (fun _ _ => 2) i c) 1.
Proof.
  assert (H1 : (0 < 2)%nat) by lia.
  assert (H2 : (4 mod 2 = 0)%nat) by reflexivity.
  assert (H3 : (0 + 2 * 1 <= 4)%nat) by (cbn; lia).
  split; [exact H1 | split; [exact H2 | split; [exact H3 |]]].
  exact (proj1 (bwd_delta_and_dkdv (fun _ _ => 1) (fun _ _ => 2) (fun _ _ => 1)
                  (fun _ _ => 1) (fun _ _ => 1) (fun _ _ => 0) (fun _ _ => 0)
                  (fun _ => 0) (fun _ => 0) 4 2 1 1 0 0 2 true H1 H2 H3)).
Defined.

(** ** The configuration filter *)

Lemma keep_false_iff (conf : Config) :
  keep conf = false
  <-> (BLOCK_M conf * BLOCK_N conf < 128 * 128)%nat /\ num_warps conf = 8%nat.
Proof.
  unfold keep.
  destruct (Nat.ltb_spec (BLOCK_M conf * BLOCK_N conf) (128 * 128)) as [Hlt | Hge];
    destruct (Nat.eqb_spec (num_warps conf) 8) as [He | Hne]; cbn [andb];
    split; intros H; try discriminate; try (split; assumption); try reflexivity;
    destruct H; try contradiction; lia.
Qed.

Lemma keep_true_iff (conf : Config) :
  keep conf = true
  <-> (128 * 128 <= BLOCK_M conf * BLOCK_N conf)%nat \/ num_warps conf <> 8%nat.
Proof.
  destruct (keep conf) eqn:Hk.
  - split; [intros _ | reflexivity].
    destruct (Nat.lt_ge_cases (BLOCK_M conf * BLOCK_N conf) (128 * 128)) as [Hlt | Hge];
      [|left; exact Hge].
    right. intros Hw. assert (keep conf = false) by (apply keep_false_iff; auto).
    congruence.
  - apply keep_false_iff in Hk. destruct Hk as [Hlt Hw].
    split; [discriminate|]. intros [Hge | Hne]; [lia | contradiction].
Qed.

(** C8 (amended): [keep] rejects a candidate exactly when its tile area
    [BLOCK_M * BLOCK_N] is below [128 * 128] and it asks for 8 warps;
    every other candidate is kept, and each autotuned pool is the
    candidate list filtered by [keep]. *)
Theorem keep_rejects_small_tiles_with_8_warps (conf : Config) :
  (keep conf = false
   <-> (BLOCK_M conf * BLOCK_N conf < 128 * 128)%nat /\ num_warps conf = 8%nat)
  /\ (keep conf = true
      <-> (128 * 128 <= BLOCK_M conf * BLOCK_N conf)%nat \/ num_warps conf <> 8%nat)
  /\ (forall env,
        (In conf (pool_attn_fwd env) <-> In conf (configsOrig env) /\ keep conf = true)
        /\ (In conf (pool_attn_fwd_ws env) <-> In conf (configsWS env) /\ keep conf = true)
        /\ (In conf (pool_attn_fwd_opt env) <-> In conf (configsOpt env) /\ keep conf = true)
        /\ (In conf (pool_attn_fwd_tma env) <-> In conf (configsTma env) /\ keep conf = true)
        /\ (In conf (pool_attn_fwd_tma_ws env)
            <-> In conf (configsTmaWS env) /\ keep conf = true)).
Proof.
  split; [apply keep_false_iff|]. split; [apply keep_true_iff|].
  intros env. unfold pool_attn_fwd, pool_attn_fwd_ws, pool_attn_fwd_opt,
    pool_attn_fwd_tma, pool_attn_fwd_tma_ws.
  split; [apply filter_In|]. split; [apply filter_In|]. split; [apply filter_In|].
  split; apply filter_In.
Qed.

(** C8 (counterexample): no threshold on tile area times warps, even one
    that depends on the larger tile dimension, describes [keep] on the
    candidates of [configsOrig]: the candidate with 64 x 64 tiles and 8
    warps is rejected while the one with the same tiles and 4 warps,
    whose product is smaller, is kept. *)
Lemma keep_is_not_a_product_threshold :
  ~ exists theta : nat -> nat,
      forall c, In c (configsOrig plain_env) ->
                (keep c = false
                 <-> (BLOCK_M c * BLOCK_N c * num_warps c
                      < theta (Nat.max (BLOCK_M c) (BLOCK_N c)))%nat).
Proof.
  intros [theta H].
  assert (In8 : In conf_64_64_w8 (configsOrig plain_env)) by (vm_compute; tauto).
  assert (In4 : In conf_64_64_w4 (configsOrig plain_env)) by (vm_compute; tauto).
  pose proof (proj1 (H conf_64_64_w8 In8) eq_refl) as H8.
  assert (H4 : keep conf_64_64_w4 <> false) by (vm_compute; discriminate).
  apply H4. apply (H conf_64_64_w4 In4).
  cbn [conf_64_64_w8 conf_64_64_w4 BLOCK_M BLOCK_N num_warps] in *.
  replace (Nat.max 64 64) with 64%nat in * by reflexivity. lia.
Qed.

(** ** Tiles wider than the head dimension *)

(** C9 (counterexample): the candidate with [BLOCK_N = 128] is in the
    filtered pool of [_attn_fwd] although [BLOCK_N] exceeds the
    supported head dimension 64; instantiating the kernel with it for
    that head dimension fails the static assertion. *)
Lemma oversized_tile_survives_keep :
  In conf_128_128_w8 (pool_attn_fwd plain_env)
  /\ In 64%nat supported_head_dims
  /\ (64 < BLOCK_N conf_128_128_w8)%nat
  /\ _attn_fwd conf_128_128_w8 LOG2E_literal (fun _ _ => 0) (fun _ _ => 0) (fun _ _ => 0)
               1 0 128 64 1
     = CompileTimeAssertionFailure.
Proof.
  split; [vm_compute; tauto|]. split; [vm_compute; tauto|].
  split; [cbn; lia|]. reflexivity.
Qed.

(** C9 (amended): [keep] does not look at the head dimension, so a
    candidate whose [BLOCK_N] exceeds it stays in the pool whenever its
    tile area and warp count pass; every forward entry point then fails
    its static assertion for such a candidate and its body does not
    run. *)
Theorem oversized_tile_rejected_by_static_assert
    (conf : Config) (HEAD_DIM : nat) (LOG2E : R) (Q K V : matrix) (sm_scale : R)
    (start_m N_CTX STAGE : nat) :
  (HEAD_DIM < BLOCK_N conf)%nat ->
  (forall pool, In conf pool ->
     ((128 * 128 <= BLOCK_M conf * BLOCK_N conf)%nat \/ num_warps conf <> 8%nat) ->
     In conf (filter keep pool))
  /\ _attn_fwd conf LOG2E Q K V sm_scale start_m N_CTX HEAD_DIM STAGE
     = CompileTimeAssertionFailure
  /\ _attn_fwd_ws conf LOG2E Q K V sm_scale start_m N_CTX HEAD_DIM STAGE
     = CompileTimeAssertionFailure
  /\ _attn_fwd_opt conf LOG2E Q K V sm_scale start_m N_CTX HEAD_DIM STAGE
     = CompileTimeAssertionFailure
  /\ _attn_fwd_tma conf LOG2E Q K V sm_scale start_m N_CTX HEAD_DIM STAGE
     = CompileTimeAssertionFailure
  /\ _attn_fwd_tma_ws conf LOG2E Q K V sm_scale start_m N_CTX HEAD_DIM STAGE
     = CompileTimeAssertionFailure.
Proof.
  intros Hlt.
  assert (He : forall compute,
               fwd_entry compute conf LOG2E Q K V sm_scale start_m N_CTX HEAD_DIM STAGE
               = CompileTimeAssertionFailure).
  { intros compute. unfold fwd_entry.
    destruct (Nat.leb_spec (BLOCK_N conf) HEAD_DIM); [lia | reflexivity]. }
  split; [|repeat split; apply He].
  intros pool Hin Hk. apply filter_In. split; [exact Hin|].
  apply keep_true_iff. exact Hk.
Qed.

(** C9 (amended) at [BLOCK_N = 128] and head dimension 64. *)
Lemma oversized_tile_rejected_by_static_assert_witness :
  (64 < BLOCK_N conf_128_128_w8)%nat
  /\ _attn_fwd conf_128_128_w8 LOG2E_literal (fun _ _ => 0) (fun _ _ => 0) (fun _ _ => 0)
               1 0 128 64 3
     = CompileTimeAssertionFailure.
Proof.
  assert (H : (64 < BLOCK_N conf_128_128_w8)%nat) by (cbn; lia).
  split; [exact H|].
  exact (proj1 (proj2 (oversized_tile_rejected_by_static_assert conf_128_128_w8 64
                         LOG2E_literal (fun _ _ => 0) (fun _ _ => 0) (fun _ _ => 0)
                         1 0 128 3 H))).
Defined.

(** ** Validation and dispatch in [forward] *)

Lemma dispatch_some_iff (baseVariant : string) :
  (exists kw, dispatch baseVariant = Some kw) <-> In baseVariant recognized_variants.
Proof.
  unfold dispatch, recognized_variants. cbn [In].
  destruct (String.eqb_spec baseVariant "base") as [-> | H1]; [split; eauto|].
  destruct (String.eqb_spec baseVariant "ws") as [-> | H2]; [split; eauto|].
  destruct (String.eqb_spec baseVariant "opt") as [-> | H3]; [split; eauto 6|].
  destruct (String.eqb_spec baseVariant "tma") as [-> | H4]; [split; eauto 6|].
  destruct (String.eqb_spec baseVariant "tma_ws") as [-> | H5]; [split; eauto 7|].
  split.
  - intros [kw Hkw]. discriminate.
  - intros [H | [H | [H | [H | [H | []]]]]]; congruence.
Qed.

Lemma dispatch_none_iff (baseVariant : string) :
  dispatch baseVariant = None <-> ~ In baseVariant recognized_variants.
Proof.
  rewrite <- dispatch_some_iff. destruct (dispatch baseVariant) as [kw|].
  - split; [discriminate|]. intros H. exfalso. apply H. eauto.
  - split; [|reflexivity]. intros _ [kw Hkw]. discriminate.
Qed.

Lemma head_dims_checked (q k v : tensor) :
  negb ((HEAD_DIM_Q q =? HEAD_DIM_K k)%nat && (HEAD_DIM_K k =? HEAD_DIM_V v)%nat) = false
  /\ negb (existsb (Nat.eqb (HEAD_DIM_K k)) supported_head_dims) = false
  <-> HEAD_DIM_Q q = HEAD_DIM_K k /\ HEAD_DIM_K k = HEAD_DIM_V v
      /\ In (HEAD_DIM_K k) supported_head_dims.
Proof.
  rewrite !negb_false_iff, andb_true_iff, !Nat.eqb_eq, existsb_exists.
  split.
  - intros [[H1 H2] (x & Hx & Hxe)]. apply Nat.eqb_eq in Hxe. subst x. auto.
  - intros (H1 & H2 & H3). split; [auto|]. exists (HEAD_DIM_K k).
    split; [exact H3 | apply Nat.eqb_refl].
Qed.

(** C7 (counterexample): the head dimensions agree and are supported,
    and [forward] attempts no launch, because the variant string is not
    one the dispatch chain knows. *)
Lemma valid_head_dims_without_launch :
  HEAD_DIM_Q t_1_1_128_64 = HEAD_DIM_K t_1_1_128_64
  /\ HEAD_DIM_K t_1_1_128_64 = HEAD_DIM_V t_1_1_128_64
  /\ In (HEAD_DIM_K t_1_1_128_64) supported_head_dims
  /\ attempted (forward (fun _ => true) t_1_1_128_64 t_1_1_128_64 t_1_1_128_64
                        false 1 "base2") = [].
Proof.
  split; [reflexivity|]. split; [reflexivity|].
  split; [vm_compute; tauto | reflexivity].
Qed.

(** C7 (amended): [forward] raises the assertion error, before any
    launch, exactly when the head dimensions of [q], [k], [v] disagree
    or the head dimension is not one of 16, 32, 64, 128, 256; otherwise
    the validation passes, and one kernel launch is attempted when
    [baseVariant] is one of the five recognized strings (none
    otherwise). *)
Theorem forward_validates_head_dims
    (launch_ok : launch -> bool) (q k v : tensor) (causal : bool) (sm_scale : R)
    (baseVariant : string) :
  let out := forward launch_ok q k v causal sm_scale baseVariant in
  let valid := HEAD_DIM_Q q = HEAD_DIM_K k /\ HEAD_DIM_K k = HEAD_DIM_V v
               /\ In (HEAD_DIM_K k) supported_head_dims in
  (~ valid -> res out = Raised AssertionError /\ attempted out = [])
  /\ (valid ->
      res out <> Raised AssertionError
      /\ (In baseVariant recognized_variants ->
          exists l, attempted out = [l]
                    /\ l_HEAD_DIM l = HEAD_DIM_K k /\ l_N_CTX l = shape2 q
                    /\ l_STAGE l = stage_of_causal causal /\ l_sm_scale l = sm_scale)
      /\ (~ In baseVariant recognized_variants -> attempted out = [])).
Proof.
  intros out valid. subst out valid. unfold forward.
  pose proof (head_dims_checked q k v) as Hchk.
  destruct (negb ((HEAD_DIM_Q q =? HEAD_DIM_K k)%nat && (HEAD_DIM_K k =? HEAD_DIM_V v)%nat))
    eqn:Hb1.
  - split; [intros _; split; reflexivity|].
    intros Hv. apply Hchk in Hv. destruct Hv; discriminate.
  - destruct (negb (existsb (Nat.eqb (HEAD_DIM_K k)) supported_head_dims)) eqn:Hb2.
    + split; [intros _; split; reflexivity|].
      intros Hv. apply Hchk in Hv. destruct Hv; discriminate.
    + split; [intros Hn; exfalso; apply Hn, Hchk; split; reflexivity|].
      intros _. destruct (dispatch baseVariant) as [[kern ws]|] eqn:Hd.
      * split; [cbn [res]; destruct (launch_ok _); discriminate|]. split.
        -- intros _. eexists. split; [reflexivity|]. cbn. repeat split; reflexivity.
        -- intros Hn. apply dispatch_none_iff in Hn. congruence.
      * split; [cbn [res]; discriminate|]. split; [|reflexivity].
        intros Hin. apply dispatch_some_iff in Hin. destruct Hin as [kw Hkw]. congruence.
Qed.

(** C10: with head dimensions that pass the validation and a variant
    string outside the recognized five, [forward] launches no kernel,
    raises nothing and returns [o] (and saves [M]) as allocated. *)
Theorem forward_unrecognized_variant_returns_uninitialized
    (launch_ok : launch -> bool) (q k v : tensor) (causal : bool) (sm_scale : R)
    (baseVariant : string) :
  ~ In baseVariant recognized_variants ->
  HEAD_DIM_Q q = HEAD_DIM_K k -> HEAD_DIM_K k = HEAD_DIM_V v ->
  In (HEAD_DIM_K k) supported_head_dims ->
  forward launch_ok q k v causal sm_scale baseVariant
  = mk_outcome [] (Returned Uninitialized Uninitialized).
Proof.
  intros Hn H1 H2 H3. unfold forward.
  destruct (proj2 (head_dims_checked q k v) (conj H1 (conj H2 H3))) as [-> ->].
  apply dispatch_none_iff in Hn. rewrite Hn. reflexivity.
Qed.

(** C10 for the misspelt variant [tma-ws]. *)
Lemma forward_unrecognized_variant_returns_uninitialized_witness :
  ~ In "tma-ws"%string recognized_variants
  /\ forward (fun _ => true) t_1_1_128_64 t_1_1_128_64 t_1_1_128_64 true 1 "tma-ws"
     = mk_outcome [] (Returned Uninitialized Uninitialized).
Proof.
  assert (Hn : ~ In "tma-ws"%string recognized_variants).
  { apply dispatch_none_iff. reflexivity. }
  split; [exact Hn|].
  apply (forward_unrecognized_variant_returns_uninitialized (fun _ => true)
           t_1_1_128_64 t_1_1_128_64 t_1_1_128_64 true 1 "tma-ws" Hn eq_refl eq_refl).
  vm_compute. tauto.
Defined.

(** ** Further properties of the forward kernel *)

(** When the key tile divides the query tile, the stages of a causal
    program load exactly the keys before the query tile (unmasked) and
    the keys of the diagonal block (masked), nothing after it; when it
    divides the sequence length, the single stage of a non-causal
    program loads every key once. *)
Theorem stage_ranges_exact_when_tiles_nest (start_m BM BN N_CTX : nat) :
  (0 < BN)%nat ->
  (Nat.divide BN BM ->
     stage_keys 1 start_m BM BN N_CTX = seq 0 (start_m * BM)
     /\ stage_keys 2 start_m BM BN N_CTX = seq (start_m * BM) BM
     /\ forall j, In j (stage_keys 1 start_m BM BN N_CTX ++ stage_keys 2 start_m BM BN N_CTX)
                  -> (j < start_m * BM + BM)%nat)
  /\ (Nat.divide BN N_CTX -> stage_keys 3 start_m BM BN N_CTX = seq 0 N_CTX).
Proof.
  intros HBN. split.
  - intros Hdiv. rewrite stage_keys_off_band, stage_keys_on_band by assumption.
    split; [reflexivity|]. split; [reflexivity|].
    intros j Hj. apply in_app_or in Hj. rewrite !in_seq in Hj. lia.
  - intros Hdiv. apply stage_keys_noncausal; assumption.
Qed.

Lemma stage_ranges_exact_when_tiles_nest_witness :
  (0 < 64)%nat
  /\ (Nat.divide 64 128 ->
      stage_keys 1 1 128 64 256 = seq 0 (1 * 128)
      /\ stage_keys 2 1 128 64 256 = seq (1 * 128) 128
      /\ forall j, In j (stage_keys 1 1 128 64 256 ++ stage_keys 2 1 128 64 256)
                   -> (j < 1 * 128 + 128)%nat).
Proof.
  assert (H : (0 < 64)%nat) by lia.
  split; [exact H|].
  exact (proj1 (stage_ranges_exact_when_tiles_nest 1 128 64 256 H)).
Defined.

(** In non-causal mode the output row of a program is the weighted mean
    of the value rows of the keys it loads, with the base-2 weights
    [exp2 (q.k * sm_scale * LOG2E)], and the row statistic it stores is
    the base-2 logarithm of the total weight (the log-sum-exp of the
    row).  Nothing is assumed about [LOG2E]. *)
Theorem fwd_noncausal_output_is_weighted_mean
    LOG2E Q K V sm_scale start_m N_CTX BM BN HD r :
  (0 < BN)%nat -> (0 < N_CTX)%nat ->
  let i := fwd_offs_m start_m BM r in
  let s := sm_scale * LOG2E in
  let out := _attn_fwd_compute LOG2E Q K V sm_scale start_m N_CTX BM BN HD
                               (stage_of_causal false) in
  (forall d, Out_tile out r d
             = lsum (fun j => weight2 Q K HD s 3 i j * V j d)
                    (stage_keys 3 start_m BM BN N_CTX)
               / lsum (weight2 Q K HD s 3 i) (stage_keys 3 start_m BM BN N_CTX))
  /\ M_tile out r
     = Fin (log2 (lsum (weight2 Q K HD s 3 i) (stage_keys 3 start_m BM BN N_CTX))).
Proof.
  intros HBN HN. exact (fwd_noncausal_closed_form LOG2E Q K V sm_scale start_m N_CTX
                          BM BN HD r HBN HN).
Qed.

Lemma fwd_noncausal_output_is_weighted_mean_witness :
  (0 < 64)%nat /\ (0 < 128)%nat
  /\ M_tile (_attn_fwd_compute LOG2E_literal (fun _ _ => 1) (fun _ _ => 1) (fun _ _ => 1)
               1 0 128 64 64 64 (stage_of_causal false)) 0%nat
     = Fin (log2 (lsum (weight2 (fun _ _ => 1) (fun _ _ => 1) 64 (1 * LOG2E_literal) 3
                                (fwd_offs_m 0 64 0))
                       (stage_keys 3 0 64 64 128))).
Proof.
  assert (H1 : (0 < 64)%nat) by lia.
  assert (H2 : (0 < 128)%nat) by lia.
  split; [exact H1 | split; [exact H2 |]].
  exact (proj2 (fwd_noncausal_output_is_weighted_mean LOG2E_literal (fun _ _ => 1)
                  (fun _ _ => 1) (fun _ _ => 1) 1 0 128 64 64 64 0 H1 H2)).
Defined.

(** In causal mode the output row is the weighted mean over the keys of
    both stages: those of the unmasked stage with their plain weight,
    those of the masked stage with the weight of their masked logit
    (the mask value added above the diagonal); the row statistic is the
    base-2 logarithm of the total weight. *)
Theorem fwd_causal_output_is_weighted_mean
    LOG2E Q K V sm_scale start_m N_CTX BM BN HD r :
  (0 < BN)%nat -> (0 < BM)%nat ->
  let i := fwd_offs_m start_m BM r in
  let s := sm_scale * LOG2E in
  let out := _attn_fwd_compute LOG2E Q K V sm_scale start_m N_CTX BM BN HD
                               (stage_of_causal true) in
  let keys1 := stage_keys 1 start_m BM BN N_CTX in
  let keys2 := stage_keys 2 start_m BM BN N_CTX in
  let Z := lsum (weight2 Q K HD s 1 i) keys1 + lsum (weight2 Q K HD s 2 i) keys2 in
  (forall d, Out_tile out r d
             = (lsum (fun j => weight2 Q K HD s 1 i j * V j d) keys1
                + lsum (fun j => weight2 Q K HD s 2 i j * V j d) keys2) / Z)
  /\ M_tile out r = Fin (log2 Z).
Proof.
  intros HBN HBM. exact (fwd_causal_closed_form LOG2E Q K V sm_scale start_m N_CTX
                           BM BN HD r HBN HBM).
Qed.

Lemma fwd_causal_output_is_weighted_mean_witness :
  (0 < 64)%nat /\ (0 < 128)%nat
  /\ M_tile (_attn_fwd_compute LOG2E_literal (fun _ _ => 1) (fun _ _ => 1) (fun _ _ => 1)
               1 1 256 128 64 64 (stage_of_causal true)) 0%nat
     = Fin (log2 (lsum (weight2 (fun _ _ => 1) (fun _ _ => 1) 64 (1 * LOG2E_literal) 1
                                (fwd_offs_m 1 128 0))
                       (stage_keys 1 1 128 64 256)
                  + lsum (weight2 (fun _ _ => 1) (fun _ _ => 1) 64 (1 * LOG2E_literal) 2
                                  (fwd_offs_m 1 128 0))
                         (stage_keys 2 1 128 64 256))).
Proof.
  assert (H1 : (0 < 64)%nat) by lia.
  assert (H2 : (0 < 128)%nat) by lia.
  split; [exact H1 | split; [exact H2 |]].
  exact (proj2 (fwd_causal_output_is_weighted_mean LOG2E_literal (fun _ _ => 1)
                  (fun _ _ => 1) (fun _ _ => 1) 1 1 256 128 64 64 0 H1 H2)).
Defined.

Lemma lsum_weighted_bounds (w v : nat -> R) (lo hi : R) (l : list nat) :
  (forall j, 0 < w j) -> (forall j, In j l -> lo <= v j <= hi) ->
  lo * lsum w l <= lsum (fun j => w j * v j) l <= hi * lsum w l.
Proof.
  intros Hw. induction l as [|a l IH]; intros Hv; cbn [lsum]; [lra|].
  assert (Ha := Hv a (or_introl eq_refl)).
  assert (IH' := IH (fun j Hj => Hv j (or_intror Hj))).
  specialize (Hw a). nra.
Qed.

Lemma Rdiv_between (n z lo hi : R) :
  0 < z -> lo * z <= n <= hi * z -> lo <= n / z <= hi.
Proof.
  intros Hz [H1 H2]. split.
  - apply Rmult_le_reg_r with z; [exact Hz|].
    unfold Rdiv. rewrite Rmult_assoc, Rinv_l by lra. lra.
  - apply Rmult_le_reg_r with z; [exact Hz|].
    unfold Rdiv. rewrite Rmult_assoc, Rinv_l by lra. lra.
Qed.

(** Every output entry lies between the bounds of the value column it
    averages: the weights are positive and the running sum by which the
    epilogue divides is their total. *)
Theorem fwd_output_within_value_bounds
    LOG2E Q K V sm_scale start_m N_CTX BM BN HD (causal : bool) (lo hi : R) (d : nat) :
  (0 < BN)%nat -> (0 < BM)%nat -> (0 < N_CTX)%nat ->
  (forall j, lo <= V j d <= hi) ->
  forall r,
    lo <= Out_tile (_attn_fwd_compute LOG2E Q K V sm_scale start_m N_CTX BM BN HD
                                      (stage_of_causal causal)) r d <= hi.
Proof.
  intros HBN HBM HN HV r. destruct causal; cbn [stage_of_causal].
  - destruct (fwd_causal_closed_form LOG2E Q K V sm_scale start_m N_CTX BM BN HD r HBN HBM)
      as [Ho _]. rewrite Ho. clear Ho.
    pose proof (stage_Z_nonneg Q K HD (sm_scale * LOG2E) 1 start_m BM BN N_CTX
                  (fwd_offs_m start_m BM r)) as HZ1.
    pose proof (stage_Z_pos Q K HD (sm_scale * LOG2E) 2 start_m BM BN N_CTX
                  (fwd_offs_m start_m BM r)
                  (stage_keys_on_band_nonempty start_m BM BN N_CTX HBN HBM)) as HZ2.
    apply Rdiv_between; [lra|]. unfold stage_N, stage_Z in *.
    pose proof (lsum_weighted_bounds
                  (weight2 Q K HD (sm_scale * LOG2E) 1 (fwd_offs_m start_m BM r))
                  (fun j => V j d) lo hi (stage_keys 1 start_m BM BN N_CTX)
                  (fun j => exp2_pos _) (fun j _ => HV j)) as B1.
    pose proof (lsum_weighted_bounds
                  (weight2 Q K HD (sm_scale * LOG2E) 2 (fwd_offs_m start_m BM r))
                  (fun j => V j d) lo hi (stage_keys 2 start_m BM BN N_CTX)
                  (fun j => exp2_pos _) (fun j _ => HV j)) as B2.
    lra.
  - destruct (fwd_noncausal_closed_form LOG2E Q K V sm_scale start_m N_CTX BM BN HD r HBN HN)
      as [Ho _]. rewrite Ho. clear Ho.
    pose proof (stage_Z_pos Q K HD (sm_scale * LOG2E) 3 start_m BM BN N_CTX
                  (fwd_offs_m start_m BM r)
                  (stage_keys_full_nonempty start_m BM BN N_CTX HBN HN)) as HZ.
    apply Rdiv_between; [lra|]. unfold stage_N, stage_Z in *.
    apply (lsum_weighted_bounds
             (weight2 Q K HD (sm_scale * LOG2E) 3 (fwd_offs_m start_m BM r))
             (fun j => V j d) lo hi); [intros; apply exp2_pos | intros; apply HV].
Qed.

Lemma fwd_output_within_value_bounds_witness :
  (0 < 64)%nat /\ (0 < 128)%nat /\ (0 < 256)%nat
  /\ 0 <= Out_tile (_attn_fwd_compute LOG2E_literal leak_Q leak_K leak_V1 1 1 256 128 64 64
                                      (stage_of_causal true)) 5%nat 0%nat <= 1.
Proof.
  assert (H1 : (0 < 64)%nat) by lia.
  assert (H2 : (0 < 128)%nat) by lia.
  assert (H3 : (0 < 256)%nat) by lia.
  split; [exact H1 | split; [exact H2 | split; [exact H3 |]]].
  apply (fwd_output_within_value_bounds LOG2E_literal leak_Q leak_K leak_V1 1 1 256 128 64 64
           true 0 1 0 H1 H2 H3).
  intros j. unfold leak_V1. destruct (j =? 1)%nat; lra.
Defined.

Lemma exp2_le_1 (y : R) : y <= 0 -> exp2 y <= 1.
Proof.
  intros Hy. unfold exp2. rewrite <- exp_0.
  pose proof ln2_pos as Hl.
  destruct (Req_dec (y * ln 2) 0) as [-> | Hne]; [lra|].
  left. apply exp_increasing. nra.
Qed.

Lemma tl_maximum_ge_r (m : ereal) (x : R) : x <= tl_maximum m x.
Proof. destruct m; cbn [tl_maximum]; [lra | apply Rmax_r]. Qed.

Lemma exp2_diff_le_1 (m : ereal) (x : R) : 0 <= exp2_diff m (tl_maximum m x) <= 1.
Proof.
  destruct m as [|y]; cbn [exp2_diff tl_maximum]; [lra|].
  split; [left; apply exp2_pos|]. apply exp2_le_1.
  pose proof (Rmax_l y x). lra.
Qed.

Lemma body_exponents_bounded
    (q K : matrix) (qk_scale : R) (HD BN STAGE : nat)
    (offs_m offs_n : nat -> nat) (st : fwd_state) (start_n r : nat) :
  (STAGE = 2%nat \/ 0 <= qk_scale) ->
  let x := block_logits q K qk_scale HD STAGE offs_m offs_n start_n r in
  let m_new := tl_maximum (m_i st r)
                 (block_row_max q K qk_scale HD BN STAGE offs_m offs_n start_n r) in
  (forall n, (n < BN)%nat -> x n <= m_new /\ 0 < exp2 (x n - m_new) <= 1)
  /\ 0 <= exp2_diff (m_i st r) m_new <= 1.
Proof.
  intros Hs x m_new. split.
  - intros n Hn.
    assert (Hle : x n <= m_new).
    { subst m_new x. rewrite block_row_max_is_max by exact Hs.
      eapply Rle_trans; [|apply tl_maximum_ge_r].
      unfold row_max. apply max_to_ge. lia. }
    split; [exact Hle|]. split; [apply exp2_pos | apply exp2_le_1; lra].
  - apply exp2_diff_le_1.
Qed.



(** ** The backward weights and the forward statistic *)

Lemma exp2_log2 (z : R) : 0 < z -> exp2 (log2 z) = z.
Proof.
  intros Hz. unfold exp2, log2.
  replace (ln z / ln 2 * ln 2) with (ln z)
    by (field; apply Rgt_not_eq, ln2_pos).
  apply exp_ln. exact Hz.
Qed.

(** ** The pools after filtering *)

(** Of the 24 candidates of [configsOrig], [keep] removes the nine with
    8 warps and a tile smaller than 128 x 128; the candidates of the
    other four pools all have 128 x 128 tiles and are all kept. *)
Theorem pools_after_keep (env : build_env) :
  List.length (configsOrig env) = 24%nat
  /\ List.length (pool_attn_fwd env) = 15%nat
  /\ pool_attn_fwd_ws env = configsWS env
  /\ pool_attn_fwd_opt env = configsOpt env
  /\ pool_attn_fwd_tma env = configsTma env
  /\ pool_attn_fwd_tma_ws env = configsTmaWS env.
Proof.
  destruct env as [[|] [|] [|]]; vm_compute; repeat split; reflexivity.
Qed.

(** ** Tile-size invariance *)

(** In non-causal mode the output row of a query position does not
    depend on the tile sizes, as long as the key tile divides the
    sequence length: two programs that hold the same query position
    under two tilings store the same row.  Nothing is assumed about
    [LOG2E]. *)
Theorem fwd_noncausal_tile_size_invariant
    LOG2E Q K V sm_scale N_CTX HD (start_m BM BN r start_m' BM' BN' r' : nat) :
  (0 < BN)%nat -> (0 < BN')%nat -> Nat.divide BN N_CTX -> Nat.divide BN' N_CTX ->
  (start_m * BM + r = start_m' * BM' + r')%nat ->
  forall d,
    Out_tile (_attn_fwd_compute LOG2E Q K V sm_scale start_m N_CTX BM BN HD 1) r d
    = Out_tile (_attn_fwd_compute LOG2E Q K V sm_scale start_m' N_CTX BM' BN' HD 1) r' d.
Proof.
  intros HBN HBN' Hdiv Hdiv' Hrow d.
  destruct (Nat.eq_dec N_CTX 0) as [-> | HN].
  - unfold _attn_fwd_compute. rewrite !fwd_loops_noncausal.
    unfold _attn_fwd_inner, stage_bounds, tl_range. cbn [Nat.eqb Nat.sub Nat.add].
    replace ((BN - 1) / BN)%nat with 0%nat by (symmetry; apply Nat.div_small; lia).
    replace ((BN' - 1) / BN')%nat with 0%nat by (symmetry; apply Nat.div_small; lia).
    reflexivity.
  - destruct (fwd_noncausal_closed_form LOG2E Q K V sm_scale start_m N_CTX BM BN HD r HBN
                ltac:(lia)) as [Ho _].
    destruct (fwd_noncausal_closed_form LOG2E Q K V sm_scale start_m' N_CTX BM' BN' HD r' HBN'
                ltac:(lia)) as [Ho' _].
    rewrite Ho, Ho'. unfold stage_N, stage_Z, fwd_offs_m, arange.
    rewrite !stage_keys_noncausal by assumption. rewrite Hrow. reflexivity.
Qed.

Lemma fwd_noncausal_tile_size_invariant_witness :
  (0 < 128)%nat /\ (0 < 64)%nat /\ Nat.divide 128 256 /\ Nat.divide 64 256
  /\ (1 * 128 + 3 = 0 * 256 + 131)%nat
  /\ Out_tile (_attn_fwd_compute LOG2E_literal leak_Q leak_K leak_V1 1 1 256 128 128 64 1)
              3%nat 0%nat
     = Out_tile (_attn_fwd_compute LOG2E_literal leak_Q leak_K leak_V1 1 0 256 256 64 64 1)
                131%nat 0%nat.
Proof.
  assert (H1 : (0 < 128)%nat) by lia.
  assert (H2 : (0 < 64)%nat) by lia.
  assert (H3 : Nat.divide 128 256) by (exists 2%nat; reflexivity).
  assert (H4 : Nat.divide 64 256) by (exists 4%nat; reflexivity).
  assert (H5 : (1 * 128 + 3 = 0 * 256 + 131)%nat) by reflexivity.
  split; [exact H1 | split; [exact H2 | split; [exact H3 | split; [exact H4 |
    split; [exact H5 |]]]]].
  exact (fwd_noncausal_tile_size_invariant LOG2E_literal leak_Q leak_K leak_V1 1 256 64
           1 128 128 3 0 256 64 131 H1 H2 H3 H4 H5 0%nat).
Defined.

(** ** The running maximum *)

Lemma max_to_attained (f : nat -> R) (k : nat) :
  exists n, (n <= k)%nat /\ max_to f k = f n.
Proof.
  induction k as [|k [n [Hn IH]]]; cbn [max_to].
  - exists 0%nat. split; [lia | reflexivity].
  - destruct (Rmax_case (max_to f k) (f (S k)) (fun x => x = max_to f k \/ x = f (S k)))
      as [H | H]; [left; reflexivity | right; reflexivity | |].
    + exists n. split; [lia | congruence].
    + exists (S k). split; [lia | exact H].
Qed.

Section RunningMax.
Variables (Q K V : matrix) (qk_scale : R).
Variables (HEAD_DIM BLOCK_N BLOCK_M start_m : nat).
Hypothesis HBN : (0 < BLOCK_N)%nat.

Local Abbreviation q := (q_tile Q start_m BLOCK_M).
Local Abbreviation offs_m := (fwd_offs_m start_m BLOCK_M).

Lemma block_logits_logit2 STAGE start_n r n :
  block_logits q K qk_scale HEAD_DIM STAGE offs_m arange start_n r n
  = logit2 Q K HEAD_DIM qk_scale STAGE (offs_m r) (start_n + n).
Proof. reflexivity. Qed.

Lemma body_is_max_of STAGE st start_n r seen :
  (STAGE = 2%nat \/ 0 <= qk_scale) ->
  is_max_of (m_i st r) seen ->
  is_max_of (m_i (fwd_inner_body q K V qk_scale HEAD_DIM BLOCK_N STAGE offs_m arange
                                 st start_n) r)
            (seen ++ map (logit2 Q K HEAD_DIM qk_scale STAGE (offs_m r))
                         (tile_keys BLOCK_N start_n)).
Proof.
  intros Hs Hinv.
  destruct (body_exponents_bounded q K qk_scale HEAD_DIM BLOCK_N STAGE offs_m arange
              st start_n r Hs) as [Hb _]. cbn zeta in Hb.
  assert (Hm : m_i (fwd_inner_body q K V qk_scale HEAD_DIM BLOCK_N STAGE offs_m arange
                                   st start_n) r
               = Fin (tl_maximum (m_i st r)
                        (block_row_max q K qk_scale HEAD_DIM BLOCK_N STAGE offs_m arange
                                       start_n r))).
  { cbn [fwd_inner_body m_i]. unfold block_row_max, block_logits.
    destruct (STAGE =? 2)%nat; reflexivity. }
  rewrite Hm. clear Hm.
  rewrite block_row_max_is_max in * by exact Hs.
  set (x := block_logits q K qk_scale HEAD_DIM STAGE offs_m arange start_n r) in *.
  set (L := logit2 Q K HEAD_DIM qk_scale STAGE (offs_m r)).
  assert (Hx : forall n, x n = L (start_n + n)%nat) by (intros; reflexivity).
  assert (Hin : forall v, In v (map L (tile_keys BLOCK_N start_n))
                          <-> exists n, (n < BLOCK_N)%nat /\ v = x n).
  { intros v. unfold tile_keys. rewrite in_map_iff. split.
    - intros (j & Hj & Hjin). apply in_seq in Hjin. exists (j - start_n)%nat.
      split; [lia|]. rewrite Hx. replace (start_n + (j - start_n))%nat with j by lia.
      symmetry. exact Hj.
    - intros (n & Hn & ->). exists (start_n + n)%nat. split; [symmetry; apply Hx|].
      apply in_seq. lia. }
  destruct (max_to_attained x (pred BLOCK_N)) as (n0 & Hn0 & Hmax).
  fold (row_max x BLOCK_N) in Hmax.
  assert (Hbm_in : In (row_max x BLOCK_N) (map L (tile_keys BLOCK_N start_n))).
  { apply Hin. exists n0. split; [lia | exact Hmax]. }
  cbn [is_max_of]. split.
  - intros v Hv. apply in_app_or in Hv. destruct Hv as [Hv | Hv].
    + destruct (m_i st r) as [|y]; cbn [is_max_of tl_maximum] in *.
      * subst seen. destruct Hv.
      * destruct Hinv as [Hle _]. eapply Rle_trans; [apply Hle; exact Hv | apply Rmax_l].
    + apply Hin in Hv. destruct Hv as (n & Hn & ->). apply Hb. exact Hn.
  - apply in_or_app. destruct (m_i st r) as [|y]; cbn [is_max_of tl_maximum] in *.
    + right. exact Hbm_in.
    + destruct Hinv as [_ Hy].
      destruct (Rmax_case y (row_max x BLOCK_N) (fun z => z = y \/ z = row_max x BLOCK_N))
        as [H | H]; [left; reflexivity | right; reflexivity | |].
      * left. rewrite H. exact Hy.
      * right. rewrite H. exact Hbm_in.
Qed.

Lemma inner_is_max_of STAGE N_CTX :
  (STAGE = 2%nat \/ 0 <= qk_scale) ->
  forall st r seen,
    is_max_of (m_i st r) seen ->
    is_max_of (m_i (_attn_fwd_inner st q K V start_m qk_scale BLOCK_M HEAD_DIM BLOCK_N STAGE
                                    offs_m arange N_CTX) r)
              (seen ++ map (logit2 Q K HEAD_DIM qk_scale STAGE (offs_m r))
                           (stage_keys STAGE start_m BLOCK_M BLOCK_N N_CTX)).
Proof.
  intros Hs. unfold _attn_fwd_inner, stage_keys.
  destruct (stage_bounds STAGE start_m BLOCK_M N_CTX) as [lo hi].
  generalize (tl_range lo hi BLOCK_N) as starts.
  induction starts as [|s starts IH]; intros st r seen Hinv; cbn [fold_left flat_map map].
  - rewrite app_nil_r. exact Hinv.
  - rewrite map_app, app_assoc. apply IH. apply body_is_max_of; assumption.
Qed.
End RunningMax.

(** After the stage loops the running maximum of a row is the maximum
    of the logits folded in for it (the masked ones as masked), when the
    scale is not negative; it is [-inf] only when no key was folded
    in. *)
Theorem fwd_running_max_is_max
    LOG2E Q K V sm_scale start_m N_CTX BM BN HD (causal : bool) (r : nat) :
  (0 < BN)%nat -> 0 <= sm_scale * LOG2E ->
  is_max_of
    (m_i (fwd_loops LOG2E Q K V sm_scale start_m N_CTX BM BN HD (stage_of_causal causal)) r)
    (logits_seen Q K HD (sm_scale * LOG2E) start_m BM BN N_CTX causal r).
Proof.
  intros HBN Hs. unfold logits_seen. destruct causal; cbn [stage_of_causal].
  - rewrite fwd_loops_causal.
    apply (inner_is_max_of Q K V (sm_scale * LOG2E) HD BN BM start_m HBN 2 N_CTX
             (or_intror Hs)).
    apply (inner_is_max_of Q K V (sm_scale * LOG2E) HD BN BM start_m HBN 1 N_CTX
             (or_intror Hs) fwd_init r []).
    reflexivity.
  - rewrite fwd_loops_noncausal.
    apply (inner_is_max_of Q K V (sm_scale * LOG2E) HD BN BM start_m HBN 3 N_CTX
             (or_intror Hs) fwd_init r []).
    reflexivity.
Qed.

Lemma fwd_running_max_is_max_witness :
  (0 < 64)%nat /\ 0 <= 1 * LOG2E_literal
  /\ is_max_of
       (m_i (fwd_loops LOG2E_literal leak_Q leak_K leak_V1 1 0 128 64 64 64
                       (stage_of_causal true)) 0%nat)
       (logits_seen leak_Q leak_K 64 (1 * LOG2E_literal) 0 64 64 128 true 0).
Proof.
  assert (H1 : (0 < 64)%nat) by lia.
  assert (H2 : 0 <= 1 * LOG2E_literal) by (unfold LOG2E_literal; lra).
  split; [exact H1 | split; [exact H2 |]].
  exact (fwd_running_max_is_max LOG2E_literal leak_Q leak_K leak_V1 1 0 128 64 64 64
           true 0 H1 H2).
Defined.

(** ** The dQ loop and the backward program *)

Section Dq.
Variables (q K V do : matrix) (m D : nat -> R).
Variables (BLOCK_N2 HEAD_DIM start_m : nat) (MASK : bool).

Local Abbreviation body := (bwd_dq_body q K V do m D BLOCK_N2 HEAD_DIM start_m MASK).

(** The weight and [dS] of tile row [r] and key [j] as the loop computes
    them. *)
Local Abbreviation Pq := (fun r j =>
  if MASK && negb (j <=? start_m + r)%nat then 0
  else exp2 (rsum (fun c => q r c * K j c) HEAD_DIM - m r)).
Local Abbreviation dSq := (fun r j =>
  Pq r j * (rsum (fun c => do r c * V j c) HEAD_DIM - D (start_m + r)%nat)).

Lemma dq_body_step (st : dq_state) :
  curr_n (body st) = (curr_n st + BLOCK_N2)%nat
  /\ forall r c, dq (body st) r c
                 = dq st r c
                   + rsum (fun n => dSq r (curr_n st + n)%nat * K (curr_n st + n)%nat c)
                          BLOCK_N2.
Proof.
  split; [reflexivity|]. intros r c. cbn [bwd_dq_body dq]. f_equal.
  apply rsum_ext. intros n _. unfold arange.
  destruct MASK; cbn [andb];
    try (destruct (curr_n st + n <=? start_m + r)%nat; cbn [negb]); reflexivity.
Qed.

Lemma dq_iter (st0 : dq_state) (steps : nat) :
  let st := Nat.iter steps body st0 in
  curr_n st = (curr_n st0 + steps * BLOCK_N2)%nat
  /\ forall r c, dq st r c
                 = dq st0 r c
                   + rsum (fun t => dSq r (curr_n st0 + t)%nat * K (curr_n st0 + t)%nat c)
                          (steps * BLOCK_N2).
Proof.
  induction steps as [|steps IH]; cbn zeta.
  - change (Nat.iter 0 body st0) with st0. cbn [Nat.mul rsum].
    split; [lia|]. intros r c; ring.
  - cbn zeta in IH. destruct IH as (Hc & Hq).
    change (Nat.iter (S steps) body st0) with (body (Nat.iter steps body st0)).
    destruct (dq_body_step (Nat.iter steps body st0)) as (Hc' & Hq').
    replace (S steps * BLOCK_N2)%nat with (steps * BLOCK_N2 + BLOCK_N2)%nat by lia.
    split; [rewrite Hc', Hc; lia|]. intros r c.
    rewrite Hq', Hq, rsum_app, Hc, Rplus_assoc. f_equal. f_equal.
    apply rsum_ext. intros n _. rewrite Nat.add_assoc. reflexivity.
Qed.
End Dq.

(** ** One program of [_attn_bwd] *)

Lemma rsum_zero (f : nat -> R) (n : nat) :
  (forall t, (t < n)%nat -> f t = 0) -> rsum f n = 0.
Proof.
  induction n as [|n IH]; intros H; cbn [rsum]; [reflexivity|].
  rewrite IH by (intros t Ht; apply H; lia). rewrite H by lia. ring.
Qed.

Lemma div_mul_exact (a b : nat) : (a mod b = 0 -> a / b * b = a)%nat.
Proof. intros H. pose proof (Nat.div_mod_eq a b). lia. Qed.

Lemma store_tile_spec (mem : matrix) (base : nat) (tile : matrix) (n HD i c : nat) :
  store_tile mem (fun r => (base + r)%nat) tile n HD i c
  = if ((c <? HD) && ((base <=? i) && (i <? base + n)))%nat
    then tile (i - base)%nat c else mem i c.
Proof.
  unfold store_tile. destruct (c <? HD)%nat; cbn [andb]; [|reflexivity].
  rewrite store_vec_spec. reflexivity.
Qed.

(** The two calls of [_attn_bwd_dkdv] of a program: the diagonal block
    with the mask, then the queries after it. *)
Lemma dkdv_two_calls (Q K V DO : matrix) (M D : nat -> R)
    (N_CTX MB BM1 BN1 HD start_n steps1 steps2 : nat) :
  (steps1 * MB = BN1)%nat -> (start_n + BN1 + steps2 * BM1 = N_CTX)%nat ->
  let k : matrix := fun n c => K (start_n + arange n)%nat c in
  let v : matrix := fun n c => V (start_n + arange n)%nat c in
  let out1 := _attn_bwd_dkdv (fun _ _ => 0) (fun _ _ => 0) Q k v DO M D MB HD
                             start_n start_n steps1 true in
  let out2 := _attn_bwd_dkdv (fst out1) (snd out1) Q k v DO M D BM1 HD
                             start_n (start_n + steps1 * MB) steps2 false in
  forall n c, (n < BN1)%nat ->
    snd out2 n c = causal_dv Q K DO M N_CTX HD (start_n + n) c
    /\ fst out2 n c = causal_dk Q K V DO M D N_CTX HD (start_n + n) c.
Proof.
  intros H1 H2 k v out1 out2 n c Hn.
  destruct (dkdv_iter Q k v DO M D MB HD start_n true
              {| dk := fun _ _ => 0; dv := fun _ _ => 0; curr_m := start_n |} steps1)
    as (_ & Hv1 & Hk1).
  destruct (dkdv_iter Q k v DO M D BM1 HD start_n false
              {| dk := fst out1; dv := snd out1; curr_m := (start_n + steps1 * MB)%nat |}
              steps2)
    as (_ & Hv2 & Hk2).
  cbn [dk dv curr_m] in Hv1, Hk1, Hv2, Hk2.
  assert (Ew : forall i, exp2 (rsum (fun c' => k n c' * Q i c') HD - M i)
                         = bwd_w Q K M HD i (start_n + n)).
  { intros i. unfold bwd_w. f_equal. f_equal. apply rsum_ext. intros c' _.
    subst k. cbn beta. unfold arange. ring. }
  assert (Ed : forall i, rsum (fun c' => v n c' * DO i c') HD
                         = rsum (fun c' => DO i c' * V (start_n + n)%nat c') HD).
  { intros i. apply rsum_ext. intros c' _. subst v. cbn beta. unfold arange. ring. }
  split.
  - subst out2. unfold _attn_bwd_dkdv at 1. cbn [snd]. rewrite Hv2.
    subst out1. unfold _attn_bwd_dkdv at 1. cbn [snd]. rewrite Hv1.
    unfold causal_dv. rewrite <- H2, H1, <- Nat.add_assoc, !rsum_app.
    rewrite (rsum_zero _ start_n).
    2:{ intros t Ht. destruct (Nat.leb_spec (start_n + n) t); [lia | reflexivity]. }
    rewrite !Rplus_0_l. f_equal.
    + apply rsum_ext. intros t Ht. unfold bwd_P. cbn [andb].
      destruct (start_n + n <=? start_n + t)%nat; cbn [negb]; [|ring].
      rewrite Ew. reflexivity.
    + apply rsum_ext. intros t Ht. unfold bwd_P. cbn [andb].
      rewrite Nat.add_assoc.
      destruct (Nat.leb_spec (start_n + n) (start_n + BN1 + t)); [|lia].
      rewrite Ew. reflexivity.
  - subst out2. unfold _attn_bwd_dkdv at 1. cbn [fst]. rewrite Hk2.
    subst out1. unfold _attn_bwd_dkdv at 1. cbn [fst]. rewrite Hk1.
    unfold causal_dk. rewrite <- H2, H1, <- Nat.add_assoc, !rsum_app.
    rewrite (rsum_zero _ start_n).
    2:{ intros t Ht. destruct (Nat.leb_spec (start_n + n) t); [lia | reflexivity]. }
    rewrite !Rplus_0_l. f_equal.
    + apply rsum_ext. intros t Ht. unfold bwd_dS, bwd_dP, bwd_P, bwd_ds. cbn [andb].
      destruct (start_n + n <=? start_n + t)%nat; cbn [negb]; [|ring].
      rewrite Ew, Ed. reflexivity.
    + apply rsum_ext. intros t Ht. unfold bwd_dS, bwd_dP, bwd_P, bwd_ds. cbn [andb].
      rewrite Nat.add_assoc.
      destruct (Nat.leb_spec (start_n + n) (start_n + BN1 + t)); [|lia].
      rewrite Ew, Ed. reflexivity.
Qed.

(** The two calls of [_attn_bwd_dq] of a program: the diagonal block
    with the mask, then the keys before it. *)
Lemma dq_two_calls (Q K V DO : matrix) (M D : nat -> R)
    (N_CTX MBN BN2 BM2 HD start_m steps1 steps2 : nat) :
  (steps1 * MBN = BM2)%nat -> (steps2 * BN2 = start_m)%nat ->
  (start_m + BM2 <= N_CTX)%nat ->
  let q : matrix := fun r c => Q (start_m + arange r)%nat c in
  let do : matrix := fun r c => DO (start_m + arange r)%nat c in
  let m : nat -> R := fun r => M (start_m + arange r)%nat in
  let dq1 := _attn_bwd_dq (fun _ _ => 0) q K V do m D MBN HD start_m start_m
                          steps1 true in
  let dq2 := _attn_bwd_dq dq1 q K V do m D BN2 HD start_m 0 steps2 false in
  forall r c, (r < BM2)%nat ->
    dq2 r c = causal_dq Q K V DO M D N_CTX HD (start_m + r) c.
Proof.
  intros H1 H2 Hle q do m dq1 dq2 r c Hr.
  destruct (dq_iter q K V do m D MBN HD start_m true
              {| dq := fun _ _ => 0; curr_n := start_m |} steps1) as (_ & Hq1).
  destruct (dq_iter q K V do m D BN2 HD start_m false
              {| dq := dq1; curr_n := 0 |} steps2) as (_ & Hq2).
  cbn [dq curr_n] in Hq1, Hq2.
  subst dq2. unfold _attn_bwd_dq at 1. rewrite Hq2.
  subst dq1. unfold _attn_bwd_dq at 1. rewrite Hq1.
  unfold causal_dq.
  replace N_CTX with (start_m + (BM2 + (N_CTX - start_m - BM2)))%nat by lia.
  rewrite !rsum_app, H1, H2.
  rewrite (rsum_zero _ (N_CTX - start_m - BM2)).
  2:{ intros t Ht. destruct (Nat.leb_spec (start_m + (BM2 + t)) (start_m + r));
        [lia | reflexivity]. }
  rewrite Rplus_0_l, Rplus_0_r, Rplus_comm. f_equal.
  - apply rsum_ext. intros t Ht. cbn [andb Nat.add].
    destruct (Nat.leb_spec t (start_m + r)); [|lia].
    unfold bwd_ds, bwd_w. subst q do m. cbn beta. unfold arange. reflexivity.
  - apply rsum_ext. intros t Ht. cbn [andb].
    destruct (start_m + t <=? start_m + r)%nat; cbn [negb]; [|ring].
    unfold bwd_ds, bwd_w. subst q do m. cbn beta. unfold arange. reflexivity.
Qed.

Section Program.
Variables (LN2 : R) (Q K V : matrix) (sm_scale : R) (DO : matrix).
Variables (M D : nat -> R).
Variables (N_CTX BM1 BN1 BM2 BN2 BLK HD pid : nat).
Hypothesis HBN1 : (BN1 mod (BM1 / BLK) = 0)%nat.
Hypothesis Hrest : ((N_CTX - (pid * BN1 + BN1)) mod BM1 = 0)%nat.
Hypothesis Hkeys : (pid * BN1 + BN1 <= N_CTX)%nat.
Hypothesis HBM2 : (BM2 mod (BN2 / BLK) = 0)%nat.
Hypothesis Hbefore : ((pid * BM2) mod BN2 = 0)%nat.
Hypothesis Hqueries : (pid * BM2 + BM2 <= N_CTX)%nat.

Local Abbreviation run := (fun g =>
  _attn_bwd LN2 Q K V sm_scale DO g M D N_CTX BM1 BN1 BM2 BN2 BLK HD pid).
Local Abbreviation in_tile := (fun B i c =>
  ((c <? HD) && ((pid * B <=? i) && (i <? pid * B + B)))%nat).

Lemma attn_bwd_program (g : grads) :
  (forall i c, DV (run g) i c
               = if in_tile BN1 i c then causal_dv Q K DO M N_CTX HD i c
                 else DV g i c)
  /\ (forall i c, DK (run g) i c
                  = if in_tile BN1 i c
                    then causal_dk Q K V DO M D N_CTX HD i c * sm_scale
                    else DK g i c)
  /\ (forall i c, DQ (run g) i c
                  = if in_tile BM2 i c
                    then causal_dq Q K V DO M D N_CTX HD i c * LN2
                    else DQ g i c).
Proof.
  pose proof (div_mul_exact _ _ HBN1) as E1.
  pose proof (div_mul_exact _ _ Hrest) as E2.
  pose proof (div_mul_exact _ _ HBM2) as E3.
  pose proof (div_mul_exact _ _ Hbefore) as E4.
  assert (E2' : (pid * BN1 + BN1
                 + (N_CTX - (pid * BN1 + BN1 / (BM1 / BLK) * (BM1 / BLK))) / BM1 * BM1
                 = N_CTX)%nat).
  { rewrite E1, E2. lia. }
  pose proof (dkdv_two_calls Q K V DO M D N_CTX (BM1 / BLK) BM1 BN1 HD (pid * BN1)
                (BN1 / (BM1 / BLK))
                ((N_CTX - (pid * BN1 + BN1 / (BM1 / BLK) * (BM1 / BLK))) / BM1)
                E1 E2') as Hkv.
  cbn zeta in Hkv.
  pose proof (dq_two_calls Q K V DO M D N_CTX (BN2 / BLK) BN2 BM2 HD (pid * BM2)
                (BM2 / (BN2 / BLK)) (pid * BM2 / BN2) E3 E4 Hqueries) as Hq.
  cbn zeta in Hq.
  unfold _attn_bwd.
  destruct (_attn_bwd_dkdv (fun _ _ => 0) (fun _ _ => 0) Q
              (fun n c => K (pid * BN1 + arange n)%nat c)
              (fun n c => V (pid * BN1 + arange n)%nat c) DO M D (BM1 / BLK) HD
              (pid * BN1) (pid * BN1) (BN1 / (BM1 / BLK)) true) as [dk1 dv1] eqn:Eo1.
  cbn [fst snd] in Hkv.
  destruct (_attn_bwd_dkdv dk1 dv1 Q
              (fun n c => K (pid * BN1 + arange n)%nat c)
              (fun n c => V (pid * BN1 + arange n)%nat c) DO M D BM1 HD
              (pid * BN1) (pid * BN1 + BN1 / (BM1 / BLK) * (BM1 / BLK))
              ((N_CTX - (pid * BN1 + BN1 / (BM1 / BLK) * (BM1 / BLK))) / BM1) false)
    as [dk2 dv2] eqn:Eo2.
  cbn [fst snd] in Hkv. cbn [DV DK DQ].
  replace (pid * BM2 + BM2 - BM2 / (BN2 / BLK) * (BN2 / BLK))%nat with (pid * BM2)%nat
    by (rewrite E3; lia).
  replace (pid * BM2 - pid * BM2 / BN2 * BN2)%nat with 0%nat by (rewrite E4; lia).
  split; [|split]; intros i c; unfold arange; rewrite store_tile_spec;
    destruct (c <? HD)%nat; cbn [andb]; try reflexivity.
  - destruct (Nat.leb_spec (pid * BN1) i); cbn [andb]; [|reflexivity].
    destruct (Nat.ltb_spec i (pid * BN1 + BN1)); [|reflexivity].
    destruct (Hkv (i - pid * BN1)%nat c ltac:(lia)) as (Hv & _).
    rewrite Hv. f_equal. lia.
  - destruct (Nat.leb_spec (pid * BN1) i); cbn [andb]; [|reflexivity].
    destruct (Nat.ltb_spec i (pid * BN1 + BN1)); [|reflexivity].
    destruct (Hkv (i - pid * BN1)%nat c ltac:(lia)) as (_ & Hk).
    rewrite Hk. f_equal. f_equal. lia.
  - destruct (Nat.leb_spec (pid * BM2) i); cbn [andb]; [|reflexivity].
    destruct (Nat.ltb_spec i (pid * BM2 + BM2)); [|reflexivity].
    unfold arange in Hq. rewrite (Hq (i - pid * BM2)%nat c ltac:(lia)).
    f_equal. f_equal. lia.
Qed.
End Program.

(** ** The launch of [_attn_bwd] and [backward] *)

Lemma bwd_grid_prefix (LN2 : R) (Q K V : matrix) (sm_scale : R) (DO : matrix)
    (g : grads) (M D : nat -> R) (N_CTX HD T : nat) :
  (N_CTX mod 128 = 0)%nat -> (T * 128 <= N_CTX)%nat ->
  let g' := fold_left
              (fun g' pid =>
                 _attn_bwd LN2 Q K V sm_scale DO g' M D N_CTX bwd_BLOCK_M1 bwd_BLOCK_N1
                           bwd_BLOCK_M2 bwd_BLOCK_N2 bwd_BLK_SLICE_FACTOR HD pid)
              (seq 0 T) g in
  forall i c,
    DV g' i c = (if ((c <? HD) && (i <? T * 128))%nat
                 then causal_dv Q K DO M N_CTX HD i c else DV g i c)
    /\ DK g' i c = (if ((c <? HD) && (i <? T * 128))%nat
                    then causal_dk Q K V DO M D N_CTX HD i c * sm_scale else DK g i c)
    /\ DQ g' i c = (if ((c <? HD) && (i <? T * 128))%nat
                    then causal_dq Q K V DO M D N_CTX HD i c * LN2 else DQ g i c).
Proof.
  intros Hmod. induction T as [|T IH]; intros HT; cbn zeta.
  - intros i c. cbn [seq fold_left Nat.mul]. rewrite !andb_false_r. auto.
  - intros i c. rewrite seq_S, fold_left_app. cbn [fold_left Nat.add].
    specialize (IH ltac:(lia)). cbn zeta in IH.
    set (g1 := fold_left _ (seq 0 T) g) in *.
    assert (Hexact : (N_CTX / 128 * 128 = N_CTX)%nat) by (apply div_mul_exact, Hmod).
    assert (H32 : ((N_CTX - (T * 128 + 128)) mod 32 = 0)%nat).
    { replace (N_CTX - (T * 128 + 128))%nat with ((4 * (N_CTX / 128 - T - 1)) * 32)%nat
        by lia.
      apply Nat.Div0.mod_mul. }
    assert (HT32 : ((T * 128) mod 32 = 0)%nat).
    { replace (T * 128)%nat with ((4 * T) * 32)%nat by lia. apply Nat.Div0.mod_mul. }
    destruct (attn_bwd_program LN2 Q K V sm_scale DO M D N_CTX
                bwd_BLOCK_M1 bwd_BLOCK_N1 bwd_BLOCK_M2 bwd_BLOCK_N2 bwd_BLK_SLICE_FACTOR
                HD T eq_refl H32 ltac:(unfold bwd_BLOCK_N1; lia) eq_refl HT32
                ltac:(unfold bwd_BLOCK_M2; lia) g1) as (Hv & Hk & Hq).
    rewrite Hv, Hk, Hq. destruct (IH i c) as (IHv & IHk & IHq).
    rewrite IHv, IHk, IHq. unfold bwd_BLOCK_N1, bwd_BLOCK_M2.
    destruct (c <? HD)%nat; cbn [andb]; [|auto].
    destruct (Nat.leb_spec (T * 128) i), (Nat.ltb_spec i (T * 128 + 128)),
             (Nat.ltb_spec i (T * 128)), (Nat.ltb_spec i (S T * 128));
      cbn [andb]; try (split; [|split]; reflexivity); lia.
Qed.

(** The gradients [backward] returns when its assertions hold. *)
Lemma backward_closed_form (RCP_LN2 LN2 : R) (ctx : bwd_ctx) (Q K V O DO : matrix)
    (M : nat -> R) (N_CTX : nat) (g0 : grads) (delta0 : nat -> R) :
  (N_CTX mod 128 = 0)%nat ->
  let HD := ctx_HEAD_DIM ctx in
  let arg_k : matrix := fun j c => K j c * (ctx_sm_scale ctx * RCP_LN2) in
  let Delta : nat -> R := fun i => rsum (fun c => O i c * DO i c) HD in
  exists g,
    backward RCP_LN2 LN2 ctx Q K V O DO M N_CTX true true g0 delta0 = BwdReturned g
    /\ forall i c,
         DV g i c = (if ((c <? HD) && (i <? N_CTX))%nat
                     then causal_dv Q arg_k DO M N_CTX HD i c else DV g0 i c)
         /\ DK g i c = (if ((c <? HD) && (i <? N_CTX))%nat
                        then causal_dk Q arg_k V DO M Delta N_CTX HD i c
                             * ctx_sm_scale ctx
                        else DK g0 i c)
         /\ DQ g i c = (if ((c <? HD) && (i <? N_CTX))%nat
                        then causal_dq Q arg_k V DO M Delta N_CTX HD i c * LN2
                        else DQ g0 i c).
Proof.
  intros Hmod HD arg_k Delta. unfold backward. cbn [negb]. unfold PRE_BLOCK.
  rewrite Hmod. cbn [Nat.eqb negb]. eexists. split; [reflexivity|].
  intros i c. unfold bwd_grid.
  assert (Hexact : (N_CTX / 128 * 128 = N_CTX)%nat) by (apply div_mul_exact, Hmod).
  pose proof (bwd_grid_prefix LN2 Q arg_k V (ctx_sm_scale ctx) DO g0 M
                (preprocess_grid O DO delta0 N_CTX 128 HD) N_CTX HD (N_CTX / 128)
                Hmod ltac:(lia)) as H.
  cbn zeta in H. destruct (H i c) as (Hv & Hk & Hq).
  change (N_CTX / bwd_BLOCK_N1)%nat with (N_CTX / 128)%nat.
  fold HD. fold arg_k. rewrite Hv, Hk, Hq, Hexact.
  assert (HDelta : forall i', (i' < N_CTX)%nat ->
                     preprocess_grid O DO delta0 N_CTX 128 HD i' = Delta i').
  { intros i' Hi'. unfold preprocess_grid. rewrite preprocess_prefix, Hexact.
    destruct (Nat.ltb_spec i' N_CTX); [reflexivity | lia]. }
  destruct (c <? HD)%nat; cbn [andb]; [|auto].
  destruct (Nat.ltb_spec i N_CTX); [|auto].
  split; [reflexivity|]. split; f_equal.
  - unfold causal_dk. apply rsum_ext. intros t Ht.
    destruct (i <=? t)%nat; [|reflexivity]. unfold bwd_ds. rewrite HDelta by lia.
    reflexivity.
  - unfold causal_dq. apply rsum_ext. intros t Ht.
    destruct (t <=? i)%nat; [|reflexivity]. unfold bwd_ds. rewrite HDelta by lia.
    reflexivity.
Qed.

Lemma backward_returned (RCP_LN2 LN2 : R) (ctx : bwd_ctx) (Q K V O DO : matrix)
    (M : nat -> R) (N_CTX : nat) (do_contiguous same_strides : bool)
    (g0 : grads) (delta0 : nat -> R) (g : grads) :
  backward RCP_LN2 LN2 ctx Q K V O DO M N_CTX do_contiguous same_strides g0 delta0
  = BwdReturned g ->
  do_contiguous = true /\ same_strides = true /\ (N_CTX mod 128 = 0)%nat
  /\ backward RCP_LN2 LN2 ctx Q K V O DO M N_CTX true true g0 delta0 = BwdReturned g.
Proof.
  unfold backward. destruct do_contiguous, same_strides; cbn [negb]; try discriminate.
  unfold PRE_BLOCK. destruct (Nat.eqb_spec (N_CTX mod 128) 0) as [E|E]; cbn [negb];
    [|discriminate].
  intros H. auto.
Qed.

(** [_attn_bwd_dq] returns the [dq] it was given plus, for every key
    position of its steps, [dS * K] with [dS = P * (dP - D)], where
    [P = exp2 (q.K - m)] is zero where the mask excludes the key and
    [dP = do.V]; the steps cover [num_steps * BLOCK_N2] consecutive keys
    from [start_n]. *)
Theorem bwd_dq_loop_accumulates
    (dq0 q K V do : matrix) (m D : nat -> R)
    (BLOCK_N2 HEAD_DIM start_m start_n num_steps : nat) (MASK : bool) (r c : nat) :
  _attn_bwd_dq dq0 q K V do m D BLOCK_N2 HEAD_DIM start_m start_n num_steps MASK r c
  = dq0 r c
    + rsum (fun t =>
              let j := (start_n + t)%nat in
              (if MASK && negb (j <=? start_m + r)%nat then 0
               else exp2 (rsum (fun c' => q r c' * K j c') HEAD_DIM - m r))
              * (rsum (fun c' => do r c' * V j c') HEAD_DIM - D (start_m + r)%nat)
              * K j c)
           (num_steps * BLOCK_N2).
Proof.
  destruct (dq_iter q K V do m D BLOCK_N2 HEAD_DIM start_m MASK
              {| dq := dq0; curr_n := start_n |} num_steps) as (_ & H).
  cbn [dq curr_n] in H. unfold _attn_bwd_dq. rewrite H. reflexivity.
Qed.



(** [backward] on a sequence whose length is a multiple of 128, with a
    contiguous [do] and equal strides, returns: for every key [j] the
    sums over the queries [i >= j] of [P dO] ([dv]) and of [dS Q] times
    [sm_scale] ([dk]), for every query [i] the sum over the keys
    [j <= i] of [dS k'] times [LN2] ([dq]), where [k'] is [k] times
    [sm_scale * RCP_LN2], [P = exp2 (q.k' - M)] and
    [dS = P * (dO.v - sum (O * dO))].  The sums are the causal ones
    whatever [ctx.causal] is; entries outside the sequence and the head
    dimension keep what [torch.empty_like] left there. *)
Theorem backward_returns_causal_gradients
    (RCP_LN2 LN2 : R) (ctx : bwd_ctx) (Q K V O DO : matrix)
    (M : nat -> R) (N_CTX : nat) (g0 : grads) (delta0 : nat -> R) :
  (N_CTX mod 128 = 0)%nat ->
  let HD := ctx_HEAD_DIM ctx in
  let arg_k : matrix := fun j c => K j c * (ctx_sm_scale ctx * RCP_LN2) in
  let Delta : nat -> R := fun i => rsum (fun c => O i c * DO i c) HD in
  exists g,
    backward RCP_LN2 LN2 ctx Q K V O DO M N_CTX true true g0 delta0 = BwdReturned g
    /\ forall i c,
         DV g i c = (if ((c <? HD) && (i <? N_CTX))%nat
                     then causal_dv Q arg_k DO M N_CTX HD i c else DV g0 i c)
         /\ DK g i c = (if ((c <? HD) && (i <? N_CTX))%nat
                        then causal_dk Q arg_k V DO M Delta N_CTX HD i c
                             * ctx_sm_scale ctx
                        else DK g0 i c)
         /\ DQ g i c = (if ((c <? HD) && (i <? N_CTX))%nat
                        then causal_dq Q arg_k V DO M Delta N_CTX HD i c * LN2
                        else DQ g0 i c).
Proof.
  intros Hmod. exact (backward_closed_form RCP_LN2 LN2 ctx Q K V O DO M N_CTX g0 delta0 Hmod).
Qed.

Lemma backward_returns_causal_gradients_witness :
  (128 mod 128 = 0)%nat
  /\ exists g,
       backward RCP_LN2_literal LN2_literal (mk_bwd_ctx 1 16 false)
                (fun _ _ => 1) (fun _ _ => 1) (fun _ _ => 1) (fun _ _ => 1) (fun _ _ => 1)
                (fun _ => 0) 128 true true
                (mk_grads (fun _ _ => 0) (fun _ _ => 0) (fun _ _ => 0)) (fun _ => 0)
       = BwdReturned g
       /\ forall i c,
            DV g i c
            = (if ((c <? 16) && (i <? 128))%nat
               then causal_dv (fun _ _ => 1)
                              (fun j c => (fun _ _ => 1) j c * (1 * RCP_LN2_literal))
                              (fun _ _ => 1) (fun _ => 0) 128 16 i c
               else 0).
Proof.
  assert (H : (128 mod 128 = 0)%nat) by reflexivity.
  split; [exact H|].
  destruct (backward_returns_causal_gradients RCP_LN2_literal LN2_literal
              (mk_bwd_ctx 1 16 false)
              (fun _ _ => 1) (fun _ _ => 1) (fun _ _ => 1) (fun _ _ => 1) (fun _ _ => 1)
              (fun _ => 0) 128
              (mk_grads (fun _ _ => 0) (fun _ _ => 0) (fun _ _ => 0)) (fun _ => 0) H)
    as (g & Hg & Hc).
  exists g. split; [exact Hg|]. intros i c. exact (proj1 (Hc i c)).
Defined.

Lemma rsum_ext_if (f g : nat -> R) (b : nat -> bool) (n : nat) :
  (forall t, (t < n)%nat -> b t = true -> f t = g t) ->
  rsum (fun t => if b t then f t else 0) n = rsum (fun t => if b t then g t else 0) n.
Proof.
  intros H. apply rsum_ext. intros t Ht. destruct (b t) eqn:E; [|reflexivity].
  apply H; assumption.
Qed.

Lemma bwd_w_unscaled (Q K : matrix) (M : nat -> R) (s : R) (HD i j : nat) :
  bwd_w Q (fun j c => K j c * s) M HD i j
  = exp2 (s * rsum (fun c => Q i c * K j c) HD - M i).
Proof.
  unfold bwd_w. f_equal. f_equal. rewrite Rmult_comm, rsum_scal.
  apply rsum_ext. intros c _. ring.
Qed.

(** The gradients of [backward] in terms of the keys as saved: with
    [P = exp2 (sm_scale * RCP_LN2 * q.k - M)] and
    [dS = P * (dO.v - sum (O * dO))], [dv] of key [j] is the sum over
    the queries [i >= j] of [P dO], [dk] is [sm_scale] times the sum of
    [dS q], and [dq] of query [i] is [sm_scale] times the sum over the
    keys [j <= i] of [dS k], times [LN2 * RCP_LN2]: the final
    multiplication of [dq] by [LN2] undoes the prescaling of [k] exactly
    when the two constants are reciprocal. *)
Theorem backward_gradients_in_saved_keys
    (RCP_LN2 LN2 : R) (ctx : bwd_ctx) (Q K V O DO : matrix)
    (M : nat -> R) (N_CTX : nat) (g0 : grads) (delta0 : nat -> R) :
  (N_CTX mod 128 = 0)%nat ->
  let HD := ctx_HEAD_DIM ctx in
  let s := ctx_sm_scale ctx in
  let P (i j : nat) := exp2 (s * RCP_LN2 * rsum (fun c => Q i c * K j c) HD - M i) in
  let dS (i j : nat) :=
    P i j * (rsum (fun c => DO i c * V j c) HD - rsum (fun c => O i c * DO i c) HD) in
  exists g,
    backward RCP_LN2 LN2 ctx Q K V O DO M N_CTX true true g0 delta0 = BwdReturned g
    /\ forall i c, (i < N_CTX)%nat -> (c < HD)%nat ->
         DV g i c = rsum (fun i' => if (i <=? i')%nat then P i' i * DO i' c else 0) N_CTX
         /\ DK g i c
            = s * rsum (fun i' => if (i <=? i')%nat then dS i' i * Q i' c else 0) N_CTX
         /\ DQ g i c
            = LN2 * RCP_LN2
              * (s * rsum (fun j => if (j <=? i)%nat then dS i j * K j c else 0) N_CTX).
Proof.
  intros Hmod HD s P dS.
  destruct (backward_closed_form RCP_LN2 LN2 ctx Q K V O DO M N_CTX g0 delta0 Hmod)
    as (g & Hg & Hc).
  exists g. split; [exact Hg|]. intros i c Hi Hcol.
  destruct (Hc i c) as (Hv & Hk & Hq). fold HD in Hv, Hk, Hq.
  destruct (Nat.ltb_spec c HD); [|lia]. destruct (Nat.ltb_spec i N_CTX); [|lia].
  cbn [andb] in Hv, Hk, Hq. rewrite Hv, Hk, Hq.
  unfold causal_dv, causal_dk, causal_dq, bwd_ds. fold s. split; [|split].
  - apply rsum_ext. intros t _. rewrite bwd_w_unscaled. reflexivity.
  - rewrite Rmult_comm. f_equal. apply rsum_ext. intros t _.
    rewrite bwd_w_unscaled. reflexivity.
  - transitivity (rsum (fun j => if (j <=? i)%nat then dS i j * K j c else 0) N_CTX
                  * (LN2 * RCP_LN2 * s)); [|ring].
    rewrite !rsum_scal. apply rsum_ext. intros t _.
    rewrite bwd_w_unscaled. destruct (t <=? i)%nat; [|ring].
    subst dS P. cbn beta. ring.
Qed.

Lemma backward_gradients_in_saved_keys_witness :
  (128 mod 128 = 0)%nat
  /\ exists g,
       backward RCP_LN2_literal LN2_literal (mk_bwd_ctx 1 16 true)
                (fun _ _ => 1) (fun _ _ => 1) (fun _ _ => 1) (fun _ _ => 1) (fun _ _ => 1)
                (fun _ => 0) 128 true true
                (mk_grads (fun _ _ => 0) (fun _ _ => 0) (fun _ _ => 0)) (fun _ => 0)
       = BwdReturned g
       /\ forall i c, (i < 128)%nat -> (c < 16)%nat ->
            DV g i c
            = rsum (fun i' => if (i <=? i')%nat
                              then exp2 (1 * RCP_LN2_literal
                                         * rsum (fun c => (fun _ _ => 1) i' c
                                                          * (fun _ _ => 1) i c) 16
                                         - (fun _ => 0) i')
                                   * (fun _ _ => 1) i' c
                              else 0) 128.
Proof.
  assert (H : (128 mod 128 = 0)%nat) by reflexivity.
  split; [exact H|].
  destruct (backward_gradients_in_saved_keys RCP_LN2_literal LN2_literal
              (mk_bwd_ctx 1 16 true)
              (fun _ _ => 1) (fun _ _ => 1) (fun _ _ => 1) (fun _ _ => 1) (fun _ _ => 1)
              (fun _ => 0) 128
              (mk_grads (fun _ _ => 0) (fun _ _ => 0) (fun _ _ => 0)) (fun _ => 0) H)
    as (g & Hg & Hc).
  exists g. split; [exact Hg|]. intros i c Hi Hcol. exact (proj1 (Hc i c Hi Hcol)).
Defined.

Lemma bwd_w_ext (Q Q' K K' : matrix) (M M' : nat -> R) (HD i j : nat) :
  (forall c, Q i c = Q' i c) -> (forall c, K j c = K' j c) -> M i = M' i ->
  bwd_w Q K M HD i j = bwd_w Q' K' M' HD i j.
Proof.
  intros HQ HK HM. unfold bwd_w. rewrite HM.
  rewrite (rsum_ext (fun c => Q i c * K j c) (fun c => Q' i c * K' j c) HD); [reflexivity|].
  intros c _. rewrite HQ, HK. reflexivity.
Qed.

Lemma bwd_ds_ext (Q Q' K K' V V' DO DO' : matrix) (M M' D D' : nat -> R) (HD i j : nat) :
  (forall c, Q i c = Q' i c) -> (forall c, K j c = K' j c) -> M i = M' i ->
  (forall c, DO i c = DO' i c) -> (forall c, V j c = V' j c) -> D i = D' i ->
  bwd_ds Q K V DO M D HD i j = bwd_ds Q' K' V' DO' M' D' HD i j.
Proof.
  intros HQ HK HM HDO HV HDi. unfold bwd_ds.
  rewrite (bwd_w_ext Q Q' K K' M M' HD i j HQ HK HM), HDi.
  rewrite (rsum_ext (fun c => DO i c * V j c) (fun c => DO' i c * V' j c) HD); [reflexivity|].
  intros c _. rewrite HDO, HV. reflexivity.
Qed.

(** The row [i] of [dq] that [backward] returns is computed from row
    [i] of [q], [o], [do] and [M] and from the rows [j <= i] of [k] and
    [v] only: changing any other row of the inputs leaves it as it is
    (the mask of the backward kernels replaces the weight by zero). *)
Theorem backward_dq_reads_no_later_key
    (RCP_LN2 LN2 : R) (ctx : bwd_ctx) (Q Q' K K' V V' O O' DO DO' : matrix)
    (M M' : nat -> R) (N_CTX : nat) (dc ss dc' ss' : bool)
    (g0 : grads) (delta0 delta0' : nat -> R) (g g' : grads) (i : nat) :
  (forall c, Q i c = Q' i c) -> (forall c, O i c = O' i c) ->
  (forall c, DO i c = DO' i c) -> M i = M' i ->
  (forall j c, (j <= i)%nat -> K j c = K' j c) ->
  (forall j c, (j <= i)%nat -> V j c = V' j c) ->
  backward RCP_LN2 LN2 ctx Q K V O DO M N_CTX dc ss g0 delta0 = BwdReturned g ->
  backward RCP_LN2 LN2 ctx Q' K' V' O' DO' M' N_CTX dc' ss' g0 delta0' = BwdReturned g' ->
  forall c, DQ g i c = DQ g' i c.
Proof.
  intros HQ HO HDO HM HK HV Hg Hg' c.
  apply backward_returned in Hg. destruct Hg as (_ & _ & Hmod & Hg).
  apply backward_returned in Hg'. destruct Hg' as (_ & _ & _ & Hg').
  destruct (backward_closed_form RCP_LN2 LN2 ctx Q K V O DO M N_CTX g0 delta0 Hmod)
    as (g1 & E1 & H1).
  destruct (backward_closed_form RCP_LN2 LN2 ctx Q' K' V' O' DO' M' N_CTX g0 delta0' Hmod)
    as (g2 & E2 & H2).
  rewrite Hg in E1. injection E1 as <-. rewrite Hg' in E2. injection E2 as <-.
  destruct (H1 i c) as (_ & _ & ->). destruct (H2 i c) as (_ & _ & ->).
  destruct ((c <? ctx_HEAD_DIM ctx) && (i <? N_CTX))%nat; [|reflexivity].
  f_equal. unfold causal_dq.
  apply (rsum_ext_if _ _ (fun j => (j <=? i)%nat)). intros j _ Hj.
  apply Nat.leb_le in Hj. cbn beta. rewrite (HK j c Hj). f_equal.
  apply bwd_ds_ext; auto.
  - intros c'. rewrite (HK j c' Hj). reflexivity.
  - apply rsum_ext. intros c' _. rewrite HO, HDO. reflexivity.
Qed.

Lemma backward_dq_reads_no_later_key_witness :
  (forall j c : nat, (j <= 0)%nat -> bwd_ones j c = bwd_late_2 j c)
  /\ forall c,
    DQ (bwd_grid LN2_literal bwd_ones
          (fun j c => bwd_ones j c * (ctx_sm_scale bwd_ctx_16 * RCP_LN2_literal))
          bwd_ones (ctx_sm_scale bwd_ctx_16) bwd_ones bwd_g0 bwd_stat0
          (preprocess_grid bwd_ones bwd_ones bwd_stat0 128 128 16) 128 16) 0%nat c
    = DQ (bwd_grid LN2_literal bwd_ones
            (fun j c => bwd_late_2 j c * (ctx_sm_scale bwd_ctx_16 * RCP_LN2_literal))
            bwd_late_2 (ctx_sm_scale bwd_ctx_16) bwd_ones bwd_g0 bwd_stat0
            (preprocess_grid bwd_ones bwd_ones bwd_stat0 128 128 16) 128 16) 0%nat c.
Proof.
  assert (Hrow : forall c : nat, bwd_ones 0%nat c = bwd_ones 0%nat c)
    by (intros c; reflexivity).
  assert (Hlate : forall j c : nat, (j <= 0)%nat -> bwd_ones j c = bwd_late_2 j c).
  { intros j c Hj. unfold bwd_ones, bwd_late_2.
    destruct (Nat.leb_spec j 0); [reflexivity | lia]. }
  split; [exact Hlate|].
  exact (backward_dq_reads_no_later_key RCP_LN2_literal LN2_literal bwd_ctx_16
           bwd_ones bwd_ones bwd_ones bwd_late_2 bwd_ones bwd_late_2
           bwd_ones bwd_ones bwd_ones bwd_ones bwd_stat0 bwd_stat0 128
           true true true true bwd_g0 bwd_stat0 bwd_stat0 _ _ 0
           Hrow Hrow Hrow eq_refl Hlate Hlate eq_refl eq_refl).
Defined.

(** The rows [j] of [dk] and [dv] that [backward] returns are computed
    from row [j] of [k] and [v] and from the rows [i >= j] of [q], [o],
    [do] and [M] only. *)
Theorem backward_dkdv_read_no_earlier_query
    (RCP_LN2 LN2 : R) (ctx : bwd_ctx) (Q Q' K K' V V' O O' DO DO' : matrix)
    (M M' : nat -> R) (N_CTX : nat) (dc ss dc' ss' : bool)
    (g0 : grads) (delta0 delta0' : nat -> R) (g g' : grads) (j : nat) :
  (forall c, K j c = K' j c) -> (forall c, V j c = V' j c) ->
  (forall i c, (j <= i)%nat -> Q i c = Q' i c) ->
  (forall i c, (j <= i)%nat -> O i c = O' i c) ->
  (forall i c, (j <= i)%nat -> DO i c = DO' i c) ->
  (forall i, (j <= i)%nat -> M i = M' i) ->
  backward RCP_LN2 LN2 ctx Q K V O DO M N_CTX dc ss g0 delta0 = BwdReturned g ->
  backward RCP_LN2 LN2 ctx Q' K' V' O' DO' M' N_CTX dc' ss' g0 delta0' = BwdReturned g' ->
  forall c, DK g j c = DK g' j c /\ DV g j c = DV g' j c.
Proof.
  intros HK HV HQ HO HDO HM Hg Hg' c.
  apply backward_returned in Hg. destruct Hg as (_ & _ & Hmod & Hg).
  apply backward_returned in Hg'. destruct Hg' as (_ & _ & _ & Hg').
  destruct (backward_closed_form RCP_LN2 LN2 ctx Q K V O DO M N_CTX g0 delta0 Hmod)
    as (g1 & E1 & H1).
  destruct (backward_closed_form RCP_LN2 LN2 ctx Q' K' V' O' DO' M' N_CTX g0 delta0' Hmod)
    as (g2 & E2 & H2).
  rewrite Hg in E1. injection E1 as <-. rewrite Hg' in E2. injection E2 as <-.
  destruct (H1 j c) as (-> & -> & _). destruct (H2 j c) as (-> & -> & _).
  destruct ((c <? ctx_HEAD_DIM ctx) && (j <? N_CTX))%nat; [|split; reflexivity].
  split.
  - f_equal. unfold causal_dk.
    apply (rsum_ext_if _ _ (fun i => (j <=? i)%nat)). intros i _ Hi.
    apply Nat.leb_le in Hi. cbn beta. rewrite (HQ i c Hi). f_equal.
    apply bwd_ds_ext; auto.
    + intros c'. rewrite HK. reflexivity.
    + apply rsum_ext. intros c' _. rewrite (HO i c' Hi), (HDO i c' Hi). reflexivity.
  - unfold causal_dv.
    apply (rsum_ext_if _ _ (fun i => (j <=? i)%nat)). intros i _ Hi.
    apply Nat.leb_le in Hi. cbn beta. rewrite (HDO i c Hi). f_equal.
    apply bwd_w_ext; auto. intros c'. rewrite HK. reflexivity.
Qed.

Lemma backward_dkdv_read_no_earlier_query_witness :
  (forall i c : nat, (127 <= i)%nat -> bwd_ones i c = bwd_early_2 i c)
  /\ (forall i : nat, (127 <= i)%nat -> bwd_stat0 i = bwd_stat_early_2 i)
  /\ forall c,
    DK (bwd_grid LN2_literal bwd_ones
          (fun j c => bwd_ones j c * (ctx_sm_scale bwd_ctx_16 * RCP_LN2_literal))
          bwd_ones (ctx_sm_scale bwd_ctx_16) bwd_ones bwd_g0 bwd_stat0
          (preprocess_grid bwd_ones bwd_ones bwd_stat0 128 128 16) 128 16) 127%nat c
    = DK (bwd_grid LN2_literal bwd_early_2
            (fun j c => bwd_ones j c * (ctx_sm_scale bwd_ctx_16 * RCP_LN2_literal))
            bwd_ones (ctx_sm_scale bwd_ctx_16) bwd_early_2 bwd_g0 bwd_stat_early_2
            (preprocess_grid bwd_early_2 bwd_early_2 bwd_stat0 128 128 16) 128 16)
         127%nat c
    /\ DV (bwd_grid LN2_literal bwd_ones
             (fun j c => bwd_ones j c * (ctx_sm_scale bwd_ctx_16 * RCP_LN2_literal))
             bwd_ones (ctx_sm_scale bwd_ctx_16) bwd_ones bwd_g0 bwd_stat0
             (preprocess_grid bwd_ones bwd_ones bwd_stat0 128 128 16) 128 16) 127%nat c
       = DV (bwd_grid LN2_literal bwd_early_2
               (fun j c => bwd_ones j c * (ctx_sm_scale bwd_ctx_16 * RCP_LN2_literal))
               bwd_ones (ctx_sm_scale bwd_ctx_16) bwd_early_2 bwd_g0 bwd_stat_early_2
               (preprocess_grid bwd_early_2 bwd_early_2 bwd_stat0 128 128 16) 128 16)
            127%nat c.
Proof.
  assert (Hrow : forall c : nat, bwd_ones 127%nat c = bwd_ones 127%nat c)
    by (intros c; reflexivity).
  assert (Hearly : forall i c : nat, (127 <= i)%nat -> bwd_ones i c = bwd_early_2 i c).
  { intros i c Hi. unfold bwd_ones, bwd_early_2.
    destruct (Nat.leb_spec 127 i); [reflexivity | lia]. }
  assert (Hstat : forall i : nat, (127 <= i)%nat -> bwd_stat0 i = bwd_stat_early_2 i).
  { intros i Hi. unfold bwd_stat0, bwd_stat_early_2.
    destruct (Nat.leb_spec 127 i); [reflexivity | lia]. }
  split; [exact Hearly | split; [exact Hstat |]].
  exact (backward_dkdv_read_no_earlier_query RCP_LN2_literal LN2_literal bwd_ctx_16
           bwd_ones bwd_early_2 bwd_ones bwd_ones bwd_ones bwd_ones
           bwd_ones bwd_early_2 bwd_ones bwd_early_2 bwd_stat0 bwd_stat_early_2 128
           true true true true bwd_g0 bwd_stat0 bwd_stat0 _ _ 127
           Hrow Hrow Hearly Hearly Hearly Hstat eq_refl eq_refl).
Defined.

(** ** The forward launch grid *)

Lemma cdiv_exact (a b : nat) : (0 < b -> a mod b = 0 -> cdiv a b = a / b)%nat.
Proof.
  intros Hb Hm. unfold cdiv. symmetry.
  apply (Nat.div_unique _ _ _ (b - 1)); [lia|].
  pose proof (Nat.div_mod_eq a b). lia.
Qed.

Lemma cdiv_inexact (a b : nat) : (0 < b -> a mod b <> 0 -> cdiv a b = a / b + 1)%nat.
Proof.
  intros Hb Hm. unfold cdiv. symmetry.
  pose proof (Nat.mod_upper_bound a b ltac:(lia)).
  apply (Nat.div_unique _ _ _ (a mod b - 1)); [lia|].
  pose proof (Nat.div_mod_eq a b). lia.
Qed.

Lemma in_fwd_m_stores (off_hz N_CTX start_m BM x : nat) :
  In x (fwd_m_stores off_hz N_CTX start_m BM)
  <-> exists r, (r < BM)%nat /\ x = (off_hz * N_CTX + (start_m * BM + r))%nat.
Proof.
  unfold fwd_m_stores, fwd_m_ptrs, fwd_offs_m, arange. rewrite in_map_iff. split.
  - intros (r & <- & Hr). apply in_seq in Hr. exists r. split; [lia | reflexivity].
  - intros (r & Hr & ->). exists r. split; [reflexivity | apply in_seq; lia].
Qed.

Lemma in_fwd_programs (q : tensor) (conf : Config) (start_m off_hz : nat) :
  In (start_m, off_hz) (fwd_programs (grid_tma q conf))
  <-> (start_m < cdiv (shape2 q) (BLOCK_M conf))%nat /\ (off_hz < shape0 q * shape1 q)%nat.
Proof.
  unfold fwd_programs, grid_tma. rewrite in_prod_iff, !in_seq. lia.
Qed.

(** Decomposition of a flat offset [x = hz * N + (sm * B + r)] with
    [r < B] and [sm * B + r < N]. *)
Lemma flat_offset_unique (N B hz sm r hz' sm' r' : nat) :
  (r < B)%nat -> (r' < B)%nat -> (sm * B + r < N)%nat -> (sm' * B + r' < N)%nat ->
  (hz * N + (sm * B + r) = hz' * N + (sm' * B + r'))%nat ->
  hz = hz' /\ sm = sm' /\ r = r'.
Proof.
  intros Hr Hr' Hi Hi' E.
  assert (Hhz : hz = hz').
  { assert (H1 : ((hz * N + (sm * B + r)) / N = hz)%nat).
    { rewrite Nat.add_comm, Nat.div_add by lia. rewrite Nat.div_small by lia. lia. }
    assert (H2 : ((hz' * N + (sm' * B + r')) / N = hz')%nat).
    { rewrite Nat.add_comm, Nat.div_add by lia. rewrite Nat.div_small by lia. lia. }
    rewrite E in H1. congruence. }
  subst hz'. assert (E' : (sm * B + r = sm' * B + r')%nat) by lia.
  assert (Hsm : sm = sm').
  { assert (H1 : ((sm * B + r) / B = sm)%nat).
    { rewrite Nat.add_comm, Nat.div_add by lia. rewrite Nat.div_small by lia. lia. }
    assert (H2 : ((sm' * B + r') / B = sm')%nat).
    { rewrite Nat.add_comm, Nat.div_add by lia. rewrite Nat.div_small by lia. lia. }
    rewrite E' in H1. congruence. }
  subst sm'. split; [reflexivity|]. split; [reflexivity | lia].
Qed.

(** When [BLOCK_M] divides the sequence length, the stores of [M] of the
    programs of a launch partition the tensor: every entry of [M] (there
    are [BATCH * H * N_CTX]) is written by exactly one program, and no
    program writes outside the tensor. *)
Theorem fwd_m_stores_partition (q : tensor) (conf : Config) :
  (0 < BLOCK_M conf)%nat -> (shape2 q mod BLOCK_M conf = 0)%nat ->
  let N_CTX := shape2 q in
  let BM := BLOCK_M conf in
  let writes (p : nat * nat) (x : nat) := In x (fwd_m_stores (snd p) N_CTX (fst p) BM) in
  (forall x, (x < shape0 q * shape1 q * N_CTX)%nat
             <-> exists p, In p (fwd_programs (grid_tma q conf)) /\ writes p x)
  /\ (forall x p p', In p (fwd_programs (grid_tma q conf)) ->
                     In p' (fwd_programs (grid_tma q conf)) ->
                     writes p x -> writes p' x -> p = p').
Proof.
  intros HB Hmod N_CTX BM writes.
  assert (Hc : cdiv N_CTX BM = (N_CTX / BM)%nat) by (apply cdiv_exact; assumption).
  assert (HN : (N_CTX / BM * BM = N_CTX)%nat).
  { pose proof (Nat.div_mod_eq N_CTX BM). subst N_CTX BM. lia. }
  assert (Hrow : forall sm r, (sm < N_CTX / BM)%nat -> (r < BM)%nat ->
                              (sm * BM + r < N_CTX)%nat).
  { intros sm r Hsm Hr. rewrite <- HN.
    apply Nat.lt_le_trans with ((sm + 1) * BM)%nat; [lia|].
    apply Nat.mul_le_mono_r. lia. }
  split.
  - intros x. split.
    + intros Hx.
      assert (HNpos : (0 < N_CTX)%nat) by (destruct N_CTX; [lia | lia]).
      exists ((x mod N_CTX) / BM, x / N_CTX)%nat. split.
      * apply in_fwd_programs. fold N_CTX BM. rewrite Hc. split.
        -- apply Nat.Div0.div_lt_upper_bound. rewrite Nat.mul_comm, HN.
           apply Nat.mod_upper_bound. lia.
        -- apply Nat.Div0.div_lt_upper_bound. lia.
      * unfold writes. cbn [fst snd]. apply in_fwd_m_stores.
        exists ((x mod N_CTX) mod BM)%nat. split.
        -- apply Nat.mod_upper_bound. lia.
        -- pose proof (Nat.div_mod_eq x N_CTX).
           pose proof (Nat.div_mod_eq (x mod N_CTX) BM). lia.
    + intros ([sm hz] & Hp & Hw). apply in_fwd_programs in Hp. fold N_CTX BM in Hp.
      rewrite Hc in Hp. destruct Hp as (Hsm & Hhz).
      unfold writes in Hw. cbn [fst snd] in Hw. apply in_fwd_m_stores in Hw.
      destruct Hw as (r & Hr & ->). pose proof (Hrow sm r Hsm Hr).
      apply Nat.lt_le_trans with ((hz + 1) * N_CTX)%nat; [lia|].
      apply Nat.mul_le_mono_r. lia.
  - intros x [sm hz] [sm' hz'] Hp Hp' Hw Hw'.
    apply in_fwd_programs in Hp, Hp'. fold N_CTX BM in Hp, Hp'. rewrite Hc in Hp, Hp'.
    unfold writes in Hw, Hw'. cbn [fst snd] in Hw, Hw'.
    apply in_fwd_m_stores in Hw, Hw'.
    destruct Hw as (r & Hr & E), Hw' as (r' & Hr' & E'). rewrite E in E'.
    destruct (flat_offset_unique N_CTX BM hz sm r hz' sm' r' Hr Hr'
                (Hrow sm r (proj1 Hp) Hr) (Hrow sm' r' (proj1 Hp') Hr') E')
      as (-> & -> & _).
    reflexivity.
Qed.

Lemma fwd_m_stores_partition_witness :
  (0 < BLOCK_M conf_64_64_w4)%nat /\ (shape2 t_1_1_128_64 mod BLOCK_M conf_64_64_w4 = 0)%nat
  /\ forall x, (x < shape0 t_1_1_128_64 * shape1 t_1_1_128_64 * shape2 t_1_1_128_64)%nat
               <-> exists p, In p (fwd_programs (grid_tma t_1_1_128_64 conf_64_64_w4))
                             /\ In x (fwd_m_stores (snd p) (shape2 t_1_1_128_64) (fst p)
                                                   (BLOCK_M conf_64_64_w4)).
Proof.
  assert (H1 : (0 < BLOCK_M conf_64_64_w4)%nat) by (cbn; lia).
  assert (H2 : (shape2 t_1_1_128_64 mod BLOCK_M conf_64_64_w4 = 0)%nat) by reflexivity.
  split; [exact H1 | split; [exact H2 |]].
  exact (proj1 (fwd_m_stores_partition t_1_1_128_64 conf_64_64_w4 H1 H2)).
Defined.

(** When [BLOCK_M] does not divide the sequence length, the last program
    of every batch-head stores past the end of the head's [N_CTX]
    entries of [M]: it writes the offset [(off_hz + 1) * N_CTX], which
    is the first entry of the next batch-head, also written by that
    head's first program, or lies outside the tensor for the last
    batch-head. *)
Theorem fwd_m_store_overruns_head (q : tensor) (conf : Config) (off_hz : nat) :
  (0 < BLOCK_M conf)%nat -> (shape2 q mod BLOCK_M conf <> 0)%nat ->
  (off_hz < shape0 q * shape1 q)%nat ->
  let N_CTX := shape2 q in
  let BM := BLOCK_M conf in
  let last := (cdiv N_CTX BM - 1)%nat in
  In (last, off_hz) (fwd_programs (grid_tma q conf))
  /\ In ((off_hz + 1) * N_CTX)%nat (fwd_m_stores off_hz N_CTX last BM)
  /\ In ((off_hz + 1) * N_CTX)%nat (fwd_m_stores (off_hz + 1) N_CTX 0 BM)
  /\ ((off_hz + 1 = shape0 q * shape1 q)%nat ->
      (shape0 q * shape1 q * N_CTX <= (off_hz + 1) * N_CTX)%nat).
Proof.
  intros HB Hmod Hhz N_CTX BM last.
  assert (Hc : cdiv N_CTX BM = (N_CTX / BM + 1)%nat) by (apply cdiv_inexact; assumption).
  pose proof (Nat.div_mod_eq N_CTX BM) as HN.
  pose proof (Nat.mod_upper_bound N_CTX BM ltac:(lia)) as Hlt.
  split; [|split; [|split]].
  - apply in_fwd_programs. fold N_CTX BM. subst last. rewrite Hc. lia.
  - apply in_fwd_m_stores. exists (N_CTX mod BM)%nat. split; [exact Hlt|].
    subst last. rewrite Hc. fold N_CTX BM in Hmod. lia.
  - apply in_fwd_m_stores. exists 0%nat. split; [lia | lia].
  - intros E. rewrite E. lia.
Qed.

Lemma fwd_m_store_overruns_head_witness :
  (0 < BLOCK_M conf_128_128_w8)%nat
  /\ (shape2 (mk_tensor 1 2 192 64 float16) mod BLOCK_M conf_128_128_w8 <> 0)%nat
  /\ (0 < shape0 (mk_tensor 1 2 192 64 float16) * shape1 (mk_tensor 1 2 192 64 float16))%nat
  /\ In ((0 + 1) * 192)%nat (fwd_m_stores 0 192 (cdiv 192 128 - 1) 128).
Proof.
  assert (H1 : (0 < BLOCK_M conf_128_128_w8)%nat) by (cbn; lia).
  assert (H2 : (shape2 (mk_tensor 1 2 192 64 float16) mod BLOCK_M conf_128_128_w8 <> 0)%nat)
    by (cbv; discriminate).
  assert (H3 : (0 < shape0 (mk_tensor 1 2 192 64 float16)
                    * shape1 (mk_tensor 1 2 192 64 float16))%nat) by (cbn; lia).
  split; [exact H1 | split; [exact H2 | split; [exact H3 |]]].
  exact (proj1 (proj2 (fwd_m_store_overruns_head (mk_tensor 1 2 192 64 float16)
                         conf_128_128_w8 0 H1 H2 H3))).
Defined.

(** ** The backward weights after a causal forward pass *)

Lemma weight2_below_diagonal Q K HD s i j :
  (j <= i)%nat -> weight2 Q K HD s 2 i j = weight2 Q K HD s 1 i j.
Proof.
  intros Hle. unfold weight2, logit2. cbn [Nat.eqb].
  destruct (Nat.leb_spec j i); [reflexivity | lia].
Qed.

Lemma causal_normaliser_split Q K HD s start_m BM BN N_CTX r :
  (0 < BN)%nat -> Nat.divide BN BM -> (r < BM)%nat ->
  let i := fwd_offs_m start_m BM r in
  stage_Z Q K HD s 1 start_m BM BN N_CTX i + stage_Z Q K HD s 2 start_m BM BN N_CTX i
  = rsum (weight2 Q K HD s 1 i) (S i)
    + lsum (weight2 Q K HD s 2 i) (seq (S i) (BM - 1 - r)).
Proof.
  intros HBN Hdiv Hr i. unfold stage_Z.
  rewrite stage_keys_off_band, stage_keys_on_band by assumption.
  replace BM with ((r + 1) + (BM - 1 - r))%nat at 3 by lia.
  rewrite seq_app, lsum_app.
  replace (start_m * BM + (r + 1))%nat with (S i)
    by (subst i; unfold fwd_offs_m, arange; lia).
  rewrite (lsum_ext_in (weight2 Q K HD s 2 i) (weight2 Q K HD s 1 i)
             (seq (start_m * BM) (r + 1))).
  2:{ intros j Hj. apply in_seq in Hj. apply weight2_below_diagonal.
      subst i. unfold fwd_offs_m, arange. lia. }
  rewrite <- Rplus_assoc, <- lsum_app, <- seq_app.
  replace (start_m * BM + (r + 1))%nat with (S i)
    by (subst i; unfold fwd_offs_m, arange; lia).
  rewrite <- rsum_lsum. reflexivity.
Qed.

(** ** The descriptor helper *)

Lemma descriptors_after_inits (HAS : bool) (inits : list (string * nat))
    (h0 : TmaAutoTuneHelper) (name : string) :
  let h := fold_left (fun h (np : string * nat) =>
                        init_tma_descriptor HAS (snd np) h (fst np)) inits h0 in
  (~ In name (map fst inits) -> descriptors h name = descriptors h0 name)
  /\ (In name (map fst inits) ->
      exists p, In (name, p) inits
                /\ descriptors h name
                   = Some (mk_descriptor (if HAS then cpu else cuda) TMA_SIZE p None)).
Proof.
  revert h0. induction inits as [|[n p] inits IH] using rev_ind; intros h0; cbn zeta.
  - cbn. split; [reflexivity | intros []].
  - rewrite fold_left_app, map_app. cbn [fold_left map fst snd].
    specialize (IH h0). cbn zeta in IH. destruct IH as (IH1 & IH2).
    unfold init_tma_descriptor at 1. unfold init_tma_descriptor at 2.
    unfold set_descriptor. cbn [descriptors].
    destruct (String.eqb_spec name n) as [-> | Hne].
    + split.
      * intros Hnot. exfalso. apply Hnot. apply in_or_app. right. left. reflexivity.
      * intros _. exists p. split; [apply in_or_app; right; left; reflexivity|].
        reflexivity.
    + split.
      * intros Hnot. apply IH1. intros Hin. apply Hnot. apply in_or_app. left. exact Hin.
      * intros Hin. apply in_app_or in Hin. destruct Hin as [Hin | [Hin | []]].
        -- destruct (IH2 Hin) as (p' & Hp' & E). exists p'. split; [|exact E].
           apply in_or_app. left. exact Hp'.
        -- cbn in Hin. congruence.
Qed.

(** A helper on which [init_tma_descriptor] was called for the names of
    a list, in any order and any number of times: looking a descriptor up
    for a kernel succeeds for exactly these names, with the address of a
    tensor made for that name; for any other name it raises [KeyError];
    the assertion that the descriptor is not [None] never fails. *)
Theorem tma_helper_get_after_inits (HAS : bool) (inits : list (string * nat))
    (name : string) :
  let h := fold_left (fun h (np : string * nat) =>
                        init_tma_descriptor HAS (snd np) h (fst np))
                     inits TmaAutoTuneHelper_init in
  let r := get_tma_descriptor_kernel_param HAS h name in
  (r = TmaRaised (TmaKeyError name) <-> ~ In name (map fst inits))
  /\ ((exists p, In (name, p) inits
                 /\ r = TmaOk (if HAS then KernelParamWrapper p else CudaDescriptor p))
      <-> In name (map fst inits))
  /\ r <> TmaRaised TmaAssertionError.
Proof.
  cbn zeta.
  destruct (descriptors_after_inits HAS inits TmaAutoTuneHelper_init name) as (H1 & H2).
  cbn zeta in H1, H2. unfold get_tma_descriptor_kernel_param.
  destruct (in_dec string_dec name (map fst inits)) as [Hin | Hnot].
  - destruct (H2 Hin) as (p & Hp & E). rewrite E. cbn [d_data_ptr].
    split; [|split].
    + split; [discriminate | intros Hn; contradiction].
    + split; [intros _; exact Hin|]. intros _. exists p. split; [exact Hp | reflexivity].
    + discriminate.
  - rewrite (H1 Hnot). cbn [TmaAutoTuneHelper_init descriptors].
    split; [|split].
    + split; [intros _; exact Hnot | reflexivity].
    + split; [|intros Hin; contradiction].
      intros (p & Hp & _). apply in_map_iff. exists (name, p). split; [reflexivity | exact Hp].
    + discriminate.
Qed.

(** The descriptor setup of [forward]: the four kernel parameters are
    found, and the fills [grid_tma] performs for a configuration with
    [ENABLE_TMA] never raise [KeyError]; they fail, with the alignment
    assertion, exactly when the descriptors are filled in place
    ([HAS_TMA_DESC]) and the address of one of the four is not a
    multiple of 64; otherwise the kernel parameters are the same as
    before and the descriptors of [q] and [k] hold boxes of
    [BLOCK_M] (halved under [ENABLE_WS]) and [BLOCK_N] rows.  Without
    [ENABLE_TMA] the helper is left as it is. *)
Theorem forward_descriptor_setup (HAS : bool) (pk pv pq po : nat)
    (q k v : tensor) (k_ptr v_ptr q_ptr o_ptr : nat) (conf : Config) (ENABLE_WS : bool) :
  let h := forward_desc_helper HAS pk pv pq po in
  let wrap p := if HAS then KernelParamWrapper p else CudaDescriptor p in
  let r := grid_tma_fills HAS h q k v k_ptr v_ptr q_ptr o_ptr conf ENABLE_WS in
  let aligned := ((pk mod 64 =? 0) && (pv mod 64 =? 0)
                  && (pq mod 64 =? 0) && (po mod 64 =? 0))%nat in
  get_tma_descriptor_kernel_param HAS h "q" = TmaOk (wrap pq)
  /\ get_tma_descriptor_kernel_param HAS h "k" = TmaOk (wrap pk)
  /\ get_tma_descriptor_kernel_param HAS h "v" = TmaOk (wrap pv)
  /\ get_tma_descriptor_kernel_param HAS h "o" = TmaOk (wrap po)
  /\ (ENABLE_TMA conf = false -> r = TmaOk h)
  /\ (ENABLE_TMA conf = true ->
      if HAS && negb aligned then r = TmaRaised TmaAssertionError
      else exists h',
          r = TmaOk h'
          /\ (forall name, get_tma_descriptor_kernel_param HAS h' name
                           = get_tma_descriptor_kernel_param HAS h name)
          /\ option_map d_contents (descriptors h' "q")
             = Some (Some (Fill2d q_ptr (shape0 q * shape1 q * shape2 q) (HEAD_DIM_Q q)
                                  (BLOCK_M conf / (if ENABLE_WS then 2 else 1))
                                  (HEAD_DIM_Q q) (element_size (t_dtype q))))
          /\ option_map d_contents (descriptors h' "k")
             = Some (Some (Fill2d k_ptr (shape0 q * shape1 q * shape2 q) (HEAD_DIM_Q q)
                                  (BLOCK_N conf) (HEAD_DIM_Q q)
                                  (element_size (t_dtype k)))))
  /\ (forall name, r <> TmaRaised (TmaKeyError name)).
Proof.
  cbn zeta.
  split; [reflexivity|]. split; [reflexivity|]. split; [reflexivity|].
  split; [reflexivity|].
  unfold grid_tma_fills.
  destruct (ENABLE_TMA conf); cbn [negb].
  2:{ split; [reflexivity|]. split; [discriminate|]. intros name; discriminate. }
  split; [discriminate|].
  unfold fill_2d_tma_descriptor, fill_tma_descriptor, forward_desc_helper,
    init_tma_descriptor, set_descriptor, TmaAutoTuneHelper_init.
  destruct HAS, (dtype_eqb (t_dtype v) float8_e5m2);
    cbn [tma_bind descriptors String.eqb Ascii.eqb Bool.eqb andb negb
         d_data_ptr d_device d_numel];
    try (destruct (pk mod 64 =? 0)%nat;
         cbn [tma_bind descriptors String.eqb Ascii.eqb Bool.eqb andb negb
              d_data_ptr d_device d_numel];
         [|split; [intros _; reflexivity | intros name; discriminate]]);
    try (destruct (pv mod 64 =? 0)%nat;
         cbn [tma_bind descriptors String.eqb Ascii.eqb Bool.eqb andb negb
              d_data_ptr d_device d_numel];
         [|split; [intros _; reflexivity | intros name; discriminate]]);
    try (destruct (pq mod 64 =? 0)%nat;
         cbn [tma_bind descriptors String.eqb Ascii.eqb Bool.eqb andb negb
              d_data_ptr d_device d_numel];
         [|split; [intros _; reflexivity | intros name; discriminate]]);
    try (destruct (po mod 64 =? 0)%nat;
         cbn [tma_bind descriptors String.eqb Ascii.eqb Bool.eqb andb negb
              d_data_ptr d_device d_numel];
         [|split; [intros _; reflexivity | intros name; discriminate]]);
    (split; [|intros name; discriminate]);
    intros _; eexists; (split; [reflexivity|]);
    (split; [|split; reflexivity]);
    intros name; unfold get_tma_descriptor_kernel_param; cbn [descriptors];
    destruct (String.eqb name "o"), (String.eqb name "q"), (String.eqb name "v"),
             (String.eqb name "k"); reflexivity.
Qed.

(** ** [dv] as the adjoint of the weighted sum of the values *)

Lemma rsum_swap (f : nat -> nat -> R) (n m : nat) :
  rsum (fun a => rsum (fun b => f a b) m) n = rsum (fun b => rsum (fun a => f a b) n) m.
Proof.
  induction n as [|n IH]; cbn [rsum].
  - symmetry. apply rsum_zero. intros; reflexivity.
  - rewrite IH, <- rsum_plus. reflexivity.
Qed.

(** The [dv] that [backward] returns is the adjoint of the map from the
    values to the causally weighted sums [sum over j <= i of P_ij v_j],
    with the weights [P] the backward pass recomputes: pairing [dv] with
    any matrix [W] of values gives the same number as pairing [do] with
    the weighted sums of [W].  So [dv] is the gradient with respect to
    [v] of every loss whose gradient at these sums is [do]. *)
Theorem backward_dv_is_adjoint
    (RCP_LN2 LN2 : R) (ctx : bwd_ctx) (Q K V O DO : matrix)
    (M : nat -> R) (N_CTX : nat) (g0 : grads) (delta0 : nat -> R) (W : matrix) :
  (N_CTX mod 128 = 0)%nat ->
  let HD := ctx_HEAD_DIM ctx in
  let P (i j : nat) :=
    exp2 (ctx_sm_scale ctx * RCP_LN2 * rsum (fun c => Q i c * K j c) HD - M i) in
  exists g,
    backward RCP_LN2 LN2 ctx Q K V O DO M N_CTX true true g0 delta0 = BwdReturned g
    /\ rsum (fun j => rsum (fun c => DV g j c * W j c) HD) N_CTX
       = rsum (fun i =>
                 rsum (fun c =>
                         DO i c
                         * rsum (fun j => if (j <=? i)%nat then P i j * W j c else 0) N_CTX)
                      HD)
              N_CTX.
Proof.
  intros Hmod HD P.
  destruct (backward_closed_form RCP_LN2 LN2 ctx Q K V O DO M N_CTX g0 delta0 Hmod)
    as (g & Hg & Hc).
  exists g. split; [exact Hg|].
  transitivity
    (rsum (fun j => rsum (fun c => rsum (fun i =>
       if (j <=? i)%nat then P i j * DO i c * W j c else 0) N_CTX) HD) N_CTX).
  - apply rsum_ext. intros j Hj. apply rsum_ext. intros c Hcol.
    destruct (Hc j c) as (Hv & _). fold HD in Hv. rewrite Hv.
    destruct (Nat.ltb_spec c HD); [|lia]. destruct (Nat.ltb_spec j N_CTX); [|lia].
    cbn [andb]. unfold causal_dv. rewrite rsum_scal. apply rsum_ext. intros i _.
    rewrite bwd_w_unscaled. destruct (j <=? i)%nat; [|ring]. subst P. cbn beta. ring.
  - rewrite (rsum_ext _ (fun j => rsum (fun i => rsum (fun c =>
               if (j <=? i)%nat then P i j * DO i c * W j c else 0) HD) N_CTX) N_CTX)
      by (intros j _; apply rsum_swap).
    rewrite rsum_swap. apply rsum_ext. intros i _.
    rewrite rsum_swap. apply rsum_ext. intros c _.
    rewrite Rmult_comm, rsum_scal. apply rsum_ext. intros j _.
    destruct (j <=? i)%nat; ring.
Qed.

Lemma backward_dv_is_adjoint_witness :
  (128 mod 128 = 0)%nat
  /\ exists g,
       backward RCP_LN2_literal LN2_literal bwd_ctx_16 bwd_ones bwd_ones bwd_ones
                bwd_ones bwd_ones bwd_stat0 128 true true bwd_g0 bwd_stat0
       = BwdReturned g
       /\ rsum (fun j => rsum (fun c => DV g j c * bwd_late_2 j c) 16) 128
          = rsum (fun i =>
                    rsum (fun c =>
                            bwd_ones i c
                            * rsum (fun j =>
                                      if (j <=? i)%nat
                                      then exp2 (ctx_sm_scale bwd_ctx_16 * RCP_LN2_literal
                                                 * rsum (fun c => bwd_ones i c * bwd_ones j c)
                                                        16
                                                 - bwd_stat0 i)
                                           * bwd_late_2 j c
                                      else 0) 128)
                         16)
                 128.
Proof.
  assert (H : (128 mod 128 = 0)%nat) by reflexivity.
  split; [exact H|].
  exact (backward_dv_is_adjoint RCP_LN2_literal LN2_literal bwd_ctx_16 bwd_ones bwd_ones
           bwd_ones bwd_ones bwd_ones bwd_stat0 128 bwd_g0 bwd_stat0 bwd_late_2 H).
Defined.


(** ** The literal the softmax scale is multiplied by *)

Lemma exp_double_lower (a b x y : R) :
  y = 2 * x -> 0 < a -> a < exp x -> b <= a * a -> b < exp y.
Proof.
  intros -> Ha H Hb. replace (2 * x) with (x + x) by ring. rewrite exp_plus.
  apply Rle_lt_trans with (a * a); [exact Hb|].
  apply Rmult_le_0_lt_compat; lra.
Qed.

Lemma exp_double_upper (a b x y : R) :
  y = 2 * x -> exp x < a -> a * a <= b -> exp y < b.
Proof.
  intros -> H Hb. replace (2 * x) with (x + x) by ring. rewrite exp_plus.
  apply Rlt_le_trans with (a * a); [|exact Hb].
  pose proof (exp_pos x). apply Rmult_le_0_lt_compat; lra.
Qed.

Lemma exp_upper_small (x : R) : 0 < x < 1 -> exp x < / (1 - x).
Proof.
  intros [H0 H1]. pose proof (exp_ineq1 (- x) ltac:(lra)) as H.
  rewrite exp_Ropp in H. pose proof (exp_pos x) as Hp.
  apply Rmult_lt_reg_r with (1 - x); [lra|].
  rewrite Rinv_l by lra.
  apply Rmult_lt_reg_r with (/ exp x); [apply Rinv_0_lt_compat; exact Hp|].
  replace (exp x * (1 - x) * / exp x) with (1 - x) by (field; lra). lra.
Qed.

Lemma exp_above_2 : 2 < exp (100000000 / 144269504).
Proof.
  assert (H0 : 1000000000161385904296080222821 / 1000000000000000000000000000000 < exp (100000000 / 619632801490141184)).
  { apply Rle_lt_trans with (1 + 100000000 / 619632801490141184); [lra|]. apply exp_ineq1. lra. }
  assert (H1 : 1000000000322771808618205855747 / 1000000000000000000000000000000 < exp (100000000 / 309816400745070592))
    by (apply (exp_double_lower (1000000000161385904296080222821 / 1000000000000000000000000000000) _ (100000000 / 619632801490141184)); [lra | lra | exact H0 | lra]).
  clear H0.
  assert (H2 : 1000000000645543617340593351932 / 1000000000000000000000000000000 < exp (100000000 / 154908200372535296))
    by (apply (exp_double_lower (1000000000322771808618205855747 / 1000000000000000000000000000000) _ (100000000 / 309816400745070592)); [lra | lra | exact H1 | lra]).
  clear H1.
  assert (H3 : 1000000001291087235097913265753 / 1000000000000000000000000000000 < exp (100000000 / 77454100186267648))
    by (apply (exp_double_lower (1000000000645543617340593351932 / 1000000000000000000000000000000) _ (100000000 / 154908200372535296)); [lra | lra | exact H2 | lra]).
  clear H2.
  assert (H4 : 1000000002582174471862732780138 / 1000000000000000000000000000000 < exp (100000000 / 38727050093133824))
    by (apply (exp_double_lower (1000000001291087235097913265753 / 1000000000000000000000000000000) _ (100000000 / 77454100186267648)); [lra | lra | exact H3 | lra]).
  clear H3.
  assert (H5 : 1000000005164348950393090563415 / 1000000000000000000000000000000 < exp (100000000 / 19363525046566912))
    by (apply (exp_double_lower (1000000002582174471862732780138 / 1000000000000000000000000000000) _ (100000000 / 38727050093133824)); [lra | lra | exact H4 | lra]).
  clear H4.
  assert (H6 : 1000000010328697927456681208256 / 1000000000000000000000000000000 < exp (100000000 / 9681762523283456))
    by (apply (exp_double_lower (1000000005164348950393090563415 / 1000000000000000000000000000000) _ (100000000 / 19363525046566912)); [lra | lra | exact H5 | lra]).
  clear H5.
  assert (H7 : 1000000020657395961595363293159 / 1000000000000000000000000000000 < exp (100000000 / 4840881261641728))
    by (apply (exp_double_lower (1000000010328697927456681208256 / 1000000000000000000000000000000) _ (100000000 / 9681762523283456)); [lra | lra | exact H6 | lra]).
  clear H6.
  assert (H8 : 1000000041314792349918734500454 / 1000000000000000000000000000000 < exp (100000000 / 2420440630820864))
    by (apply (exp_double_lower (1000000020657395961595363293159 / 1000000000000000000000000000000) _ (100000000 / 4840881261641728)); [lra | lra | exact H7 | lra]).
  clear H7.
  assert (H9 : 1000000082629586406749535917811 / 1000000000000000000000000000000 < exp (100000000 / 1210220315410432))
    by (apply (exp_double_lower (1000000041314792349918734500454 / 1000000000000000000000000000000) _ (100000000 / 2420440630820864)); [lra | lra | exact H8 | lra]).
  clear H8.
  assert (H10 : 1000000165259179641147621586109 / 1000000000000000000000000000000 < exp (100000000 / 605110157705216))
    by (apply (exp_double_lower (1000000082629586406749535917811 / 1000000000000000000000000000000) _ (100000000 / 1210220315410432)); [lra | lra | exact H9 | lra]).
  clear H9.
  assert (H11 : 1000000330518386592891698837318 / 1000000000000000000000000000000 < exp (100000000 / 302555078852608))
    by (apply (exp_double_lower (1000000165259179641147621586109 / 1000000000000000000000000000000) _ (100000000 / 605110157705216)); [lra | lra | exact H10 | lra]).
  clear H10.
  assert (H12 : 1000000661036882428187273642847 / 1000000000000000000000000000000 < exp (100000000 / 151277539426304))
    by (apply (exp_double_lower (1000000330518386592891698837318 / 1000000000000000000000000000000) _ (100000000 / 302555078852608)); [lra | lra | exact H11 | lra]).
  clear H11.
  assert (H13 : 1000001322074201826134477662778 / 1000000000000000000000000000000 < exp (100000000 / 75638769713152))
    by (apply (exp_double_lower (1000000661036882428187273642847 / 1000000000000000000000000000000) _ (100000000 / 151277539426304)); [lra | lra | exact H12 | lra]).
  clear H12.
  assert (H14 : 1000002644150151532464089536116 / 1000000000000000000000000000000 < exp (100000000 / 37819384856576))
    by (apply (exp_double_lower (1000001322074201826134477662778 / 1000000000000000000000000000000) _ (100000000 / 75638769713152)); [lra | lra | exact H13 | lra]).
  clear H13.
  assert (H15 : 1000005288307294594952028225038 / 1000000000000000000000000000000 < exp (100000000 / 18909692428288))
    by (apply (exp_double_lower (1000002644150151532464089536116 / 1000000000000000000000000000000) _ (100000000 / 37819384856576)); [lra | lra | exact H14 | lra]).
  clear H14.
  assert (H16 : 1000010576642555383946122630813 / 1000000000000000000000000000000 < exp (100000000 / 9454846214144))
    by (apply (exp_double_lower (1000005288307294594952028225038 / 1000000000000000000000000000000) _ (100000000 / 18909692428288)); [lra | lra | exact H15 | lra]).
  clear H15.
  assert (H17 : 1000021153396976135636603911450 / 1000000000000000000000000000000 < exp (100000000 / 4727423107072))
    by (apply (exp_double_lower (1000010576642555383946122630813 / 1000000000000000000000000000000) _ (100000000 / 9454846214144)); [lra | lra | exact H16 | lra]).
  clear H16.
  assert (H18 : 1000042307241418474903192117330 / 1000000000000000000000000000000 < exp (100000000 / 2363711553536))
    by (apply (exp_double_lower (1000021153396976135636603911450 / 1000000000000000000000000000000) _ (100000000 / 4727423107072)); [lra | lra | exact H17 | lra]).
  clear H17.
  assert (H19 : 1000084616272739626247502573382 / 1000000000000000000000000000000 < exp (100000000 / 1181855776768))
    by (apply (exp_double_lower (1000042307241418474903192117330 / 1000000000000000000000000000000) _ (100000000 / 2363711553536)); [lra | lra | exact H18 | lra]).
  clear H18.
  assert (H20 : 1000169239705392864841821167845 / 1000000000000000000000000000000 < exp (100000000 / 590927888384))
    by (apply (exp_double_lower (1000084616272739626247502573382 / 1000000000000000000000000000000) _ (100000000 / 1181855776768)); [lra | lra | exact H19 | lra]).
  clear H19.
  assert (H21 : 1000338508052863611147327359405 / 1000000000000000000000000000000 < exp (100000000 / 295463944192))
    by (apply (exp_double_lower (1000169239705392864841821167845 / 1000000000000000000000000000000) _ (100000000 / 590927888384)); [lra | lra | exact H20 | lra]).
  clear H20.
  assert (H22 : 1000677130693429075808013799173 / 1000000000000000000000000000000 < exp (100000000 / 147731972096))
    by (apply (exp_double_lower (1000338508052863611147327359405 / 1000000000000000000000000000000) _ (100000000 / 295463944192)); [lra | lra | exact H21 | lra]).
  clear H21.
  assert (H23 : 1001354719892834135357075242289 / 1000000000000000000000000000000 < exp (100000000 / 73865986048))
    by (apply (exp_double_lower (1000677130693429075808013799173 / 1000000000000000000000000000000) _ (100000000 / 147731972096)); [lra | lra | exact H22 | lra]).
  clear H22.
  assert (H24 : 1002711275051656311245336881067 / 1000000000000000000000000000000 < exp (100000000 / 36932993024))
    by (apply (exp_double_lower (1001354719892834135357075242289 / 1000000000000000000000000000000) _ (100000000 / 73865986048)); [lra | lra | exact H23 | lra]).
  clear H23.
  assert (H25 : 1005429901115718356423885538129 / 1000000000000000000000000000000 < exp (100000000 / 18466496512))
    by (apply (exp_double_lower (1002711275051656311245336881067 / 1000000000000000000000000000000) _ (100000000 / 36932993024)); [lra | lra | exact H24 | lra]).
  clear H24.
  assert (H26 : 1010889286057563192299690639286 / 1000000000000000000000000000000 < exp (100000000 / 9233248256))
    by (apply (exp_double_lower (1005429901115718356423885538129 / 1000000000000000000000000000000) _ (100000000 / 18466496512)); [lra | lra | exact H25 | lra]).
  clear H25.
  assert (H27 : 1021897148665969824730743457845 / 1000000000000000000000000000000 < exp (100000000 / 4616624128))
    by (apply (exp_double_lower (1010889286057563192299690639286 / 1000000000000000000000000000000) _ (100000000 / 9233248256)); [lra | lra | exact H26 | lra]).
  clear H26.
  assert (H28 : 1044273782451639233536329022434 / 1000000000000000000000000000000 < exp (100000000 / 2308312064))
    by (apply (exp_double_lower (1021897148665969824730743457845 / 1000000000000000000000000000000) _ (100000000 / 4616624128)); [lra | lra | exact H27 | lra]).
  clear H27.
  assert (H29 : 1090507732715853545213105082576 / 1000000000000000000000000000000 < exp (100000000 / 1154156032))
    by (apply (exp_double_lower (1044273782451639233536329022434 / 1000000000000000000000000000000) _ (100000000 / 2308312064)); [lra | lra | exact H28 | lra]).
  clear H28.
  assert (H30 : 1189207115113071476581451658749 / 1000000000000000000000000000000 < exp (100000000 / 577078016))
    by (apply (exp_double_lower (1090507732715853545213105082576 / 1000000000000000000000000000000) _ (100000000 / 1154156032)); [lra | lra | exact H29 | lra]).
  clear H29.
  assert (H31 : 1414213562635554033921221538042 / 1000000000000000000000000000000 < exp (100000000 / 288539008))
    by (apply (exp_double_lower (1189207115113071476581451658749 / 1000000000000000000000000000000) _ (100000000 / 577078016)); [lra | lra | exact H30 | lra]).
  clear H30.
  assert (H32 : 2000000000742346112714328007444 / 1000000000000000000000000000000 < exp (100000000 / 144269504))
    by (apply (exp_double_lower (1414213562635554033921221538042 / 1000000000000000000000000000000) _ (100000000 / 288539008)); [lra | lra | exact H31 | lra]).
  clear H31.
  lra.
Qed.

Lemma exp_below_2 : exp (69314718 / 100000000) < 2.
Proof.
  assert (H0 : exp (69314718 / 429496729600000000) < 1000000000161385904092310039400 / 1000000000000000000000000000000).
  { apply Rlt_le_trans with (/ (1 - 69314718 / 429496729600000000)); [apply exp_upper_small; lra|].
    apply Rmult_le_reg_r with (1 - 69314718 / 429496729600000000); [lra|]. rewrite Rinv_l by lra. lra. }
  assert (H1 : exp (69314718 / 214748364800000000) < 1000000000322771808210665488840 / 1000000000000000000000000000000)
    by (apply (exp_double_upper (1000000000161385904092310039400 / 1000000000000000000000000000000) _ (69314718 / 429496729600000000)); [lra | exact H0 | lra]).
  clear H0.
  assert (H2 : exp (69314718 / 107374182400000000) < 1000000000645543616525512617856 / 1000000000000000000000000000000)
    by (apply (exp_double_upper (1000000000322771808210665488840 / 1000000000000000000000000000000) _ (69314718 / 214748364800000000)); [lra | exact H1 | lra]).
  clear H1.
  assert (H3 : exp (69314718 / 53687091200000000) < 1000000001291087233467751796549 / 1000000000000000000000000000000)
    by (apply (exp_double_upper (1000000000645543616525512617856 / 1000000000000000000000000000000) _ (69314718 / 107374182400000000)); [lra | exact H2 | lra]).
  clear H2.
  assert (H4 : exp (69314718 / 26843545600000000) < 1000000002582174468602409837522 / 1000000000000000000000000000000)
    by (apply (exp_double_upper (1000000001291087233467751796549 / 1000000000000000000000000000000) _ (69314718 / 53687091200000000)); [lra | exact H3 | lra]).
  clear H3.
  assert (H5 : exp (69314718 / 13421772800000000) < 1000000005164348943872444661347 / 1000000000000000000000000000000)
    by (apply (exp_double_upper (1000000002582174468602409837522 / 1000000000000000000000000000000) _ (69314718 / 26843545600000000)); [lra | exact H4 | lra]).
  clear H4.
  assert (H6 : exp (69314718 / 6710886400000000) < 1000000010328697914415389336771 / 1000000000000000000000000000000)
    by (apply (exp_double_upper (1000000005164348943872444661347 / 1000000000000000000000000000000) _ (69314718 / 13421772800000000)); [lra | exact H5 | lra]).
  clear H5.
  assert (H7 : exp (69314718 / 3355443200000000) < 1000000020657395935512779280791 / 1000000000000000000000000000000)
    by (apply (exp_double_upper (1000000010328697914415389336771 / 1000000000000000000000000000000) _ (69314718 / 6710886400000000)); [lra | exact H6 | lra]).
  clear H6.
  assert (H8 : exp (69314718 / 1677721600000000) < 1000000041314792297753565398122 / 1000000000000000000000000000000)
    by (apply (exp_double_upper (1000000020657395935512779280791 / 1000000000000000000000000000000) _ (69314718 / 3355443200000000)); [lra | exact H7 | lra]).
  clear H7.
  assert (H9 : exp (69314718 / 838860800000000) < 1000000082629586302419193402762 / 1000000000000000000000000000000)
    by (apply (exp_double_upper (1000000041314792297753565398122 / 1000000000000000000000000000000) _ (69314718 / 1677721600000000)); [lra | exact H8 | lra]).
  clear H8.
  assert (H10 : exp (69314718 / 419430400000000) < 1000000165259179432486919314466 / 1000000000000000000000000000000)
    by (apply (exp_double_upper (1000000082629586302419193402762 / 1000000000000000000000000000000) _ (69314718 / 838860800000000)); [lra | exact H9 | lra]).
  clear H9.
  assert (H11 : exp (69314718 / 209715200000000) < 1000000330518386175570225327840 / 1000000000000000000000000000000)
    by (apply (exp_double_upper (1000000165259179432486919314466 / 1000000000000000000000000000000) _ (69314718 / 419430400000000)); [lra | exact H10 | lra]).
  clear H10.
  assert (H12 : exp (69314718 / 104857600000000) < 1000000661036881593544050759052 / 1000000000000000000000000000000)
    by (apply (exp_double_upper (1000000330518386175570225327840 / 1000000000000000000000000000000) _ (69314718 / 209715200000000)); [lra | exact H11 | lra]).
  clear H11.
  assert (H13 : exp (69314718 / 52428800000000) < 1000001322074200156846928435282 / 1000000000000000000000000000000)
    by (apply (exp_double_upper (1000000661036881593544050759052 / 1000000000000000000000000000000) _ (69314718 / 104857600000000)); [lra | exact H12 | lra]).
  clear H12.
  assert (H14 : exp (69314718 / 26214400000000) < 1000002644150148193884577237119 / 1000000000000000000000000000000)
    by (apply (exp_double_upper (1000001322074200156846928435282 / 1000000000000000000000000000000) _ (69314718 / 52428800000000)); [lra | exact H13 | lra]).
  clear H13.
  assert (H15 : exp (69314718 / 13107200000000) < 1000005288307287917775348216010 / 1000000000000000000000000000000)
    by (apply (exp_double_upper (1000002644150148193884577237119 / 1000000000000000000000000000000) _ (69314718 / 26214400000000)); [lra | exact H14 | lra]).
  clear H14.
  assert (H16 : exp (69314718 / 6553600000000) < 1000010576642542029522140688514 / 1000000000000000000000000000000)
    by (apply (exp_double_upper (1000005288307287917775348216010 / 1000000000000000000000000000000) _ (69314718 / 13107200000000)); [lra | exact H15 | lra]).
  clear H15.
  assert (H17 : exp (69314718 / 3276800000000) < 1000021153396949426506150089051 / 1000000000000000000000000000000)
    by (apply (exp_double_upper (1000010576642542029522140688514 / 1000000000000000000000000000000) _ (69314718 / 6553600000000)); [lra | exact H16 | lra]).
  clear H16.
  assert (H18 : exp (69314718 / 1638400000000) < 1000042307241365055512306794492 / 1000000000000000000000000000000)
    by (apply (exp_double_upper (1000021153396949426506150089051 / 1000000000000000000000000000000) _ (69314718 / 3276800000000)); [lra | exact H17 | lra]).
  clear H17.
  assert (H19 : exp (69314718 / 819200000000) < 1000084616272632782945677797334 / 1000000000000000000000000000000)
    by (apply (exp_double_upper (1000042307241365055512306794492 / 1000000000000000000000000000000) _ (69314718 / 1638400000000)); [lra | exact H18 | lra]).
  clear H18.
  assert (H20 : exp (69314718 / 409600000000) < 1000169239705179160156807691950 / 1000000000000000000000000000000)
    by (apply (exp_double_upper (1000084616272632782945677797334 / 1000000000000000000000000000000) _ (69314718 / 819200000000)); [lra | exact H19 | lra]).
  clear H19.
  assert (H21 : exp (69314718 / 204800000000) < 1000338508052436129442664587774 / 1000000000000000000000000000000)
    by (apply (exp_double_upper (1000169239705179160156807691950 / 1000000000000000000000000000000) _ (69314718 / 409600000000)); [lra | exact H20 | lra]).
  clear H20.
  assert (H22 : exp (69314718 / 102400000000) < 1000677130692573822986689478228 / 1000000000000000000000000000000)
    by (apply (exp_double_upper (1000338508052436129442664587774 / 1000000000000000000000000000000) _ (69314718 / 204800000000)); [lra | exact H21 | lra]).
  clear H21.
  assert (H23 : exp (69314718 / 51200000000) < 1001354719891122471478555410836 / 1000000000000000000000000000000)
    by (apply (exp_double_upper (1000677130692573822986689478228 / 1000000000000000000000000000000) _ (69314718 / 102400000000)); [lra | exact H22 | lra]).
  clear H22.
  assert (H24 : exp (69314718 / 25600000000) < 1002711275048228345838087995062 / 1000000000000000000000000000000)
    by (apply (exp_double_upper (1001354719891122471478555410836 / 1000000000000000000000000000000) _ (69314718 / 51200000000)); [lra | exact H23 | lra]).
  clear H23.
  assert (H25 : exp (69314718 / 12800000000) < 1005429901108843837295226287524 / 1000000000000000000000000000000)
    by (apply (exp_double_upper (1002711275048228345838087995062 / 1000000000000000000000000000000) _ (69314718 / 25600000000)); [lra | exact H24 | lra]).
  clear H24.
  assert (H26 : exp (69314718 / 6400000000) < 1010889286043739498124245928993 / 1000000000000000000000000000000)
    by (apply (exp_double_upper (1005429901108843837295226287524 / 1000000000000000000000000000000) _ (69314718 / 12800000000)); [lra | exact H25 | lra]).
  clear H25.
  assert (H27 : exp (69314718 / 3200000000) < 1021897148638021376059547756593 / 1000000000000000000000000000000)
    by (apply (exp_double_upper (1010889286043739498124245928993 / 1000000000000000000000000000000) _ (69314718 / 6400000000)); [lra | exact H26 | lra]).
  clear H26.
  assert (H28 : exp (69314718 / 1600000000) < 1044273782394518353523645937574 / 1000000000000000000000000000000)
    by (apply (exp_double_upper (1021897148638021376059547756593 / 1000000000000000000000000000000) _ (69314718 / 3200000000)); [lra | exact H27 | lra]).
  clear H27.
  assert (H29 : exp (69314718 / 800000000) < 1090507732596553870360746270586 / 1000000000000000000000000000000)
    by (apply (exp_double_upper (1044273782394518353523645937574 / 1000000000000000000000000000000) _ (69314718 / 1600000000)); [lra | exact H28 | lra]).
  clear H28.
  assert (H30 : exp (69314718 / 400000000) < 1189207114852877040721715394971 / 1000000000000000000000000000000)
    by (apply (exp_double_upper (1090507732596553870360746270586 / 1000000000000000000000000000000) _ (69314718 / 800000000)); [lra | exact H29 | lra]).
  clear H29.
  assert (H31 : exp (69314718 / 200000000) < 1414213562016703885114462530556 / 1000000000000000000000000000000)
    by (apply (exp_double_upper (1189207114852877040721715394971 / 1000000000000000000000000000000) _ (69314718 / 400000000)); [lra | exact H30 | lra]).
  clear H30.
  assert (H32 : exp (69314718 / 100000000) < 1999999998991973565734204685885 / 1000000000000000000000000000000)
    by (apply (exp_double_upper (1414213562016703885114462530556 / 1000000000000000000000000000000) _ (69314718 / 200000000)); [lra | exact H31 | lra]).
  clear H31.
  lra.
Qed.

Lemma ln_2_bounds : 69314718 / 100000000 < ln 2 < 100000000 / 144269504.
Proof.
  split.
  - rewrite <- (ln_exp (69314718 / 100000000)). apply ln_increasing; [apply exp_pos|].
    exact exp_below_2.
  - rewrite <- (ln_exp (100000000 / 144269504)). apply ln_increasing; [lra|].
    exact exp_above_2.
Qed.

Lemma LOG2E_literal_ln2 : 1 - 2 / 1000000000 < LOG2E_literal * ln 2 < 1.
Proof.
  pose proof ln_2_bounds as [H1 H2]. unfold LOG2E_literal. lra.
Qed.

(** ** The forward kernel and direct attention *)

Lemma weight2_stage1_exp LOG2E Q K HD sm_scale i j :
  weight2 Q K HD (sm_scale * LOG2E) 1 i j
  = exp (sm_scale * (LOG2E * ln 2) * rsum (fun c => Q i c * K j c) HD).
Proof. unfold weight2, logit2, exp2. cbn [Nat.eqb]. f_equal. ring. Qed.

Lemma weight2_stage2_exp LOG2E Q K HD sm_scale i j :
  weight2 Q K HD (sm_scale * LOG2E) 2 i j
  = exp (sm_scale * (LOG2E * ln 2) * rsum (fun c => Q i c * K j c) HD)
    * (if (j <=? i)%nat then 1 else exp2 MASK_VALUE).
Proof.
  unfold weight2, logit2. cbn [Nat.eqb]. rewrite exp2_plus.
  destruct (j <=? i)%nat.
  - unfold exp2. rewrite Rmult_0_l, exp_0. f_equal. f_equal. ring.
  - f_equal. unfold exp2. f_equal. ring.
Qed.

Lemma fwd_causal_damped LOG2E Q K V sm_scale start_m N_CTX BM BN HD :
  (0 < BN)%nat -> Nat.divide BN BM -> (0 < BM)%nat ->
  forall r d,
    Out_tile (_attn_fwd_compute LOG2E Q K V sm_scale start_m N_CTX BM BN HD 3) r d
    = damped_causal_attention Q K V (sm_scale * (LOG2E * ln 2)) (exp2 MASK_VALUE)
        ((start_m + 1) * BM) HD (start_m * BM + r)%nat d.
Proof.
  intros HBN Hdiv HBM r d.
  destruct (fwd_causal_closed_form LOG2E Q K V sm_scale start_m N_CTX BM BN HD r HBN HBM)
    as [Ho _].
  rewrite Ho. unfold stage_N, stage_Z.
  rewrite stage_keys_off_band, stage_keys_on_band by assumption.
  unfold damped_causal_attention, fwd_offs_m, arange.
  set (i := (start_m * BM + r)%nat).
  set (w := fun j => exp (sm_scale * (LOG2E * ln 2) * rsum (fun c => Q i c * K j c) HD)
                     * (if (j <=? i)%nat then 1 else exp2 MASK_VALUE)).
  assert (H1 : forall j, In j (seq 0 (start_m * BM)) ->
                 weight2 Q K HD (sm_scale * LOG2E) 1 i j = w j).
  { intros j Hj. apply in_seq in Hj. rewrite weight2_stage1_exp. subst w. cbn beta.
    destruct (Nat.leb_spec j i); [ring | subst i; lia]. }
  assert (H2 : forall j, weight2 Q K HD (sm_scale * LOG2E) 2 i j = w j).
  { intros j. apply weight2_stage2_exp. }
  rewrite (lsum_ext_in (fun j => weight2 Q K HD (sm_scale * LOG2E) 1 i j * V j d)
                       (fun j => w j * V j d) (seq 0 (start_m * BM)))
    by (intros j Hj; rewrite (H1 j Hj); reflexivity).
  rewrite (lsum_ext_in (fun j => weight2 Q K HD (sm_scale * LOG2E) 2 i j * V j d)
                       (fun j => w j * V j d) (seq (start_m * BM) BM))
    by (intros j Hj; rewrite H2; reflexivity).
  rewrite (lsum_ext_in (weight2 Q K HD (sm_scale * LOG2E) 1 i) w (seq 0 (start_m * BM)))
    by exact H1.
  rewrite (lsum_ext_in (weight2 Q K HD (sm_scale * LOG2E) 2 i) w (seq (start_m * BM) BM))
    by (intros j _; apply H2).
  rewrite <- !lsum_app.
  replace (seq 0 (start_m * BM) ++ seq (start_m * BM) BM) with (seq 0 ((start_m + 1) * BM)).
  - rewrite <- !rsum_lsum. reflexivity.
  - replace ((start_m + 1) * BM)%nat with (start_m * BM + BM)%nat by lia.
    rewrite seq_app. reflexivity.
Qed.

(** C1 (amended): for every [Q], [K], [V], softmax scale and tile sizes,
    the tile the forward kernel stores after folding in all key tiles
    and normalising is a direct attention output, row by row, at the
    scale [sm_scale * (LOG2E * ln 2)], where [LOG2E] is the constant the
    kernel multiplies the scale by.  In non-causal mode, with [BLOCK_N]
    dividing the sequence length, it is [softmax(s * Q K^T) V]; in
    causal mode, with [BLOCK_N] dividing [BLOCK_M], it is the causal
    softmax over the keys up to the end of the diagonal tile in which
    the keys after the query keep their weight times [2 ^ MASK_VALUE].
    For the literal [1.44269504] of the source the factor [LOG2E * ln 2]
    lies strictly between [1 - 2e-9] and [1]: the scale is close to
    [sm_scale], not equal to it. *)
Theorem fwd_matches_direct_attention LOG2E Q K V sm_scale start_m N_CTX BM BN HD :
  (0 < BN)%nat ->
  let s := sm_scale * (LOG2E * ln 2) in
  (Nat.divide BN N_CTX ->
   forall r d,
     Out_tile (_attn_fwd_compute LOG2E Q K V sm_scale start_m N_CTX BM BN HD
                                 (stage_of_causal false)) r d
     = direct_attention Q K V s N_CTX HD (start_m * BM + r)%nat d)
  /\ (Nat.divide BN BM -> (0 < BM)%nat ->
      forall r d,
        Out_tile (_attn_fwd_compute LOG2E Q K V sm_scale start_m N_CTX BM BN HD
                                    (stage_of_causal true)) r d
        = damped_causal_attention Q K V s (exp2 MASK_VALUE) ((start_m + 1) * BM) HD
                                  (start_m * BM + r)%nat d)
  /\ (LOG2E = LOG2E_literal -> 1 - 2 / 1000000000 < LOG2E * ln 2 < 1).
Proof.
  intros HBN s. split; [|split].
  - intros Hdiv r d. cbn [stage_of_causal]. apply fwd_noncausal_direct; assumption.
  - intros Hdiv HBM r d. cbn [stage_of_causal]. apply fwd_causal_damped; assumption.
  - intros ->. exact LOG2E_literal_ln2.
Qed.

(** C1 at two keys with different scores, tiles of one key, and the
    literal of the source. *)
Lemma fwd_matches_direct_attention_witness :
  (0 < 1)%nat /\ Nat.divide 1 2
  /\ Out_tile (_attn_fwd_compute LOG2E_literal two_key_Q two_key_K two_key_V 1 0 2 2 1 1
                                  (stage_of_causal false)) 0%nat 0%nat
     = direct_attention two_key_Q two_key_K two_key_V (1 * (LOG2E_literal * ln 2)) 2 1
                        (0 * 2 + 0)%nat 0%nat.
Proof.
  assert (H1 : (0 < 1)%nat) by lia.
  assert (H2 : Nat.divide 1 2) by (exists 2%nat; reflexivity).
  split; [exact H1 | split; [exact H2 |]].
  exact (proj1 (fwd_matches_direct_attention LOG2E_literal two_key_Q two_key_K two_key_V
                  1 0 2 2 1 1 H1) H2 0%nat 0%nat).
Defined.

Lemma direct_attention_two_keys (scale : R) :
  direct_attention two_key_Q two_key_K two_key_V scale 2 1 0%nat 0%nat
  = exp scale / (1 + exp scale).
Proof.
  unfold direct_attention, softmax, two_key_Q, two_key_K, two_key_V. cbn [rsum INR].
  replace (scale * (0 + 1 * 0)) with 0 by ring.
  replace (scale * (0 + 1 * 1)) with scale by ring.
  rewrite exp_0. pose proof (exp_pos scale). field. lra.
Qed.

(** C1 (counterexample): at one query and two keys with scores 0 and 1
    and [sm_scale = 1], the kernel with the literal of the source stores
    [e^k / (1 + e^k)] with [k = 1.44269504 * ln 2 < 1], which is below
    the [e / (1 + e)] of [softmax(sm_scale * Q K^T) V]. *)
Lemma fwd_output_differs_from_softmax_at_sm_scale :
  Out_tile (_attn_fwd_compute LOG2E_literal two_key_Q two_key_K two_key_V 1 0 2 2 1 1
                              (stage_of_causal false)) 0%nat 0%nat
  < direct_attention two_key_Q two_key_K two_key_V 1 2 1 0%nat 0%nat.
Proof.
  cbn [stage_of_causal].
  rewrite (fwd_noncausal_direct LOG2E_literal two_key_Q two_key_K two_key_V 1 0 2 2 1 1
             ltac:(lia) ltac:(exists 2%nat; reflexivity) 0%nat 0%nat).
  cbn [Nat.mul Nat.add]. rewrite !direct_attention_two_keys.
  pose proof LOG2E_literal_ln2 as [_ Hk].
  assert (Hlt : exp (1 * (LOG2E_literal * ln 2)) < exp 1) by (apply exp_increasing; lra).
  pose proof (exp_pos (1 * (LOG2E_literal * ln 2))) as Ha.
  set (a := exp (1 * (LOG2E_literal * ln 2))) in *. set (b := exp 1) in *.
  replace (a / (1 + a)) with (1 - / (1 + a)) by (field; lra).
  replace (b / (1 + b)) with (1 - / (1 + b)) by (field; lra).
  assert (/ (1 + b) < / (1 + a)) by (apply Rinv_lt_contravar; nra).
  lra.
Qed.

(** ** One iteration of the streaming softmax, in natural exponentials *)

Lemma row_max_spec (f : nat -> R) (n : nat) :
  (0 < n)%nat ->
  (forall k, (k < n)%nat -> f k <= row_max f n)
  /\ exists k, (k < n)%nat /\ f k = row_max f n.
Proof.
  intros Hn. unfold row_max. split.
  - intros k Hk. apply max_to_ge. lia.
  - destruct (max_to_attained f (pred n)) as (k & Hk & E). exists k. split; [lia | congruence].
Qed.

Lemma exp2_as_exp (a b : R) : exp2 (a - b) = exp (a * ln 2 - b * ln 2).
Proof. unfold exp2. f_equal. ring. Qed.

(** C2 (amended): one iteration of the loop of [_attn_fwd_inner], for
    any state and any key tile, in the masked stage or with a scale that
    is not negative.  The new running maximum is the maximum of the old
    one and of the logits of the block (it bounds them and is one of
    them); [alpha] is the natural exponential of the difference of the
    old and the new maximum in natural units ([m * ln 2]), and [0] for
    the initial [-inf]; [l_i] and [acc] are rescaled by [alpha] and gain
    the row sum of the exponentials of the block, resp. their product
    with the value tile.  In natural units the logits of the block are
    the raw scores times [sm_scale * (LOG2E * ln 2)], plus the mask
    value above the diagonal in the masked stage. *)
Theorem fwd_inner_body_update
    (q K V : matrix) (sm_scale LOG2E : R) (HD BN STAGE : nat)
    (offs_m offs_n : nat -> nat) (st : fwd_state) (start_n r : nat) :
  (0 < BN)%nat -> (STAGE = 2%nat \/ 0 <= sm_scale * LOG2E) ->
  let st' := fwd_inner_body q K V (sm_scale * LOG2E) HD BN STAGE offs_m offs_n st start_n in
  let x := block_logits q K (sm_scale * LOG2E) HD STAGE offs_m offs_n start_n r in
  exists m_new,
    m_i st' r = Fin m_new
    /\ (forall n, (n < BN)%nat -> x n <= m_new)
    /\ (forall m_old, m_i st r = Fin m_old -> m_old <= m_new)
    /\ (m_i st r = Fin m_new \/ exists n, (n < BN)%nat /\ x n = m_new)
    /\ (let alpha := match m_i st r with
                     | Fin m_old => exp (m_old * ln 2 - m_new * ln 2)
                     | NegInf => 0
                     end in
        l_i st' r = l_i st r * alpha + rsum (fun n => exp (x n * ln 2 - m_new * ln 2)) BN
        /\ forall d,
             acc st' r d
             = acc st r d * alpha
               + rsum (fun n => exp (x n * ln 2 - m_new * ln 2) * V (start_n + n)%nat d) BN)
    /\ (forall n,
          x n * ln 2
          = sm_scale * (LOG2E * ln 2) * rsum (fun d => q r d * K (start_n + n)%nat d) HD
            + (if (STAGE =? 2)%nat
               then (if (start_n + offs_n n <=? offs_m r)%nat then 0 else MASK_VALUE * ln 2)
               else 0)).
Proof.
  intros HBN Hs st' x.
  set (qk_scale := sm_scale * LOG2E) in *.
  set (m_new := tl_maximum (m_i st r) (row_max x BN)).
  destruct (row_max_spec x BN HBN) as (Hub & (n0 & Hn0 & Hatt)).
  assert (Hmij : (if (STAGE =? 2)%nat
                  then tl_maximum (m_i st r)
                         (row_max (fun n => rsum (fun d => q r d * K (start_n + n)%nat d) HD
                                            * qk_scale
                                            + (if (start_n + offs_n n <=? offs_m r)%nat
                                               then 0 else MASK_VALUE)) BN)
                  else tl_maximum (m_i st r)
                         (row_max (fun n => rsum (fun d => q r d * K (start_n + n)%nat d) HD)
                                  BN * qk_scale))
                 = m_new).
  { subst m_new x. rewrite <- (block_row_max_is_max q K qk_scale HD BN STAGE offs_m offs_n
                                 start_n r Hs).
    unfold block_row_max, block_logits. destruct (STAGE =? 2)%nat; reflexivity. }
  assert (Hx : forall n,
    (if (STAGE =? 2)%nat
     then rsum (fun d => q r d * K (start_n + n)%nat d) HD * qk_scale
          + (if (start_n + offs_n n <=? offs_m r)%nat then 0 else MASK_VALUE) - m_new
     else rsum (fun d => q r d * K (start_n + n)%nat d) HD * qk_scale - m_new)
    = x n - m_new).
  { intros n. subst x. unfold block_logits. destruct (STAGE =? 2)%nat; ring. }
  exists m_new. split; [|split; [|split; [|split; [|split]]]].
  - subst st'. cbn [fwd_inner_body m_i]. rewrite Hmij. reflexivity.
  - intros n Hn. subst m_new. eapply Rle_trans; [apply Hub; exact Hn|].
    apply tl_maximum_ge_r.
  - intros m_old Hold. subst m_new. rewrite Hold. cbn [tl_maximum]. apply Rmax_l.
  - subst m_new. destruct (m_i st r) as [|m_old]; cbn [tl_maximum].
    + right. exists n0. split; [exact Hn0 | exact Hatt].
    + destruct (Rle_dec m_old (row_max x BN)) as [Hle | Hgt].
      * right. exists n0. split; [exact Hn0|]. rewrite Rmax_right by exact Hle. exact Hatt.
      * left. rewrite Rmax_left by lra. reflexivity.
  - assert (Ha : exp2_diff (m_i st r) m_new
                 = match m_i st r with
                   | Fin m_old => exp (m_old * ln 2 - m_new * ln 2)
                   | NegInf => 0
                   end).
    { destruct (m_i st r); cbn [exp2_diff]; [reflexivity | apply exp2_as_exp]. }
    cbn zeta. rewrite <- Ha. subst st'. cbn [fwd_inner_body l_i acc]. rewrite Hmij.
    split.
    + f_equal. apply rsum_ext. intros n _. rewrite Hx. apply exp2_as_exp.
    + intros d. f_equal. apply rsum_ext. intros n _. rewrite Hx, exp2_as_exp. reflexivity.
  - intros n. subst x qk_scale. unfold block_logits.
    destruct (STAGE =? 2)%nat; [destruct (start_n + offs_n n <=? offs_m r)%nat|]; ring.
Qed.

(** C2 at the first iteration of an unmasked stage, two keys with
    scores 0 and 1 and the literal of the source. *)
Lemma fwd_inner_body_update_witness :
  (0 < 2)%nat /\ (3%nat = 2%nat \/ 0 <= 1 * LOG2E_literal)
  /\ exists m_new,
       m_i (fwd_inner_body two_key_Q two_key_K two_key_V (1 * LOG2E_literal) 1 2 3
                           (fun r => r) (fun n => n) fwd_init 0) 0%nat = Fin m_new
       /\ forall n, (n < 2)%nat ->
            block_logits two_key_Q two_key_K (1 * LOG2E_literal) 1 3
                         (fun r => r) (fun n => n) 0%nat 0%nat n <= m_new.
Proof.
  assert (H1 : (0 < 2)%nat) by lia.
  assert (H2 : 3%nat = 2%nat \/ 0 <= 1 * LOG2E_literal)
    by (right; unfold LOG2E_literal; lra).
  split; [exact H1 | split; [exact H2 |]].
  destruct (fwd_inner_body_update two_key_Q two_key_K two_key_V 1 LOG2E_literal 1 2 3
              (fun r => r) (fun n => n) fwd_init 0 0 H1 H2) as (m_new & Hm & Hub & _).
  exists m_new. split; [exact Hm | exact Hub].
Defined.

(** C2 (counterexample): in an unmasked stage with the scale [-1] and a
    block of two keys whose raw scores are 0 and 1, the logits are 0 and
    -1, yet the new running maximum is -1: the code scales the maximum
    of the raw scores, which is the minimum of the logits when the scale
    is negative.  The exponential of the first logit is then 2, above 1. *)
Lemma fwd_inner_body_maximum_fails_for_negative_scale :
  let st' := fwd_inner_body two_key_Q two_key_K two_key_V (-1) 1 2 3
                            (fun r => r) (fun n => n) fwd_init 0 in
  let x := block_logits two_key_Q two_key_K (-1) 1 3 (fun r => r) (fun n => n) 0%nat 0%nat in
  x 0%nat = 0 /\ x 1%nat = -1
  /\ m_i st' 0%nat = Fin (-1)
  /\ m_i st' 0%nat <> Fin (tl_maximum (m_i fwd_init 0%nat) (row_max x 2))
  /\ l_i st' 0%nat = 3.
Proof.
  cbn zeta.
  assert (Hx0 : block_logits two_key_Q two_key_K (-1) 1 3 (fun r => r) (fun n => n) 0%nat 0%nat 0%nat
                = 0).
  { unfold block_logits, two_key_Q, two_key_K. cbn [rsum Nat.eqb Nat.add INR]. ring. }
  assert (Hx1 : block_logits two_key_Q two_key_K (-1) 1 3 (fun r => r) (fun n => n) 0%nat 0%nat 1%nat
                = -1).
  { unfold block_logits, two_key_Q, two_key_K. cbn [rsum Nat.eqb Nat.add INR]. ring. }
  assert (Hm : m_i (fwd_inner_body two_key_Q two_key_K two_key_V (-1) 1 2 3
                                   (fun r => r) (fun n => n) fwd_init 0) 0%nat = Fin (-1)).
  { cbn [fwd_inner_body m_i fwd_init Nat.eqb tl_maximum]. f_equal.
    unfold row_max, two_key_Q, two_key_K. cbn [pred max_to rsum Nat.add INR].
    replace (0 + 1 * 0) with 0 by ring. replace (0 + 1 * 1) with 1 by ring.
    rewrite Rmax_right by lra. ring. }
  split; [exact Hx0 | split; [exact Hx1 | split; [exact Hm | split]]].
  - rewrite Hm. cbn [fwd_init m_i tl_maximum]. unfold row_max. cbn [pred max_to].
    rewrite Hx0, Hx1, Rmax_left by lra. intros E. injection E as E. lra.
  - cbn [fwd_inner_body l_i m_i fwd_init Nat.eqb tl_maximum exp2_diff].
    unfold row_max, two_key_Q, two_key_K. cbn [pred max_to rsum Nat.add INR].
    replace (0 + 1 * 0) with 0 by ring. replace (0 + 1 * 1) with 1 by ring.
    rewrite Rmax_right by lra.
    replace (0 * -1 - 1 * -1) with 1 by ring. replace (1 * -1 - 1 * -1) with 0 by ring.
    assert (E1 : exp2 1 = 2) by (unfold exp2; rewrite Rmult_1_l; apply exp_ln; lra).
    assert (E0 : exp2 0 = 1) by (unfold exp2; rewrite Rmult_0_l; apply exp_0).
    rewrite E1, E0. ring.
Qed.

(** ** The epilogue and the unnormalised loop state *)

Lemma represents_unnormalised st r Z N :
  represents st r Z N -> 0 < Z ->
  exists m, m_i st r = Fin m
            /\ l_i st r = Z * exp2 (- m)
            /\ forall d, acc st r d = N d * exp2 (- m).
Proof.
  unfold represents. destruct (m_i st r) as [|m]; intros Hrep HZ.
  - destruct Hrep as [-> _]. lra.
  - destruct Hrep as (_ & Hl & Hd). exists m. split; [reflexivity|].
    assert (E : exp2 m * exp2 (- m) = 1).
    { rewrite <- exp2_plus. replace (m + - m) with 0 by ring. unfold exp2.
      rewrite Rmult_0_l. apply exp_0. }
    split.
    + rewrite <- Hl, Rmult_assoc, E. ring.
    + intros d. rewrite <- Hd, Rmult_assoc, E. ring.
Qed.

(** C4: when the tile loops of a program are over, [acc] and [l_i] are
    still unnormalised: for the running maximum [m] they are the
    weighted sum of the values and the sum of the weights of all keys
    folded in, both times [2 ^ (- m)]; no iteration has divided by
    [l_i].  The epilogue then stores [m + log2 l_i] as the row statistic
    and [acc / l_i] as the output row. *)
Theorem fwd_epilogue_normalises_once
    LOG2E Q K V sm_scale start_m N_CTX BM BN HD (causal : bool) (r : nat) :
  (0 < BN)%nat -> (if causal then 0 < BM else 0 < N_CTX)%nat ->
  let i := fwd_offs_m start_m BM r in
  let s := sm_scale * LOG2E in
  let st := fwd_loops LOG2E Q K V sm_scale start_m N_CTX BM BN HD (stage_of_causal causal) in
  let out := _attn_fwd_compute LOG2E Q K V sm_scale start_m N_CTX BM BN HD
                               (stage_of_causal causal) in
  let Z := if causal
           then stage_Z Q K HD s 1 start_m BM BN N_CTX i
                + stage_Z Q K HD s 2 start_m BM BN N_CTX i
           else stage_Z Q K HD s 3 start_m BM BN N_CTX i in
  let N := fun d =>
             if causal
             then stage_N Q K V HD s 1 start_m BM BN N_CTX i d
                  + stage_N Q K V HD s 2 start_m BM BN N_CTX i d
             else stage_N Q K V HD s 3 start_m BM BN N_CTX i d in
  exists m,
    m_i st r = Fin m
    /\ l_i st r = Z * exp2 (- m)
    /\ (forall d, acc st r d = N d * exp2 (- m))
    /\ M_tile out r = Fin (m + log2 (l_i st r))
    /\ forall d, Out_tile out r d = acc st r d / l_i st r.
Proof.
  intros HBN Hpos i s st out Z N.
  assert (Hrep : represents st r Z N /\ 0 < Z).
  { subst st Z N. destruct causal; cbn [stage_of_causal].
    - rewrite fwd_loops_causal.
      pose proof (inner_represents Q K V s HD BN BM start_m 1 N_CTX fwd_init r 0
                    (fun _ => 0) HBN (init_represents r)) as H1.
      pose proof (inner_represents Q K V s HD BN BM start_m 2 N_CTX _ r _ _ HBN H1) as H2.
      split.
      + eapply represents_ext; [| |exact H2].
        * unfold stage_Z. subst i. ring.
        * intros d. unfold stage_N. subst i. cbn beta. ring.
      + pose proof (stage_Z_nonneg Q K HD s 1 start_m BM BN N_CTX i).
        pose proof (stage_Z_pos Q K HD s 2 start_m BM BN N_CTX i
                      (stage_keys_on_band_nonempty start_m BM BN N_CTX HBN Hpos)).
        lra.
    - rewrite fwd_loops_noncausal.
      pose proof (inner_represents Q K V s HD BN BM start_m 3 N_CTX fwd_init r 0
                    (fun _ => 0) HBN (init_represents r)) as H1.
      split.
      + eapply represents_ext; [| |exact H1].
        * unfold stage_Z. subst i. ring.
        * intros d. unfold stage_N. subst i. cbn beta. ring.
      + apply stage_Z_pos. apply stage_keys_full_nonempty; assumption. }
  destruct Hrep as (Hrep & HZ).
  destruct (represents_unnormalised st r Z N Hrep HZ) as (m & Hm & Hl & Ha).
  exists m. split; [exact Hm|]. split; [exact Hl|]. split; [exact Ha|].
  subst out. unfold _attn_fwd_compute, fwd_epilogue. cbn [M_tile Out_tile]. fold st.
  split; [rewrite Hm; reflexivity | intros d; reflexivity].
Qed.

(** C4 at the first row of a causal program with tiles of two keys. *)
Lemma fwd_epilogue_normalises_once_witness :
  (0 < 2)%nat /\ (if true then 0 < 2 else 0 < 4)%nat
  /\ exists m,
       m_i (fwd_loops LOG2E_literal two_key_Q two_key_K two_key_V 1 0 4 2 2 1
                      (stage_of_causal true)) 0%nat = Fin m
       /\ l_i (fwd_loops LOG2E_literal two_key_Q two_key_K two_key_V 1 0 4 2 2 1
                         (stage_of_causal true)) 0%nat
          = (stage_Z two_key_Q two_key_K 1 (1 * LOG2E_literal) 1 0 2 2 4 (fwd_offs_m 0 2 0)
             + stage_Z two_key_Q two_key_K 1 (1 * LOG2E_literal) 2 0 2 2 4 (fwd_offs_m 0 2 0))
            * exp2 (- m).
Proof.
  assert (H1 : (0 < 2)%nat) by lia.
  assert (H2 : (if true then 0 < 2 else 0 < 4)%nat) by (cbn; lia).
  split; [exact H1 | split; [exact H2 |]].
  destruct (fwd_epilogue_normalises_once LOG2E_literal two_key_Q two_key_K two_key_V
              1 0 4 2 2 1 true 0 H1 H2) as (m & Hm & Hl & _).
  exists m. split; [exact Hm | exact Hl].
Defined.

(** ** A masked value in the causal output *)

Lemma rsum_single (f : nat -> R) (j n : nat) (c : R) :
  (j < n)%nat ->
  rsum (fun k => f k * (if (k =? j)%nat then c else 0)) n = f j * c.
Proof.
  intros Hj. induction n as [|n IH]; [lia|]. cbn [rsum].
  destruct (Nat.eq_dec j n) as [-> | Hne].
  - rewrite Nat.eqb_refl. rewrite rsum_zero; [ring|].
    intros t Ht. destruct (Nat.eqb_spec t n); [lia | ring].
  - rewrite IH by lia. destruct (Nat.eqb_spec n j); [lia | ring].
Qed.

(** In causal mode with [BLOCK_N] dividing [BLOCK_M], adding [delta] to
    the value at a masked position [j] of the diagonal tile (after the
    query [i], before the end of the tile) changes the output row of [i]
    by [delta] times the share of key [j] in the row's total weight,
    which is positive: the mask damps the weight by [2 ^ MASK_VALUE], it
    does not remove the key. *)
Theorem fwd_causal_output_reads_masked_value
    LOG2E Q K V sm_scale start_m N_CTX BM BN HD (r j d : nat) (delta : R) :
  (0 < BN)%nat -> Nat.divide BN BM ->
  let i := (start_m * BM + r)%nat in
  (i < j)%nat -> (j < (start_m + 1) * BM)%nat ->
  let s := sm_scale * (LOG2E * ln 2) in
  let w := fun j' => exp (s * rsum (fun c => Q i c * K j' c) HD)
                     * (if (j' <=? i)%nat then 1 else exp2 MASK_VALUE) in
  let V' := fun j' d' => V j' d' + (if ((j' =? j) && (d' =? d))%nat then delta else 0) in
  let share := exp2 MASK_VALUE * exp (s * rsum (fun c => Q i c * K j c) HD)
               / rsum w ((start_m + 1) * BM) in
  Out_tile (_attn_fwd_compute LOG2E Q K V' sm_scale start_m N_CTX BM BN HD 3) r d
  - Out_tile (_attn_fwd_compute LOG2E Q K V sm_scale start_m N_CTX BM BN HD 3) r d
  = delta * share
  /\ 0 < share.
Proof.
  intros HBN Hdiv i Hij Hj s w V' share.
  assert (HBM : (0 < BM)%nat) by (destruct BM; [lia | lia]).
  assert (Hout : forall V0,
            Out_tile (_attn_fwd_compute LOG2E Q K V0 sm_scale start_m N_CTX BM BN HD 3) r d
            = rsum (fun j' => w j' * V0 j' d) ((start_m + 1) * BM)
              / rsum w ((start_m + 1) * BM)).
  { intros V0.
    rewrite (fwd_causal_damped LOG2E Q K V0 sm_scale start_m N_CTX BM BN HD HBN Hdiv HBM).
    reflexivity. }
  rewrite !Hout.
  assert (HZ : 0 < rsum w ((start_m + 1) * BM)).
  { rewrite rsum_lsum. apply (lsum_pos_in _ _ j).
    - intros k. subst w. cbn beta. pose proof (exp_pos (s * rsum (fun c => Q i c * K k c) HD)).
      pose proof (exp2_pos MASK_VALUE). destruct (k <=? i)%nat; nra.
    - apply in_seq. lia.
    - subst w. cbn beta. pose proof (exp_pos (s * rsum (fun c => Q i c * K j c) HD)).
      pose proof (exp2_pos MASK_VALUE). destruct (j <=? i)%nat; nra. }
  assert (Hw : w j = exp2 MASK_VALUE * exp (s * rsum (fun c => Q i c * K j c) HD)).
  { subst w. cbn beta. destruct (Nat.leb_spec j i); [lia | ring]. }
  assert (HN : rsum (fun j' => w j' * V' j' d) ((start_m + 1) * BM)
               = rsum (fun j' => w j' * V j' d) ((start_m + 1) * BM) + w j * delta).
  { rewrite <- (rsum_single w j ((start_m + 1) * BM) delta Hj), <- rsum_plus.
    apply rsum_ext. intros k _. subst V'. cbn beta. rewrite Nat.eqb_refl, andb_true_r.
    ring. }
  assert (Hwj : 0 < w j).
  { rewrite Hw. pose proof (exp_pos (s * rsum (fun c => Q i c * K j c) HD)).
    pose proof (exp2_pos MASK_VALUE). nra. }
  subst share. rewrite <- Hw, HN.
  set (A := rsum (fun j' => w j' * V j' d) ((start_m + 1) * BM)).
  set (Zs := rsum w ((start_m + 1) * BM)) in *.
  set (wj := w j) in *. clearbody A Zs wj.
  split; [field; lra | apply Rdiv_lt_0_compat; assumption].
Qed.

Lemma fwd_causal_output_reads_masked_value_witness :
  (0 < 64)%nat /\ Nat.divide 64 64 /\ (0 * 64 + 0 < 1)%nat /\ (1 < (0 + 1) * 64)%nat
  /\ 0 < exp2 MASK_VALUE
         * exp (1 * (LOG2E_literal * ln 2)
                * rsum (fun c => leak_Q (0 * 64 + 0)%nat c * leak_K 1%nat c) 64)
         / rsum (fun j' =>
                   exp (1 * (LOG2E_literal * ln 2)
                        * rsum (fun c => leak_Q (0 * 64 + 0)%nat c * leak_K j' c) 64)
                   * (if (j' <=? 0 * 64 + 0)%nat then 1 else exp2 MASK_VALUE))
                ((0 + 1) * 64).
Proof.
  assert (H1 : (0 < 64)%nat) by lia.
  assert (H2 : Nat.divide 64 64) by (exists 1%nat; reflexivity).
  assert (H3 : (0 * 64 + 0 < 1)%nat) by (cbn; lia).
  assert (H4 : (1 < (0 + 1) * 64)%nat) by (cbn; lia).
  split; [exact H1 | split; [exact H2 | split; [exact H3 | split; [exact H4 |]]]].
  exact (proj2 (fwd_causal_output_reads_masked_value LOG2E_literal leak_Q leak_K leak_V0
                  1 0 64 64 64 64 0 1 0 1 H1 H2 H3 H4)).
Defined.

(** ** The backward weights and the two scale constants *)

Lemma bwd_scaled_exponent (sm_scale LOG2E RCP_LN2 x M : R) :
  exp2 (x * (sm_scale * RCP_LN2) - M)
  = exp2 (x * (sm_scale * LOG2E) - M) * exp2 (sm_scale * (RCP_LN2 - LOG2E) * x).
Proof. rewrite <- exp2_plus. f_equal. ring. Qed.

(** The weight the dK/dV loop recomputes in its unmasked steps, from the
    row statistic [M] the non-causal forward kernel stored and a key
    tile prescaled by [sm_scale * RCP_LN2], is the softmax probability
    of the forward pass times [2 ^ (sm_scale * (RCP_LN2 - LOG2E) * q.k)]:
    the forward pass scales the scores with [LOG2E], the backward pass
    with [RCP_LN2].  With the literals of the source the factor is above
    1 wherever [sm_scale * q.k] is positive. *)
Theorem bwd_weight_is_forward_softmax
    LOG2E RCP_LN2 Q K V sm_scale start_m N_CTX BM BN HD r (M : nat -> R)
    (start_n n : nat) :
  (0 < BN)%nat -> (0 < N_CTX)%nat ->
  let i := fwd_offs_m start_m BM r in
  let qk := rsum (fun c => Q i c * K (start_n + n)%nat c) HD in
  M_tile (_attn_fwd_compute LOG2E Q K V sm_scale start_m N_CTX BM BN HD 1) r = Fin (M i) ->
  let P := bwd_P Q (fun n c => K (start_n + n)%nat c * (sm_scale * RCP_LN2)) M HD
                 start_n false n i in
  let p := weight2 Q K HD (sm_scale * LOG2E) 3 i (start_n + n)
           / stage_Z Q K HD (sm_scale * LOG2E) 3 start_m BM BN N_CTX i in
  P = p * exp2 (sm_scale * (RCP_LN2 - LOG2E) * qk)
  /\ 0 < p
  /\ (LOG2E = LOG2E_literal -> RCP_LN2 = RCP_LN2_literal -> 0 < sm_scale * qk -> p < P).
Proof.
  intros HBN HN i qk HM P p.
  destruct (fwd_noncausal_closed_form LOG2E Q K V sm_scale start_m N_CTX BM BN HD r HBN HN)
    as [_ Hm].
  fold i in Hm. rewrite Hm in HM. injection HM as HM.
  pose proof (stage_Z_pos Q K HD (sm_scale * LOG2E) 3 start_m BM BN N_CTX i
                (stage_keys_full_nonempty start_m BM BN N_CTX HBN HN)) as HZ.
  set (Z := stage_Z Q K HD (sm_scale * LOG2E) 3 start_m BM BN N_CTX i) in *.
  assert (Hp : 0 < p).
  { subst p. apply Rdiv_lt_0_compat; [apply exp2_pos | exact HZ]. }
  assert (HP : P = p * exp2 (sm_scale * (RCP_LN2 - LOG2E) * qk)).
  { subst P p. unfold bwd_P. cbn [andb].
    rewrite (rsum_ext (fun c => K (start_n + n)%nat c * (sm_scale * RCP_LN2) * Q i c)
                      (fun c => Q i c * K (start_n + n)%nat c * (sm_scale * RCP_LN2)) HD)
      by (intros; ring).
    rewrite <- rsum_scal. fold qk.
    rewrite (bwd_scaled_exponent sm_scale LOG2E RCP_LN2 qk (M i)). f_equal.
    rewrite <- HM.
    replace (weight2 Q K HD (sm_scale * LOG2E) 3 i (start_n + n))
      with (exp2 (qk * (sm_scale * LOG2E) - log2 Z) * exp2 (log2 Z)).
    - rewrite exp2_log2 by exact HZ. field. lra.
    - rewrite exp2_minus_mult. unfold weight2, logit2. cbn [Nat.eqb]. f_equal.
      subst qk. ring. }
  split; [exact HP|]. split; [exact Hp|].
  intros -> -> Hpos. rewrite HP.
  assert (1 < exp2 (sm_scale * (RCP_LN2_literal - LOG2E_literal) * qk)).
  { unfold exp2. rewrite <- exp_0. apply exp_increasing.
    pose proof ln2_pos. unfold RCP_LN2_literal, LOG2E_literal.
    apply Rmult_lt_0_compat; [|assumption]. nra. }
  nra.
Qed.

Lemma bwd_weight_is_forward_softmax_witness :
  let Z := stage_Z two_key_Q two_key_K 1 (1 * LOG2E_literal) 3 0 2 1 2 (fwd_offs_m 0 2 0) in
  (0 < 1)%nat /\ (0 < 2)%nat
  /\ M_tile (_attn_fwd_compute LOG2E_literal two_key_Q two_key_K two_key_V 1 0 2 2 1 1 1)
            0%nat
     = Fin ((fun _ => log2 Z) (fwd_offs_m 0 2 0))
  /\ bwd_P two_key_Q (fun n c => two_key_K (0 + n)%nat c * (1 * RCP_LN2_literal))
           (fun _ => log2 Z) 1 0 false 1 (fwd_offs_m 0 2 0)
     = weight2 two_key_Q two_key_K 1 (1 * LOG2E_literal) 3 (fwd_offs_m 0 2 0) (0 + 1) / Z
       * exp2 (1 * (RCP_LN2_literal - LOG2E_literal)
               * rsum (fun c => two_key_Q (fwd_offs_m 0 2 0) c * two_key_K (0 + 1)%nat c) 1).
Proof.
  intros Z.
  assert (H1 : (0 < 1)%nat) by lia.
  assert (H2 : (0 < 2)%nat) by lia.
  assert (HM : M_tile (_attn_fwd_compute LOG2E_literal two_key_Q two_key_K two_key_V
                         1 0 2 2 1 1 1) 0%nat
               = Fin ((fun _ => log2 Z) (fwd_offs_m 0 2 0))).
  { exact (proj2 (fwd_noncausal_closed_form LOG2E_literal two_key_Q two_key_K two_key_V
                    1 0 2 2 1 1 0 H1 H2)). }
  split; [exact H1 | split; [exact H2 | split; [exact HM |]]].
  exact (proj1 (bwd_weight_is_forward_softmax LOG2E_literal RCP_LN2_literal two_key_Q
                  two_key_K two_key_V 1 0 2 2 1 1 0 (fun _ => log2 Z) 0 1 H1 H2 HM)).
Defined.

(** ** A causal forward pass, then the backward weights *)

(** After a causal forward pass whose key tile divides the query tile,
    the weight the backward pass recomputes for a key [j <= i] from the
    saved statistic [M], with [k] prescaled by [sm_scale * RCP_LN2], is
    the forward weight of the key over the forward normaliser [Z], times
    [2 ^ (sm_scale * (RCP_LN2 - LOG2E) * q.k)].  [Z] is the total weight
    of the keys up to the query plus [leak], the damped weight of the
    masked keys of the diagonal tile, which is positive for every row
    but the last of its tile.  So the recomputed weights of a row, with
    the factor of the two constants divided out, sum to [1 - leak / Z]. *)
Theorem bwd_weights_after_causal_forward
    (LOG2E RCP_LN2 : R) (Q K V : matrix) (sm_scale : R) (start_m N_CTX BM BN HD r : nat)
    (M : nat -> R) :
  (0 < BN)%nat -> Nat.divide BN BM -> (r < BM)%nat ->
  let i := fwd_offs_m start_m BM r in
  let s := sm_scale * LOG2E in
  M_tile (_attn_fwd_compute LOG2E Q K V sm_scale start_m N_CTX BM BN HD 3) r = Fin (M i) ->
  let Z := stage_Z Q K HD s 1 start_m BM BN N_CTX i
           + stage_Z Q K HD s 2 start_m BM BN N_CTX i in
  let leak := lsum (weight2 Q K HD s 2 i) (seq (S i) (BM - 1 - r)) in
  let qk := fun j => rsum (fun c => Q i c * K j c) HD in
  let P := fun j => bwd_w Q (fun j c => K j c * (sm_scale * RCP_LN2)) M HD i j in
  (forall j, P j = weight2 Q K HD s 1 i j / Z
                   * exp2 (sm_scale * (RCP_LN2 - LOG2E) * qk j))
  /\ Z = rsum (weight2 Q K HD s 1 i) (S i) + leak
  /\ rsum (fun j => P j * exp2 (sm_scale * (LOG2E - RCP_LN2) * qk j)) (S i) = 1 - leak / Z
  /\ 0 <= leak < Z
  /\ ((r + 1 < BM)%nat -> 0 < leak)
  /\ ((r + 1 = BM)%nat -> leak = 0).
Proof.
  intros HBN Hdiv Hr i s HM Z leak qk P.
  assert (HBM : (0 < BM)%nat) by lia.
  destruct (fwd_causal_closed_form LOG2E Q K V sm_scale start_m N_CTX BM BN HD r HBN HBM)
    as [_ Hm].
  fold i s in Hm. fold Z in Hm. rewrite Hm in HM. injection HM as HM.
  pose proof (causal_normaliser_split Q K HD s start_m BM BN N_CTX r HBN Hdiv Hr) as HZ.
  cbn zeta in HZ. fold i in HZ. fold Z leak in HZ.
  assert (Hpos : 0 < rsum (weight2 Q K HD s 1 i) (S i)).
  { rewrite rsum_lsum. apply lsum_pos; [discriminate|]. intros j. apply exp2_pos. }
  assert (Hleak : 0 <= leak) by (apply lsum_nonneg; intros j; apply exp2_pos).
  assert (HZpos : 0 < Z) by lra.
  assert (HP : forall j, P j = weight2 Q K HD s 1 i j / Z
                               * exp2 (sm_scale * (RCP_LN2 - LOG2E) * qk j)).
  { intros j. subst P. cbn beta. unfold bwd_w.
    rewrite (rsum_ext (fun c => Q i c * (K j c * (sm_scale * RCP_LN2)))
                      (fun c => Q i c * K j c * (sm_scale * RCP_LN2)) HD)
      by (intros; ring).
    rewrite <- rsum_scal. fold (qk j).
    rewrite (bwd_scaled_exponent sm_scale LOG2E RCP_LN2 (qk j) (M i)). f_equal.
    rewrite <- HM.
    replace (weight2 Q K HD s 1 i j)
      with (exp2 (qk j * (sm_scale * LOG2E) - log2 Z) * exp2 (log2 Z)).
    - rewrite exp2_log2 by exact HZpos. field. lra.
    - rewrite exp2_minus_mult. unfold weight2, logit2. cbn [Nat.eqb]. f_equal.
      subst qk s. cbn beta. ring. }
  split; [exact HP|]. split; [exact HZ|]. split; [|split; [lra | split]].
  - replace (rsum (fun j => P j * exp2 (sm_scale * (LOG2E - RCP_LN2) * qk j)) (S i))
      with (rsum (weight2 Q K HD s 1 i) (S i) * / Z).
    + replace (rsum (weight2 Q K HD s 1 i) (S i)) with (Z - leak) by lra. field. lra.
    + rewrite rsum_scal. apply rsum_ext. intros j _. rewrite HP.
      assert (E : exp2 (sm_scale * (RCP_LN2 - LOG2E) * qk j)
                  * exp2 (sm_scale * (LOG2E - RCP_LN2) * qk j) = 1).
      { rewrite <- exp2_plus.
        replace (sm_scale * (RCP_LN2 - LOG2E) * qk j + sm_scale * (LOG2E - RCP_LN2) * qk j)
          with 0 by ring.
        unfold exp2. rewrite Rmult_0_l. apply exp_0. }
      set (e1 := exp2 (sm_scale * (RCP_LN2 - LOG2E) * qk j)) in *.
      set (e2 := exp2 (sm_scale * (LOG2E - RCP_LN2) * qk j)) in *.
      transitivity (weight2 Q K HD s 1 i j * / Z * (e1 * e2)); [rewrite E; ring|].
      unfold Rdiv. ring.
  - intros Hlt. apply (lsum_pos_in _ _ (S i)).
    + intros j. apply Rlt_le, exp2_pos.
    + apply in_seq. lia.
    + apply exp2_pos.
  - intros E. subst leak. replace (BM - 1 - r)%nat with 0%nat by lia. reflexivity.
Qed.

Lemma bwd_weights_after_causal_forward_witness :
  let Z := stage_Z two_key_Q two_key_K 1 (1 * LOG2E_literal) 1 0 2 1 2 (fwd_offs_m 0 2 0)
           + stage_Z two_key_Q two_key_K 1 (1 * LOG2E_literal) 2 0 2 1 2 (fwd_offs_m 0 2 0) in
  (0 < 1)%nat /\ Nat.divide 1 2 /\ (0 < 2)%nat
  /\ M_tile (_attn_fwd_compute LOG2E_literal two_key_Q two_key_K two_key_V 1 0 2 2 1 1 3)
            0%nat
     = Fin ((fun _ => log2 Z) (fwd_offs_m 0 2 0))
  /\ Z = rsum (weight2 two_key_Q two_key_K 1 (1 * LOG2E_literal) 1 (fwd_offs_m 0 2 0))
              (S (fwd_offs_m 0 2 0))
         + lsum (weight2 two_key_Q two_key_K 1 (1 * LOG2E_literal) 2 (fwd_offs_m 0 2 0))
                (seq (S (fwd_offs_m 0 2 0)) (2 - 1 - 0)).
Proof.
  intros Z.
  assert (H1 : (0 < 1)%nat) by lia.
  assert (H2 : Nat.divide 1 2) by (exists 2%nat; reflexivity).
  assert (H3 : (0 < 2)%nat) by lia.
  assert (HM : M_tile (_attn_fwd_compute LOG2E_literal two_key_Q two_key_K two_key_V
                         1 0 2 2 1 1 3) 0%nat
               = Fin ((fun _ => log2 Z) (fwd_offs_m 0 2 0))).
  { exact (proj2 (fwd_causal_closed_form LOG2E_literal two_key_Q two_key_K two_key_V
                    1 0 2 2 1 1 0 H1 H3)). }
  split; [exact H1 | split; [exact H2 | split; [exact H3 | split; [exact HM |]]]].
  exact (proj1 (proj2 (bwd_weights_after_causal_forward LOG2E_literal RCP_LN2_literal
                         two_key_Q two_key_K two_key_V 1 0 2 2 1 1 0 (fun _ => log2 Z)
                         H1 H2 H3 HM))).
Defined.

(** ** The addmm operator: shapes, inputs and metrics *)

Lemma as_strided_inr (t : addmm_tensor) (size : N * N) (stride : list N) (t' : addmm_tensor) :
  as_strided t size stride = inr t' ->
  at_size t' = size /\ at_layout t' = AsStrided stride /\ at_alloc t' = at_alloc t
  /\ (view_extent size stride <= alloc_numel t)%N.
Proof.
  unfold as_strided. destruct (N.leb_spec (view_extent size stride) (alloc_numel t));
    [|discriminate].
  intros E. injection E as <-. cbn. auto.
Qed.

Lemma input_of_shape_spec (self : Operator) (dt : option dtype) (shape_id : nat)
    (m k n : N) (dt' : option dtype) (x : addmm_inputs) :
  input_of_shape self dt shape_id (m, k, n) = inr (dt', x) ->
  at_size (fst (fst x)) = (m, n) /\ at_size (snd (fst x)) = (m, k)
  /\ at_size (snd x) = (k, n)
  /\ view_within_storage (fst (fst x)) /\ view_within_storage (snd (fst x))
  /\ view_within_storage (snd x).
Proof.
  unfold input_of_shape. destruct (select_dtype self shape_id dt) as [e|d]; [discriminate|].
  destruct (strides self) as [all|].
  - destruct (nth_error all shape_id) as [[|s0 [|s1 [|s2 [|? ?]]]]|]; try discriminate.
    destruct s0 as [|? [|? [|? ?]]]; try discriminate.
    destruct s1 as [|s10 [|s11 [|? ?]]]; try discriminate.
    destruct s2 as [|s20 [|s21 [|? ?]]]; try discriminate.
    destruct (as_strided _ (m, n) _) as [?|a'] eqn:Ea; [discriminate|].
    destruct (as_strided _ (m, k) _) as [?|m1] eqn:E1; [discriminate|].
    destruct (as_strided _ (k, n) _) as [?|m2] eqn:E2; [discriminate|].
    intros E. injection E as <- <-. cbn [fst snd].
    apply as_strided_inr in Ea, E1, E2.
    destruct Ea as (Sa & La & Aa & Fa), E1 as (S1 & L1 & A1 & F1),
             E2 as (S2 & L2 & A2 & F2).
    unfold view_within_storage, alloc_numel in *.
    rewrite Sa, S1, S2, La, L1, L2, Aa, A1, A2.
    repeat split; first [reflexivity | assumption].
  - intros E. injection E as <- <-. cbn [fst snd].
    unfold view_within_storage. destruct (col_major self); cbn; repeat split; reflexivity.
Qed.

Lemma input_iter_from_spec (self : Operator) (todo : list addmm_shape) :
  forall (dt : option dtype) (shape_id : nat),
  let '(xs, e) := input_iter_from self dt shape_id todo in
  (List.length xs <= List.length todo)%nat
  /\ (e = None <-> List.length xs = List.length todo)
  /\ forall i x, nth_error xs i = Some x ->
       exists m k n dt0 dt1,
         nth_error todo i = Some (m, k, n)
         /\ input_of_shape self dt0 (shape_id + i) (m, k, n) = inr (dt1, x).
Proof.
  induction todo as [|[[m k] n] rest IH]; intros dt shape_id.
  - cbn. split; [lia|]. split; [tauto|]. intros [|i] x; discriminate.
  - cbn [input_iter_from].
    destruct (input_of_shape self dt shape_id (m, k, n)) as [e | [dt' x]] eqn:E.
    + cbn. split; [lia|]. split; [split; [discriminate | lia]|].
      intros [|i] y; discriminate.
    + specialize (IH dt' (S shape_id)).
      destruct (input_iter_from self dt' (S shape_id) rest) as [xs e].
      destruct IH as (Hlen & Hnone & Hnth). cbn [List.length].
      split; [lia|]. split; [rewrite Hnone; lia|].
      intros [|i] y Hy.
      * cbn in Hy. injection Hy as <-. exists m, k, n, dt, dt'.
        rewrite Nat.add_0_r. auto.
      * cbn in Hy. destruct (Hnth i y Hy) as (m' & k' & n' & d0 & d1 & H1 & H2).
        exists m', k', n', d0, d1. rewrite Nat.add_succ_r. auto.
Qed.

Lemma input_iter_from_plain (self : Operator) (todo : list addmm_shape) :
  strides self = None -> (dtypes self = None \/ dtypes self = Some []) ->
  forall (dt : option dtype) (shape_id : nat),
    snd (input_iter_from self dt shape_id todo) = None.
Proof.
  intros Hs Hd. induction todo as [|[[m k] n] rest IH]; intros dt shape_id; [reflexivity|].
  cbn [input_iter_from]. unfold input_of_shape, select_dtype. rewrite Hs.
  assert (E : match dtypes self with
              | Some (d :: ds) =>
                  match nth_error (d :: ds) shape_id with
                  | None => inl AddmmIndexError
                  | Some None => inl AddmmKeyError
                  | Some (Some d') => inr (Some d')
                  end
              | _ => inr dt
              end = inr dt :> (addmm_exn + option dtype)).
  { destruct Hd as [-> | ->]; reflexivity. }
  rewrite E. specialize (IH dt (S shape_id)).
  destruct (input_iter_from self dt (S shape_id) rest) as [xs e]. exact IH.
Qed.

(** Every input [get_input_iter] yields is the one of the shape at its
    position: for [shape = (m, k, n)] its label is [(m, n, k)], its
    [flops] are [2 m k n + m n], and the views of its three tensors lie
    within the storage allocated for them.  The generator stops early
    only by raising; with neither strides nor element types to choose
    from it never raises and yields one input for each shape. *)
Theorem get_input_iter_follows_shapes (self : Operator) :
  let xs := fst (get_input_iter self) in
  let e := snd (get_input_iter self) in
  (List.length xs <= List.length (shapes self))%nat
  /\ (e = None <-> List.length xs = List.length (shapes self))
  /\ (strides self = None -> (dtypes self = None \/ dtypes self = Some []) -> e = None)
  /\ forall i x, nth_error xs i = Some x ->
       exists m k n, nth_error (shapes self) i = Some (m, k, n)
                     /\ get_x_val x = (m, n, k)
                     /\ flops x = (2 * m * k * n + m * n)%N
                     /\ view_within_storage (fst (fst x))
                     /\ view_within_storage (snd (fst x))
                     /\ view_within_storage (snd x).
Proof.
  cbn zeta. unfold get_input_iter.
  pose proof (input_iter_from_spec self (shapes self) None 0) as H.
  pose proof (input_iter_from_plain self (shapes self)) as Hplain.
  destruct (input_iter_from self None 0 (shapes self)) as [xs e] eqn:Eit. cbn [fst snd].
  destruct H as (H1 & H2 & H4). split; [exact H1|]. split; [exact H2|].
  split.
  - intros Hs Hd. specialize (Hplain Hs Hd None 0%nat). rewrite Eit in Hplain. exact Hplain.
  - intros i x Hx.
    destruct (H4 i x Hx) as (m & k & n & d0 & d1 & Hs & Hin). exists m, k, n.
    split; [exact Hs|].
    destruct (input_of_shape_spec self d0 (0 + i) m k n d1 x Hin)
      as (Ha & H1' & H2' & Va & V1 & V2).
    destruct x as [[a mat1] mat2]. cbn [fst snd] in *. unfold get_x_val, flops.
    rewrite H1', H2'. repeat split; first [reflexivity | assumption].
Qed.

(** The explicit shape of the command line: when [m], [n] and [k] are
    all given and non-zero, the operator has the single shape
    [(m, k, n)], and the one input generated from it is labelled
    [(m, n, k)] and counted with [2 m k n + m n] operations.  When one
    of them is missing or zero the other two are ignored and the shapes
    are the large-K list or the built-in list. *)
Theorem explicit_shape_round_trip (a : addmm_args) :
  (forall m n k, args_m a = Some m -> args_n a = Some n -> args_k a = Some k ->
     m <> 0%N -> n <> 0%N -> k <> 0%N ->
     shapes (Operator_init a) = [(m, k, n)]
     /\ exists x, get_input_iter (Operator_init a) = ([x], None)
                  /\ get_x_val x = (m, n, k)
                  /\ flops x = (2 * m * k * n + m * n)%N)
  /\ (truthy (args_m a) && truthy (args_n a) && truthy (args_k a) = false ->
      shapes (Operator_init a)
      = if args_large_k_shapes a then LARGE_K_SHAPES else BUILDIN_SHAPES).
Proof.
  split.
  - intros m n k Hm Hn Hk Zm Zn Zk.
    assert (Hs : shapes (Operator_init a) = [(m, k, n)]).
    { unfold Operator_init. cbn [shapes]. rewrite Hm, Hn, Hk. unfold truthy.
      apply N.eqb_neq in Zm, Zn, Zk. rewrite Zm, Zn, Zk. reflexivity. }
    split; [exact Hs|]. unfold get_input_iter. rewrite Hs.
    cbn [input_iter_from]. unfold input_of_shape, select_dtype.
    cbn [Operator_init strides dtypes col_major].
    destruct (args_col_major a); eexists; (split; [reflexivity|]); cbn; auto.
  - intros Ht. unfold Operator_init. cbn [shapes]. rewrite Ht. reflexivity.
Qed.

Lemma unit_stride_extent_fits (r c sr sc A B : N) :
  (r <= A)%N -> (sc <= A)%N -> (c <= B)%N -> (sr <= B)%N -> (sr = 1 \/ sc = 1)%N ->
  (view_extent (r, c) [sr; sc] <= A * B)%N.
Proof.
  intros HrA HscA HcB HsrB Hunit. unfold view_extent. cbn [nth].
  destruct (N.eqb_spec r 0), (N.eqb_spec c 0); cbn [orb]; try apply N.le_0_l.
  destruct Hunit as [-> | ->]; nia.
Qed.

(** The strided branch yields once the three views are accepted: the
    bias by assumption, the two matrices because of their stride 1. *)
Lemma strided_input_yields
    (self : Operator) (dt : option dtype) (shape_id : nat) (m k n : N)
    (all : list (list (list N))) (s00 s01 s10 s11 s20 s21 : N) :
  strides self = Some all ->
  nth_error all shape_id = Some [[s00; s01]; [s10; s11]; [s20; s21]] ->
  (dtypes self = None \/ dtypes self = Some []) ->
  (view_extent (m, n) [s00; s01] <= m * n)%N ->
  (s10 = 1 \/ s11 = 1)%N -> (s20 = 1 \/ s21 = 1)%N ->
  exists x, input_of_shape self dt shape_id (m, k, n) = inr (dt, x)
            /\ at_alloc (snd (fst x)) = (N.max m s11, N.max (N.max k s10) s21)
            /\ at_alloc (snd x) = (N.max (N.max k s10) s21, N.max n s20).
Proof.
  intros Hs Hn Hd Ha H1 H2. unfold input_of_shape, select_dtype. rewrite Hs, Hn.
  assert (E : match dtypes self with
              | Some (d :: ds) =>
                  match nth_error (d :: ds) shape_id with
                  | None => inl AddmmIndexError
                  | Some None => inl AddmmKeyError
                  | Some (Some d') => inr (Some d')
                  end
              | _ => inr dt
              end = inr dt :> (addmm_exn + option dtype)).
  { destruct Hd as [-> | ->]; reflexivity. }
  rewrite E. unfold as_strided, randn, alloc_numel. cbn [at_alloc at_dtype fst snd].
  destruct (N.leb_spec (view_extent (m, n) [s00; s01]) (m * n)) as [_ | Hbad]; [|lia].
  pose proof (unit_stride_extent_fits m k s10 s11 (N.max m s11) (N.max (N.max k s10) s21)
                ltac:(lia) ltac:(lia) ltac:(lia) ltac:(lia) H1) as F1.
  destruct (N.leb_spec (view_extent (m, k) [s10; s11])
                       (N.max m s11 * N.max (N.max k s10) s21)) as [_ | Hbad]; [|lia].
  pose proof (unit_stride_extent_fits k n s20 s21 (N.max (N.max k s10) s21) (N.max n s20)
                ltac:(lia) ltac:(lia) ltac:(lia) ltac:(lia) H2) as F2.
  destruct (N.leb_spec (view_extent (k, n) [s20; s21])
                       (N.max (N.max k s10) s21 * N.max n s20)) as [_ | Hbad]; [|lia].
  eexists. split; [reflexivity|]. cbn. auto.
Qed.

(** In the branch with strides, a shape whose bias view lies within the
    [m * n] elements allocated for the bias never fails on [mat1] or
    [mat2] when each of them has a stride 1 (rows or columns contiguous,
    any padding in the other dimension): the storage made for them,
    enlarged to the strides, is large enough and the iteration yields. *)
Theorem strided_matrix_views_fit
    (self : Operator) (dt : option dtype) (shape_id : nat) (m k n : N)
    (all : list (list (list N))) (s00 s01 s10 s11 s20 s21 : N) :
  strides self = Some all ->
  nth_error all shape_id = Some [[s00; s01]; [s10; s11]; [s20; s21]] ->
  (dtypes self = None \/ dtypes self = Some []) ->
  (view_extent (m, n) [s00; s01] <= m * n)%N ->
  (s10 = 1 \/ s11 = 1)%N -> (s20 = 1 \/ s21 = 1)%N ->
  exists x, input_of_shape self dt shape_id (m, k, n) = inr (dt, x)
            /\ at_alloc (snd (fst x)) = (N.max m s11, N.max (N.max k s10) s21)
            /\ at_alloc (snd x) = (N.max (N.max k s10) s21, N.max n s20).
Proof.
  intros Hs Hn Hd Ha H1 H2.
  exact (strided_input_yields self dt shape_id m k n all s00 s01 s10 s11 s20 s21
           Hs Hn Hd Ha H1 H2).
Qed.

Lemma strided_matrix_views_fit_witness :
  strides strided_operator = Some [[[2; 1]; [8; 1]; [2; 1]]%N]
  /\ (view_extent (4, 2)%N [2; 1]%N <= 4 * 2)%N
  /\ exists x, input_of_shape strided_operator None 0 (4, 3, 2)%N = inr (None, x)
               /\ at_alloc (snd (fst x)) = (N.max 4 1, N.max (N.max 3 8) 1)
               /\ at_alloc (snd x) = (N.max (N.max 3 8) 1, N.max 2 2).
Proof.
  assert (H1 : strides strided_operator = Some [[[2; 1]; [8; 1]; [2; 1]]%N]) by reflexivity.
  assert (H2 : (view_extent (4, 2)%N [2; 1]%N <= 4 * 2)%N) by (vm_compute; discriminate).
  split; [exact H1 | split; [exact H2 |]].
  exact (strided_matrix_views_fit strided_operator None 0 4 3 2 _ 2 1 8 1 2 1
           H1 eq_refl (or_introl eq_refl) H2 (or_intror eq_refl) (or_intror eq_refl)).
Defined.

(** In the branch with strides the bias [a] is allocated with exactly
    its size [(m, n)], unlike [mat1] and [mat2]: for a non-empty shape,
    bias strides [(s, 1)] and matrices with a stride 1, the iteration
    raises the [RuntimeError] of [as_strided] exactly when there is more
    than one row and the row stride exceeds [n]; otherwise it yields. *)
Theorem strided_bias_raises_iff
    (self : Operator) (dt : option dtype) (shape_id : nat) (m k n : N)
    (all : list (list (list N))) (s00 s10 s11 s20 s21 : N) :
  strides self = Some all ->
  nth_error all shape_id = Some [[s00; 1%N]; [s10; s11]; [s20; s21]] ->
  (dtypes self = None \/ dtypes self = Some []) ->
  (1 <= m)%N -> (1 <= n)%N ->
  (s10 = 1 \/ s11 = 1)%N -> (s20 = 1 \/ s21 = 1)%N ->
  (input_of_shape self dt shape_id (m, k, n) = inl AddmmRuntimeError
   <-> (1 < m /\ n < s00)%N)
  /\ ((exists x, input_of_shape self dt shape_id (m, k, n) = inr (dt, x))
      <-> (m = 1 \/ s00 <= n)%N).
Proof.
  intros Hs Hn Hd Hm Hnn H1 H2.
  assert (Hfit : (view_extent (m, n) [s00; 1%N] <= m * n)%N <-> (m = 1 \/ s00 <= n)%N).
  { unfold view_extent. cbn [nth].
    destruct (N.eqb_spec m 0); [lia|]. destruct (N.eqb_spec n 0); [lia|]. cbn [orb].
    split.
    - intros Hle. destruct (N.eq_dec m 1) as [-> | Hm1]; [left; reflexivity | right].
      destruct (N.le_gt_cases s00 n) as [Hl | Hgt]; [exact Hl | exfalso].
      assert ((m - 1) * (n + 1) <= (m - 1) * s00)%N by (apply N.mul_le_mono_l; lia).
      nia.
    - intros [-> | Hle]; [lia|].
      assert ((m - 1) * s00 <= (m - 1) * n)%N by (apply N.mul_le_mono_l; exact Hle).
      nia. }
  destruct (N.le_gt_cases (view_extent (m, n) [s00; 1%N]) (m * n)) as [Hle | Hgt].
  - destruct (strided_input_yields self dt shape_id m k n all s00 1 s10 s11 s20 s21
                Hs Hn Hd Hle H1 H2) as (x & Hx & _).
    split.
    + split; [rewrite Hx; discriminate|]. intros [Hm1 Hs00].
      apply Hfit in Hle. lia.
    + split; [intros _; apply Hfit; exact Hle | intros _; exists x; exact Hx].
  - assert (Hraise : input_of_shape self dt shape_id (m, k, n) = inl AddmmRuntimeError).
    { unfold input_of_shape, select_dtype. rewrite Hs, Hn.
      assert (E : match dtypes self with
                  | Some (d :: ds) =>
                      match nth_error (d :: ds) shape_id with
                      | None => inl AddmmIndexError
                      | Some None => inl AddmmKeyError
                      | Some (Some d') => inr (Some d')
                      end
                  | _ => inr dt
                  end = inr dt :> (addmm_exn + option dtype)).
      { destruct Hd as [-> | ->]; reflexivity. }
      rewrite E. unfold as_strided at 1. unfold randn, alloc_numel.
      cbn [at_alloc fst snd].
      destruct (N.leb_spec (view_extent (m, n) [s00; 1%N]) (m * n)); [lia | reflexivity]. }
    split.
    + split; [|intros _; exact Hraise]. intros _.
      assert (~ (m = 1 \/ s00 <= n)%N) by (intros H; apply Hfit in H; lia). lia.
    + split.
      * intros (x & Hx). rewrite Hraise in Hx. discriminate.
      * intros H. apply Hfit in H. lia.
Qed.

Lemma strided_bias_raises_iff_witness :
  strides padded_operator = Some [[[5; 1]; [8; 1]; [2; 1]]%N]
  /\ (1 <= 4)%N /\ (1 <= 2)%N
  /\ (input_of_shape padded_operator None 0 (4, 3, 2)%N = inl AddmmRuntimeError
      <-> (1 < 4 /\ 2 < 5)%N).
Proof.
  assert (H1 : strides padded_operator = Some [[[5; 1]; [8; 1]; [2; 1]]%N]) by reflexivity.
  assert (H2 : (1 <= 4)%N) by lia.
  assert (H3 : (1 <= 2)%N) by lia.
  split; [exact H1 | split; [exact H2 | split; [exact H3 |]]].
  exact (proj1 (strided_bias_raises_iff padded_operator None 0 4 3 2 _ 5 8 1 2 1
                  H1 eq_refl (or_introl eq_refl) H2 H3
                  (or_intror eq_refl) (or_intror eq_refl))).
Defined.
